(** * multipart-downloader: a shallow embedding of the download engine

    The Go package [multipartdownloader] probes a list of mirrors, splits the
    file into [nConns] byte ranges, downloads the ranges concurrently into a
    pre-sized [.part] file and renames it on success.  This development
    embeds the sequential core of that package (the functions [GatherInfo],
    [SetupFile], [buildChunks], the coordinator loop of [Download],
    [CheckSHA256]/[CheckMD5] and [urlToFilename]) and proves properties of it.

    Conventions.
    - Go's [int64] (and [int], on a 64-bit target) is a [Z] together with the
      two's-complement wrap-around [wrap64] applied after each arithmetic
      operation.
    - Go strings are byte strings: Rocq's [string].
    - A Go call either returns normally ([Ok]), returns a non-nil [error]
      ([Err], carrying the message), panics ([Panic]) or waits forever on a
      channel ([Blocked]).  [OutOfFuel] belongs to the model only: loops are
      iterated with an explicit bound, and the theorems show that the bound
      is never what stops them.
    - The two slices of [nConns] entries, the chunk table and the progress
      table, are made by [makeslice]: a length beyond what the allocator
      manages panics, and whether the memory is there is asked of the
      environment ([may_allocate]); without it the program ends with the
      fatal error "out of memory", which is listed with the panics.  The
      other allocations are taken to succeed, and the protocol of
      [Download] is followed from the point where its channels exist.
    - The receiver [*MultiDownloader] is threaded explicitly: a method takes
      the struct and returns the struct as it is when the call ends. *)

From Stdlib Require Import ZArith Lia Bool Ascii String List.
From Stdlib.Strings Require Import Byte.
From Stdlib.Numbers Require Import DecimalString.
From stdpp Require Import base list strings gmap.

Local Open Scope Z_scope.

(** ** Go run-time values *)

Definition two63 : Z := 2 ^ 63.
Definition two64 : Z := 2 ^ 64.

(** Two's-complement reduction of an integer to the [int64] range. *)
Definition wrap64 (z : Z) : Z := (z + two63) mod two64 - two63.

Definition in_int64 (z : Z) : Prop := - two63 <= z < two63.

Inductive panic : Type :=
| DivideByZero            (* runtime error: integer divide by zero *)
| MakeSliceLenOutOfRange  (* runtime error: makeslice: len out of range *)
| IndexOutOfRange         (* runtime error: index out of range *)
| SliceBoundsOutOfRange   (* runtime error: slice bounds out of range *)
| OutOfMemory.            (* fatal error: runtime: out of memory *)

(** Go's [error] values built with [errors.New]: the message. *)
Definition error : Type := string.

Inductive outcome (A : Type) : Type :=
| Ok (a : A)
| Err (e : error)
| Panic (p : panic)
| Blocked
| OutOfFuel.

Arguments Ok {A} a.
Arguments Err {A} e.
Arguments Panic {A} p.
Arguments Blocked {A}.
Arguments OutOfFuel {A}.

(** ** Data model *)

Definition tmpFileSuffix : string := ".part".
Definition fileWriteChunk : Z := Z.shiftl 1 12.
Definition fileReadChunk : Z := Z.shiftl 1 12.

(** Info gathered from different sources. *)
Module UrlInfo.
Record urlInfo : Type := mk {
  url : string;
  fileLength : Z;
  etag : string;
  connSuccess : bool;
  statusCode : Z
}.
End UrlInfo.
Abbreviation urlInfo := UrlInfo.urlInfo.

(** Chunk boundaries. *)
Record Chunk : Type := mkChunk { Begin : Z; End : Z }.

(** The file downloader. *)
Record MultiDownloader : Type := mkMultiDownloader {
  urls : list string;
  nConns : Z;
  timeout : Z;
  fileLength : Z;
  filename : string;
  partFilename : string;
  ETag : string;
  chunks : list Chunk
}.

Definition NewMultiDownloader (urls : list string) (nConns : Z) (timeout : Z)
  : MultiDownloader :=
  mkMultiDownloader urls nConns timeout 0 EmptyString EmptyString EmptyString [].

Definition set_fileLength (d : MultiDownloader) (v : Z) : MultiDownloader :=
  mkMultiDownloader (urls d) (nConns d) (timeout d) v (filename d)
    (partFilename d) (ETag d) (chunks d).
Definition set_filename (d : MultiDownloader) (v : string) : MultiDownloader :=
  mkMultiDownloader (urls d) (nConns d) (timeout d) (fileLength d) v
    (partFilename d) (ETag d) (chunks d).
Definition set_partFilename (d : MultiDownloader) (v : string) : MultiDownloader :=
  mkMultiDownloader (urls d) (nConns d) (timeout d) (fileLength d) (filename d)
    v (ETag d) (chunks d).
Definition set_ETag (d : MultiDownloader) (v : string) : MultiDownloader :=
  mkMultiDownloader (urls d) (nConns d) (timeout d) (fileLength d) (filename d)
    (partFilename d) v (chunks d).
Definition set_chunks (d : MultiDownloader) (v : list Chunk) : MultiDownloader :=
  mkMultiDownloader (urls d) (nConns d) (timeout d) (fileLength d) (filename d)
    (partFilename d) (ETag d) v.

(** ** Memory *)

(** The allocator of the Go run-time system manages at most [maxAlloc]
    bytes: [1 << 48] on the 64-bit targets with 48 address bits, linux/amd64
    among them. *)
Definition maxAlloc : Z := 2 ^ 48.

(** [unsafe.Sizeof] of the two records that the package makes slices of:
    [Chunk] has two [int64] fields, [ConnectionProgress] an [int] and three
    [int64] fields. *)
Definition sizeof_Chunk : Z := 16.
Definition sizeof_ConnectionProgress : Z := 32.

(** [make([]T, n)] for a type of [size] bytes whose zero value is [zero]
    ([runtime.makeslice]).  A negative [n], and an [n] for which the slice
    would take more than [maxAlloc] bytes, panic with "makeslice: len out of
    range".  Otherwise the run-time system asks for the memory:
    [may_allocate bytes] says whether it gets that many bytes, and when it
    does not the program ends with "out of memory".  A slice of no bytes
    takes no memory. *)
Definition makeslice {A : Type} (may_allocate : Z -> bool) (size : Z) (zero : A)
    (n : Z) : panic + list A :=
  if (n <? 0) || (maxAlloc <? size * n) then inl MakeSliceLenOutOfRange
  else if (size * n =? 0) || may_allocate (size * n)
       then inr (replicate (Z.to_nat n) zero)
       else inl OutOfMemory.

(** ** buildChunks *)

(** [make([]Chunk, n)]. *)
Definition make_Chunks (may_allocate : Z -> bool) (n : Z) : panic + list Chunk :=
  makeslice may_allocate sizeof_Chunk (mkChunk 0 0) n.

(** [chunks[i] = c]: panics when [i] is outside the slice. *)
Definition store_Chunk (cs : list Chunk) (i : Z) (c : Chunk) : option (list Chunk) :=
  if (0 <=? i) && (i <? Z.of_nat (length cs))
  then Some (<[Z.to_nat i := c]> cs) else None.

(** The [for i := int64(0); i < n; i++] loop of [buildChunks]; the state is
    the loop's variables and the chunk table as filled so far. *)
Fixpoint buildChunks_loop (fuel : nat) (n chunkSize : Z)
    (i remainder boundary nextBoundary : Z) (cs : list Chunk)
  : list Chunk * outcome unit :=
  if negb (i <? n) then (cs, Ok tt) else
  match fuel with
  | O => (cs, OutOfFuel)
  | S fuel' =>
      let remainder' := if 0 <? remainder then wrap64 (remainder - 1) else remainder in
      let nextBoundary' := if 0 <? remainder then wrap64 (nextBoundary + 1) else nextBoundary in
      match store_Chunk cs i (mkChunk boundary nextBoundary') with
      | None => (cs, Panic IndexOutOfRange)
      | Some cs' =>
          buildChunks_loop fuel' n chunkSize (wrap64 (i + 1)) remainder'
            nextBoundary' (wrap64 (nextBoundary' + chunkSize)) cs'
      end
  end.

(** Internal: build the chunks table, deciding boundaries.  Go's [%] and [/]
    truncate towards zero ([Z.rem], [Z.quot]) and panic on a zero divisor.
    When [make] panics nothing has been assigned to [dldr.chunks]. *)
Definition buildChunks (may_allocate : Z -> bool) (dldr : MultiDownloader)
  : MultiDownloader * outcome unit :=
  let n := wrap64 (nConns dldr) in
  if n =? 0 then (dldr, Panic DivideByZero) else
  let remainder := Z.rem (fileLength dldr) n in
  let exactNumerator := wrap64 (fileLength dldr - remainder) in
  let chunkSize := wrap64 (Z.quot exactNumerator n) in
  match make_Chunks may_allocate n with
  | inl p => (dldr, Panic p)
  | inr cs0 =>
      let '(cs, o) :=
        buildChunks_loop (Z.to_nat n) n chunkSize 0 remainder 0 chunkSize cs0 in
      (set_chunks dldr cs, o)
  end.

(** ** Strings *)

(** [s[i:]] and [s[:i]] for an index known to be within the string. *)
Fixpoint string_from (i : nat) (s : string) : string :=
  match i, s with
  | O, _ => s
  | S i', String _ s' => string_from i' s'
  | S _, EmptyString => EmptyString
  end.

Fixpoint string_to (i : nat) (s : string) : string :=
  match i, s with
  | O, _ => EmptyString
  | S i', String a s' => String a (string_to i' s')
  | S _, EmptyString => EmptyString
  end.

Definition len (s : string) : Z := Z.of_nat (String.length s).

(** The slice expression [s[lo:hi]]: panics unless [0 <= lo <= hi <= len(s)]. *)
Definition slice_string (s : string) (lo hi : Z) : option string :=
  if (0 <=? lo) && (lo <=? hi) && (hi <=? len s)
  then Some (string_to (Z.to_nat (hi - lo)) (string_from (Z.to_nat lo) s))
  else None.

(** [strings.LastIndexByte(s, c)]: index of the last [c] in [s], or -1. *)
Fixpoint LastIndexByte (s : string) (c : ascii) : Z :=
  match s with
  | EmptyString => -1
  | String a s' =>
      let j := LastIndexByte s' c in
      if 0 <=? j then j + 1 else if Ascii.eqb a c then 0 else -1
  end.

(** [path.Split] of the Go standard library: the path is cut immediately
    after its final slash; without a slash the directory is empty. *)
Definition path_Split (path : string) : string * string :=
  let i := LastIndexByte path "/"%char in
  (string_to (Z.to_nat (i + 1)) path, string_from (Z.to_nat (i + 1)) path).

(** The double-quote character, and a tag between two of them. *)
Definition dquote : ascii := "034"%char.
Definition quoted (s : string) : string :=
  String dquote (s +:+ String dquote EmptyString).

(** ** The metadata probe and its reconciliation *)

(** What a HEAD request yields: the status and the two headers read. *)
Record Response : Type := mkResponse {
  StatusCode : Z;
  ContentLength : string;   (* resp.Header.Get("Content-Length") *)
  Etag : string             (* resp.Header.Get("Etag") *)
}.

(** The part of [net/url.URL] the package reads. *)
Record URL : Type := mkURL { Path : string }.

Definition ErrNoURLs : error := "No URLs provided".
Definition ErrFailedConnection (u : string) : error := "Failed connection to URL " +:+ u.
Definition ErrNotSameFile : error := "URLs must point to the same file".
Definition ErrAllSourcesFailed : error :=
  "The file couldn't be downloaded from any source. Aborting.".

Section Engine.

(** Two functions of the Go standard library are parameters of the
    embedding: [strconv.ParseInt(s, 0, 64)] ([None] when it reports an
    error) and [url.Parse] ([None] likewise).  So is the memory that the
    run-time system can get for the chunk table. *)
Variable ParseInt : string -> option Z.
Variable url_Parse : string -> option URL.
Variable may_allocate : Z -> bool.

(** The closure [getHead]: one probe, and the [urlInfo] it sends on the
    [results] channel.  [resp = None] is [client.Head] returning an error. *)
Definition getHead (u : string) (resp : option Response) : urlInfo :=
  match resp with
  | None => UrlInfo.mk u 0 EmptyString false 0
  | Some resp =>
      let flen := match ParseInt (ContentLength resp) with
                  | Some v => v
                  | None => 0   (* "Error reading Content-Length from HTTP header" *)
                  end in
      UrlInfo.mk u flen (Etag resp) true (StatusCode resp)
  end.

(** Get the name of the file from the URL. *)
Definition urlToFilename (urlStr : string) : string :=
  match url_Parse urlStr with
  | None => "downloaded-file"%string
  | Some url => snd (path_Split (Path url))
  end.

(** "Gather the results and return if something is wrong": [n] receives
    from the channel, whose deliveries in order of arrival are [ch]; the
    result is [resArray]. *)
Fixpoint gatherResults (n : nat) (ch : list urlInfo) : outcome (list urlInfo) :=
  match n with
  | O => Ok []
  | S n' =>
      match ch with
      | [] => Blocked
      | r :: ch' =>
          if negb (UrlInfo.connSuccess r) || negb (UrlInfo.statusCode r =? 200)
          then Err (ErrFailedConnection (UrlInfo.url r))
          else match gatherResults n' ch' with
               | Ok resArray => Ok (r :: resArray)
               | o => o
               end
      end
  end.

(** "Check that all sources agree on file length and Etag.  Empty Etags
    are also accepted": the loop over [resArray[1:]]; [false] is its early
    return. *)
Fixpoint sourcesAgree (commonFileLength : Z) (commonEtag : string)
    (rs : list urlInfo) : bool :=
  match rs with
  | [] => true
  | r :: rs' =>
      if negb (UrlInfo.fileLength r =? commonFileLength)
         || (negb (len (UrlInfo.etag r) =? 0)
             && negb (String.eqb (UrlInfo.etag r) commonEtag))
      then false
      else sourcesAgree commonFileLength commonEtag rs'
  end.

(** The tag step: [if commonEtag != "" { dldr.ETag = commonEtag[1 : len(commonEtag)-1] }];
    [None] is the panic of the slice expression.  ([len(s) - 1] is at least
    -1: it cannot leave the range of [int].) *)
Definition storeETag (dldr : MultiDownloader) (commonEtag : string)
  : option MultiDownloader :=
  if negb (String.eqb commonEtag EmptyString)
  then match slice_string commonEtag 1 (len commonEtag - 1) with
       | Some t => Some (set_ETag dldr t)
       | None => None
       end
  else Some dldr.

(** Get the info of the file, using the HTTP HEAD request.  The probes run
    as goroutines, one per URL, and each sends one [urlInfo] on the channel;
    [results] is what they send, in the order in which the receiving loop
    gets it.  The model is the call itself, up to its return: the deferred
    [close(results)] and the probes that are still to send when the call
    returns early belong to the concurrent program around it. *)
Definition GatherInfo (dldr : MultiDownloader) (results : list urlInfo)
  : MultiDownloader * outcome (list Chunk) :=
  if (length (urls dldr) =? 0)%nat then (dldr, Err ErrNoURLs) else
  match gatherResults (length (urls dldr)) results with
  | Ok [] => (dldr, Panic IndexOutOfRange)
  | Ok (r0 :: rest) =>
      let commonFileLength := UrlInfo.fileLength r0 in
      let commonEtag := UrlInfo.etag r0 in
      if negb (sourcesAgree commonFileLength commonEtag rest)
      then (dldr, Err ErrNotSameFile)
      else
        let dldr := set_fileLength dldr commonFileLength in
        match storeETag dldr commonEtag with
        | None => (dldr, Panic SliceBoundsOutOfRange)
        | Some dldr =>
            let dldr := set_filename dldr (urlToFilename (UrlInfo.url r0)) in
            let dldr := set_partFilename dldr (filename dldr +:+ tmpFileSuffix) in
            match buildChunks may_allocate dldr with
            | (dldr, Ok _) => (dldr, Ok (chunks dldr))
            | (dldr, Err e) => (dldr, Err e)
            | (dldr, Panic p) => (dldr, Panic p)
            | (dldr, Blocked) => (dldr, Blocked)
            | (dldr, OutOfFuel) => (dldr, OutOfFuel)
            end
        end
  | Err e => (dldr, Err e)
  | Panic p => (dldr, Panic p)
  | Blocked => (dldr, Blocked)
  | OutOfFuel => (dldr, OutOfFuel)
  end.

End Engine.

(** ** The coordinator loop of [Download] *)

(** What the coordinator receives: a value on the [done] channel or one on
    the [failed] channel. *)
Inductive event : Type := done | failed.

(** The loop [for remainingChunks > 0 { select { ... } }] run on the events
    in the order in which the [select] takes them.  [Ok tt] is the normal
    exit of the loop, after which [Download] calls [os.Rename]; [Err] is the
    [return errors.New(...)] inside the loop; [Blocked] is the [select]
    waiting for an event that never comes. *)
Fixpoint Download_loop (nConns remainingChunks failedCount : Z)
    (events : list event) : outcome unit :=
  if negb (0 <? remainingChunks) then Ok tt else
  match events with
  | [] => Blocked
  | done :: events' =>
      Download_loop nConns (wrap64 (remainingChunks - 1)) failedCount events'
  | failed :: events' =>
      let failedCount := wrap64 (failedCount + 1) in
      if nConns <=? failedCount then Err ErrAllSourcesFailed
      else Download_loop nConns remainingChunks failedCount events'
  end.

(** [remainingChunks := dldr.nConns; failedCount := 0; for ...]. *)
Definition Download_coordinator (dldr : MultiDownloader) (events : list event)
  : outcome unit :=
  Download_loop (nConns dldr) (nConns dldr) 0 events.

(** How many [done] and how many [failed] events a sequence holds. *)
Fixpoint count_done (events : list event) : Z :=
  match events with
  | [] => 0
  | done :: events' => 1 + count_done events'
  | failed :: events' => count_done events'
  end.

Fixpoint count_failed (events : list event) : Z :=
  match events with
  | [] => 0
  | done :: events' => count_failed events'
  | failed :: events' => 1 + count_failed events'
  end.

(** ** The staging file *)

(** A flat file system: names and contents. *)
Abbreviation filesystem := (gmap string (list byte)).

(** What [os.FileInfo] is read for. *)
Record FileInfo : Type := mkFileInfo { Size : Z }.

Definition ErrCreate (name : string) : error := "open " +:+ name.
Definition ErrTruncate (name : string) : error := "truncate " +:+ name.

Section Files.

(** The environment decides whether a name can be created (permissions,
    missing directory, empty name) and whether a file can be given a size
    (quota, largest file the system holds). *)
Variable may_create : string -> bool.
Variable may_resize : Z -> bool.

(** [os.Create]: create or truncate to length 0. *)
Definition os_Create (fs : filesystem) (name : string) : error + filesystem :=
  if may_create name then inr (<[name := []]> fs) else inl (ErrCreate name).

(** [file.Truncate(size)]: cut, or extend with zero bytes; a negative size
    is an error, and an error leaves the file as it is. *)
Definition file_Truncate (fs : filesystem) (name : string) (size : Z)
  : error + filesystem :=
  if (size <? 0) || negb (may_resize size) then inl (ErrTruncate name)
  else match fs !! name with
       | Some data =>
           inr (<[name := take (Z.to_nat size) data
                           ++ replicate (Z.to_nat size - length data) x00]> fs)
       | None => inl (ErrTruncate name)
       end.

(** [file.Stat] on the open file. *)
Definition file_Stat (fs : filesystem) (name : string) : FileInfo :=
  mkFileInfo (Z.of_nat (length (default [] (fs !! name)))).

(** Prepare the file used for writing the blocks of data.  The error of
    [Truncate] is assigned to [err] and then overwritten by that of [Stat]. *)
Definition SetupFile (dldr : MultiDownloader) (fs : filesystem) (filename : string)
  : MultiDownloader * filesystem * outcome FileInfo :=
  let dldr :=
    if negb (String.eqb filename EmptyString)
    then set_partFilename (set_filename dldr filename) (filename +:+ tmpFileSuffix)
    else dldr in
  match os_Create fs (partFilename dldr) with
  | inl err => (dldr, fs, Err err)
  | inr fs =>
      let fs := match file_Truncate fs (partFilename dldr) (fileLength dldr) with
                | inr fs' => fs'
                | inl _ => fs
                end in
      (dldr, fs, Ok (file_Stat fs (partFilename dldr)))
  end.

End Files.

(** ** Digest checks *)

(** Go's [hash.Hash] as far as the package uses it: [New], [Write], [Sum(nil)]. *)
Class Hash (H : Type) : Type := {
  hash_New : H;
  hash_Write : H -> list byte -> H;
  hash_Sum : H -> list byte
}.

(** Writing in pieces is writing the concatenation. *)
Class HashStreaming (H : Type) `{Hash H} : Prop := {
  hash_Write_nil : forall h : H, hash_Write h [] = h;
  hash_Write_app : forall (h : H) (a b : list byte),
      hash_Write (hash_Write h a) b = hash_Write h (a ++ b)
}.

(** [fmt.Sprintf("%x", bytes)]: two lowercase hexadecimal digits per byte. *)
Definition hexDigit (n : N) : ascii :=
  nth (N.to_nat n)
    (list_ascii_of_string "0123456789abcdef") "0"%char.

Fixpoint hexString (bs : list byte) : string :=
  match bs with
  | [] => EmptyString
  | b :: bs' =>
      String (hexDigit (N.div (Byte.to_N b) 16))
        (String (hexDigit (N.modulo (Byte.to_N b) 16)) (hexString bs'))
  end.

(** ASCII lower-casing, for stating what a case-insensitive comparison
    would accept. *)
Definition toLower (a : ascii) : ascii :=
  let n := N_of_ascii a in
  if ((65 <=? n) && (n <=? 90))%N then ascii_of_N (n + 32) else a.

Fixpoint lowerString (s : string) : string :=
  match s with
  | EmptyString => EmptyString
  | String a s' => String (toLower a) (lowerString s')
  end.

Definition ErrOpen (name : string) : error := "open " +:+ name.

Section Digest.

Context {H : Type} `{Hash H}.

(** The read loop: [file.Read(buf)] takes the next block of at most
    [fileReadChunk] bytes, [n == 0] ends the loop, otherwise the block goes
    to [hash.Write]. *)
Fixpoint hashBlocks (fuel : nat) (h : H) (rest : list byte) : outcome H :=
  let n := Nat.min (length rest) (Z.to_nat fileReadChunk) in
  if (n =? 0)%nat then Ok h else
  match fuel with
  | O => OutOfFuel
  | S fuel' => hashBlocks fuel' (hash_Write h (take n rest)) (drop n rest)
  end.

(** The body shared by [CheckSHA256] and [CheckMD5], which differ in the
    hash and in the name [what] printed in the message. *)
Definition CheckDigest (what : string) (dldr : MultiDownloader)
    (fs : filesystem) (expected : string) : outcome unit :=
  match fs !! filename dldr with
  | None => Err (ErrOpen (filename dldr))
  | Some content =>
      match hashBlocks (length content) hash_New content with
      | Ok h =>
          let computed := hexString (hash_Sum h) in
          if negb (String.eqb computed expected)
          then Err ("Computed " +:+ what +:+ " does not match: provided="
                      +:+ expected +:+ " computed=" +:+ computed)
          else Ok tt
      | Err e => Err e
      | Panic p => Panic p
      | Blocked => Blocked
      | OutOfFuel => OutOfFuel
      end
  end.

(** Check SHA-256 of downloaded file ([H] is [sha256.New()]). *)
Definition CheckSHA256 := CheckDigest "SHA256".

(** Check MD5SUM of downloaded file ([H] is [md5.New()]). *)
Definition CheckMD5 := CheckDigest "MD5SUM".

End Digest.

(** ** Vocabulary of the properties *)

(** Chunk [k] of a file of [n * q + r] bytes cut into [n] pieces. *)
Definition chunkAt (q r : Z) (k : nat) : Chunk :=
  mkChunk (Z.of_nat k * q + Z.min (Z.of_nat k) r)
          ((Z.of_nat k + 1) * q + Z.min (Z.of_nat k + 1) r).

Definition chunkTable (q r : Z) (n : nat) : list Chunk :=
  map (chunkAt q r) (seq 0 n).


(** The three ways the loop can end, each with the shape of the events that
    leads to it: the loop is started with [remaining] chunks to wait for and
    [fc] failures already counted. *)
Definition ends_renaming (N remaining fc : Z) (events : list event) : Prop :=
  exists pre post, events = pre ++ post /\
    count_done pre = remaining /\ fc + count_failed pre < N.

Definition ends_aborting (N remaining fc : Z) (events : list event) : Prop :=
  exists pre post, events = pre ++ failed :: post /\
    fc + count_failed pre = N - 1 /\ count_done pre < remaining.

Definition keeps_waiting (N remaining fc : Z) (events : list event) : Prop :=
  count_done events < remaining /\ fc + count_failed events < N.


(** The claim of C3 as the specification words it: whatever the tag, the
    step completes; a tag between quotes is stored without them; any other
    tag is stored as it is (an empty tag leaving the field as it was). *)
Definition tag_step_as_specified : Prop :=
  forall (dldr : MultiDownloader) (tag : string),
  exists dldr', storeETag dldr tag = Some dldr' /\
    (forall t, tag = quoted t -> ETag dldr' = t) /\
    ((forall t, tag <> quoted t) ->
       ETag dldr' = if String.eqb tag EmptyString then ETag dldr else tag).

(** A result that passes the check of the receiving loop. *)
Definition probe_ok (r : urlInfo) : Prop :=
  UrlInfo.connSuccess r = true /\ UrlInfo.statusCode r = 200.

(** The agreement loop accepts exactly the lists in which every later
    result has the length of the first and a tag that is empty or equal to
    the first one's. *)
Definition agrees_with (commonFileLength : Z) (commonEtag : string) (r : urlInfo)
  : Prop :=
  UrlInfo.fileLength r = commonFileLength /\
  (UrlInfo.etag r = EmptyString \/ UrlInfo.etag r = commonEtag).

(** The claim of C6 as the specification words it: the comparison ignores
    the case of the supplied string. *)
Definition digest_check_as_specified : Prop :=
  forall (H : Type) (hash : Hash H), HashStreaming H ->
  forall (dldr : MultiDownloader) (fs : filesystem) (content : list byte)
         (expected : string),
    fs !! filename dldr = Some content ->
    (CheckSHA256 dldr fs expected = Ok tt <->
     lowerString expected = hexString (hash_Sum (hash_Write hash_New content))).

(** ** Sample instances of the library parameters

    The examples below need concrete library functions.  Each of these
    agrees with the Go function on the inputs described and answers [None]
    elsewhere. *)

(** [strconv.ParseInt(s, 0, 64)] on the empty string (an error) and on
    decimal numerals without sign, underscore or leading zero. *)
Fixpoint digits_value (acc : Z) (s : string) : option Z :=
  match s with
  | EmptyString => Some acc
  | String a s' =>
      let n := Z.of_N (N_of_ascii a) in
      if (48 <=? n) && (n <=? 57) then digits_value (10 * acc + (n - 48)) s'
      else None
  end.

Definition decimal_ParseInt (s : string) : option Z :=
  match s with
  | EmptyString => None
  | String "0" EmptyString => Some 0
  | String "0" _ => None
  | _ => match digits_value 0 s with
         | Some v => if v <? two63 then Some v else None
         | None => None
         end
  end.

(** [url.Parse] on URLs of the shape [scheme://host/path], without query,
    fragment or escapes: the path starts at the first slash after the host. *)
Fixpoint after_scheme (s : string) : option string :=
  match s with
  | String ":" (String "/" (String "/" rest)) => Some rest
  | String _ s' => after_scheme s'
  | EmptyString => None
  end.

Fixpoint from_first_slash (s : string) : string :=
  match s with
  | EmptyString => EmptyString
  | String a s' => if Ascii.eqb a "/" then s else from_first_slash s'
  end.

Definition simple_url_Parse (s : string) : option URL :=
  match after_scheme s with
  | Some rest => Some (mkURL (from_first_slash rest))
  | None => None
  end.

(** A run-time system that has [limit] bytes to give. *)
Definition memory_of (limit : Z) : Z -> bool := fun bytes => bytes <=? limit.

Definition one_GiB : Z := 2 ^ 30.

(** A run-time system that never runs out of memory. *)
Definition memory_unbounded : Z -> bool := fun _ => true.

(** The SHA-256 digest of the empty input. *)
Definition sha256_of_empty : list byte :=
  [xe3; xb0; xc4; x42; x98; xfc; x1c; x14; x9a; xfb; xf4; xc8; x99; x6f; xb9; x24;
   x27; xae; x41; xe4; x64; x9b; x93; x4c; xa4; x95; x99; x1b; x78; x52; xb8; x55].

(** A [hash.Hash] that keeps what is written and gives the SHA-256 digest
    of the empty input, which is all it is asked for below. *)
Definition sha256_on_empty : Hash (list byte) :=
  {| hash_New := []; hash_Write := fun h p => h ++ p;
     hash_Sum := fun _ => sha256_of_empty |}.

(** ** Sample data for the examples *)

(** The mirrors [abc], none, [abc] of the specification's example, with the
    untagged mirror answering first. *)
Definition three_mirrors : MultiDownloader :=
  NewMultiDownloader ["http://m1/f"; "http://m2/f"; "http://m3/f"]%string 3 0.

Definition untagged_first : list urlInfo :=
  [UrlInfo.mk "http://m2/f" 100 EmptyString true 200;
   UrlInfo.mk "http://m1/f" 100 (quoted "abc") true 200;
   UrlInfo.mk "http://m3/f" 100 (quoted "abc") true 200].

(** One mirror of three answers 404. *)
Definition one_bad_response : list (option Response) :=
  [Some (mkResponse 200 "100" (quoted "abc"));
   Some (mkResponse 404 "0" EmptyString);
   Some (mkResponse 200 "100" (quoted "abc"))].

(** A 200 answer without Content-Length and without Etag. *)
Definition no_length_response : Response :=
  mkResponse 200 EmptyString EmptyString.

Definition two_mirrors : MultiDownloader :=
  NewMultiDownloader ["http://m1/f"; "http://m2/f"]%string 2 0.

(** Ten bytes to be fetched by [2^45] workers. *)
Definition too_many_workers : MultiDownloader :=
  set_fileLength (NewMultiDownloader ["http://m1/f"%string] (2 ^ 45) 0) 10.

(** Three mirrors and a worker count of zero. *)
Definition no_workers : MultiDownloader :=
  NewMultiDownloader ["http://m1/f"; "http://m2/f"; "http://m3/f"]%string 0 0.

Definition tagged_first : list urlInfo :=
  [UrlInfo.mk "http://m1/f" 100 (quoted "abc") true 200;
   UrlInfo.mk "http://m2/f" 100 EmptyString true 200;
   UrlInfo.mk "http://m3/f" 100 (quoted "abc") true 200].

(** One mirror, whose probe is answered with the one-byte tag [W]. *)
Definition one_mirror : MultiDownloader :=
  NewMultiDownloader ["http://m1/f"%string] 1 0.

Definition one_byte_tag : list urlInfo :=
  [UrlInfo.mk "http://m1/f" 100 "W" true 200].

(** A downloader whose file is named [f], and a file system in which [f] is
    empty. *)
Definition named_f : MultiDownloader :=
  set_filename (NewMultiDownloader ["http://m1/f"%string] 1 0) "f".

Definition empty_f : filesystem := <["f"%string := []]> ∅.

Definition sha256_of_empty_upper : string :=
  "E3B0C44298FC1C149AFBF4C8996FB92427AE41E4649B934CA495991B7852B855".

Definition sha256_of_empty_lower : string :=
  "e3b0c44298fc1c149afbf4c8996fb92427ae41e4649b934ca495991b7852b855".

(** * The transfer: workers and progress

    The closure [downloadChunk] of [Download], one pass of its outer loop
    after a token has been taken, and the goroutine that gathers the
    progress snapshots.  As for the coordinator, what comes over a channel or
    from the network is given as the sequence in which it comes. *)

(** Go's [%d]. *)
Definition formatInt (z : Z) : string := NilZero.string_of_int (Z.to_int z).

(** The value of the Range header sent for a chunk:
    [fmt.Sprintf("bytes=%d-%d", Begin, End)]. *)
Definition rangeHeader (c : Chunk) : string :=
  "bytes=" +:+ formatInt (Begin c) +:+ "-" +:+ formatInt (End c).

(** Progress feedback type. *)
Module Progress.
Record ConnectionProgress : Type := mk {
  Id : Z;
  Begin : Z;
  End : Z;
  Current : Z
}.
End Progress.
Abbreviation ConnectionProgress := Progress.ConnectionProgress.

(** What one call [io.ReadFull(resp.Body, buf)] gives the loop: the bytes
    [buf[:n]] and whether [err == io.EOF], the only test the loop makes. *)
Record readResult : Type := mkRead { readData : list byte; readEOF : bool }.

(** How the copy loop ends: [done <- true], [log.Fatal], a read that has
    not returned, or a send on [progress] that nobody receives. *)
Inductive copyEnd : Type := SendsDone | LogFatal | AwaitsRead | AwaitsReceiver.

(** How one pass of the outer loop of [downloadChunk] ends. *)
Inductive roundEnd : Type :=
| Sends (e : event)
| Exits
| Awaits
| AwaitsProgress
| Panics (p : panic)
| RoundOutOfFuel.

(** What a pass that has come to its copy does next. *)
Definition roundEnd_of (e : copyEnd) : roundEnd :=
  match e with
  | SendsDone => Sends done
  | LogFatal => Exits
  | AwaitsRead => Awaits
  | AwaitsReceiver => AwaitsProgress
  end.

(** [dldr.chunks[i]] and [dldr.urls[k]]: an index outside the slice panics. *)
Definition index_Z {A : Type} (l : list A) (i : Z) : option A :=
  if (0 <=? i) && (i <? Z.of_nat (length l)) then l !! Z.to_nat i else None.

(** The file after [len(b) > 0] bytes [b] have been written at [off]: a
    hole before [off] reads as zeros. *)
Definition overlay (data b : list byte) (off : nat) : list byte :=
  match b with
  | [] => data
  | _ => take off (data ++ replicate (off - length data) x00)
         ++ b ++ drop (off + length b) data
  end.

Section Transfer.

(** The environment: whether the disk takes [n] bytes at an offset,
    whether [http.NewRequest] accepts a URL, and what [client.Do] returns for
    a URL and a Range header ([None] for an error; otherwise the results of
    the successive [io.ReadFull] calls on the body, whatever the status of the
    response, which the code does not read). *)
Variable may_write : Z -> nat -> bool.
Variable NewRequest : string -> bool.
Variable client_Do : string -> string -> option (list readResult).

(** [f.WriteAt(b, off)] on the contents of the file. *)
Definition file_WriteAt (data b : list byte) (off : Z) : option (list byte) :=
  if (off <? 0) || negb (may_write off (length b)) then None
  else Some (overlay data b (Z.to_nat off)).

(** "Read response and process it in chunks": the inner [for] of
    [downloadChunk].  [feedback] says whether a progress function was given.
    The channel [progress] has no buffer: a send ends when the goroutine of
    [Download] that keeps the progress table receives the value, and that
    goroutine leaves its loop for good at some point (see
    [Download_aggregator] and [snapshots_taken]).  [taken] is the number of
    sends of this loop that still find it receiving; the send after them
    waits for ever, the block before it being written already.  The result
    is the file, the snapshots sent and received, and the way the loop
    ends. *)
Fixpoint downloadChunk_copy (feedback : bool) (taken : nat) (i : Z) (c : Chunk)
    (reads : list readResult) (f : list byte) (cursor : Z)
  : list byte * list ConnectionProgress * copyEnd :=
  match reads with
  | [] => (f, [], AwaitsRead)
  | rd :: reads' =>
      if readEOF rd then (f, [], SendsDone)
      else
        match file_WriteAt f (readData rd) cursor with
        | None => (f, [], LogFatal)
        | Some f' =>
            let cursor' := wrap64 (cursor + Z.of_nat (length (readData rd))) in
            if feedback
            then match taken with
                 | O => (f', [], AwaitsReceiver)
                 | S taken' =>
                     let '(f'', ps, e) :=
                       downloadChunk_copy feedback taken' i c reads' f' cursor' in
                     (f'', Progress.mk i (Begin c) (End c) cursor' :: ps, e)
                 end
            else downloadChunk_copy feedback taken i c reads' f' cursor'
        end
  end.

(** "Try each URL before signaling failure": the loop
    [for try := 0; try < numUrls; try++]. *)
Fixpoint downloadChunk_tries (fuel : nat) (dldr : MultiDownloader)
    (feedback : bool) (taken : nat) (i try : Z) (f : list byte)
  : list byte * list ConnectionProgress * roundEnd :=
  let numUrls := Z.of_nat (length (urls dldr)) in
  if negb (try <? numUrls) then (f, [], Sends failed) else
  match fuel with
  | O => (f, [], RoundOutOfFuel)
  | S fuel' =>
      match index_Z (urls dldr) (Z.rem (wrap64 (i + try)) numUrls) with
      | None => (f, [], Panics IndexOutOfRange)
      | Some selectedUrl =>
          if negb (NewRequest selectedUrl)
          then downloadChunk_tries fuel' dldr feedback taken i (wrap64 (try + 1)) f
          else
            match index_Z (chunks dldr) i with
            | None => (f, [], Panics IndexOutOfRange)
            | Some c =>
                match client_Do selectedUrl (rangeHeader c) with
                | None =>
                    downloadChunk_tries fuel' dldr feedback taken i
                      (wrap64 (try + 1)) f
                | Some reads =>
                    let '(f', ps, e) :=
                      downloadChunk_copy feedback taken i c reads f (Begin c) in
                    (f', ps, roundEnd_of e)
                end
            end
      end
  end.

(** One pass of the outer loop of [downloadChunk], after [<-available]. *)
Definition downloadChunk_round (dldr : MultiDownloader) (feedback : bool)
    (taken : nat) (i : Z) (f : list byte)
  : list byte * list ConnectionProgress * roundEnd :=
  downloadChunk_tries (length (urls dldr)) dldr feedback taken i 0 f.

(** Chunks copied one after the other, each from the reads of its
    response, without a progress function; [None] unless every copy ends
    with [done]. *)
Fixpoint copyAll (jobs : list (Chunk * list readResult)) (f : list byte)
  : option (list byte) :=
  match jobs with
  | [] => Some f
  | (c, reads) :: jobs' =>
      match downloadChunk_copy false 0 0 c reads f (Begin c) with
      | (f', _, SendsDone) => copyAll jobs' f'
      | _ => None
      end
  end.

End Transfer.

(** [progressArray[p.Id] = p]. *)
Definition store_Progress (table : list ConnectionProgress) (i : Z)
    (p : ConnectionProgress) : option (list ConnectionProgress) :=
  if (0 <=? i) && (i <? Z.of_nat (length table))
  then Some (<[Z.to_nat i := p]> table) else None.

(** The loop that fills [progressArray] before the transfer starts. *)
Fixpoint Download_progressArray_loop (fuel : nat) (nConns i : Z)
    (cs : list Chunk) (table : list ConnectionProgress)
  : outcome (list ConnectionProgress) :=
  if negb (i <? nConns) then Ok table else
  match fuel with
  | O => OutOfFuel
  | S fuel' =>
      match index_Z cs i with
      | None => Panic IndexOutOfRange
      | Some c =>
          match store_Progress table i (Progress.mk i (Begin c) (End c) (Begin c)) with
          | None => Panic IndexOutOfRange
          | Some table' =>
              Download_progressArray_loop fuel' nConns (wrap64 (i + 1)) cs table'
          end
      end
  end.

(** [progressArray := make([]ConnectionProgress, dldr.nConns)] and its
    initialisation. *)
Definition Download_progressArray (may_allocate : Z -> bool)
    (dldr : MultiDownloader) : outcome (list ConnectionProgress) :=
  match makeslice may_allocate sizeof_ConnectionProgress (Progress.mk 0 0 0 0)
          (nConns dldr) with
  | inl p => Panic p
  | inr table =>
      Download_progressArray_loop (Z.to_nat (nConns dldr)) (nConns dldr) 0
        (chunks dldr) table
  end.

(** The goroutine that receives the snapshots [ps] in the order in which
    they come.  It returns the tables passed to [feedbackFunc], one per call,
    the table at the end, and how the loop ends. *)
Fixpoint Download_aggregator (nConns complete : Z)
    (progressArray : list ConnectionProgress) (ps : list ConnectionProgress)
  : list (list ConnectionProgress) * list ConnectionProgress * outcome unit :=
  if negb (complete <? nConns) then ([], progressArray, Ok tt) else
  match ps with
  | [] => ([], progressArray, Blocked)
  | p :: ps' =>
      match store_Progress progressArray (Progress.Id p) p with
      | None => ([], progressArray, Panic IndexOutOfRange)
      | Some table =>
          let complete' :=
            if Progress.End p <=? Progress.Current p
            then wrap64 (complete + 1) else complete in
          let '(calls, final, o) := Download_aggregator nConns complete' table ps' in
          (table :: calls, final, o)
      end
  end.

(** ** Vocabulary of the further properties *)

(** The reads of a response whose body [body] arrives whole: blocks that
    are not the end, then the end. *)
Definition delivers (reads : list readResult) (body : list byte) : Prop :=
  exists blocks : list (list byte),
    reads = map (fun b => mkRead b false) blocks ++ [mkRead [] true]
    /\ concat blocks = body.

(** The bytes [Begin .. End] of [content], both ends included, as far as
    they exist: what a mirror that honours the Range header sends. *)
Definition servedRange (content : list byte) (c : Chunk) : list byte :=
  take (Z.to_nat (End c + 1 - Begin c)) (drop (Z.to_nat (Begin c)) content).

(** A snapshot that the aggregator counts as the completion of a chunk. *)
Definition completes (p : ConnectionProgress) : bool :=
  Progress.End p <=? Progress.Current p.

Fixpoint count_completes (ps : list ConnectionProgress) : Z :=
  match ps with
  | [] => 0
  | p :: ps' => (if completes p then 1 else 0) + count_completes ps'
  end.

(** Of the snapshots [ps] offered on [progress], in the order in which
    they are offered, the number of those of worker [i] that the goroutine
    started with [table] receives before it leaves its loop. *)
Fixpoint count_from (i : Z) (ps : list ConnectionProgress) : nat :=
  match ps with
  | [] => 0
  | p :: ps' =>
      if Progress.Id p =? i then S (count_from i ps') else count_from i ps'
  end.

Definition snapshots_taken (nConns : Z) (table ps : list ConnectionProgress)
    (i : Z) : nat :=
  count_from i (take (length (Download_aggregator nConns 0 table ps).1.1) ps).

(** A lowercase hexadecimal digit. *)
Definition is_lower_hex (a : ascii) : Prop :=
  In a (list_ascii_of_string "0123456789abcdef").

(** The snapshots that the copy of the blocks [blocks], started at
    [cursor], sends for chunk [c] of worker [i]. *)
Fixpoint snapshotsOf (i : Z) (c : Chunk) (cursor : Z) (blocks : list (list byte))
  : list ConnectionProgress :=
  match blocks with
  | [] => []
  | b :: blocks' =>
      Progress.mk i (Begin c) (End c) (cursor + Z.of_nat (length b))
      :: snapshotsOf i c (cursor + Z.of_nat (length b)) blocks'
  end.

(** The snapshot for chunk [i] that came last in [ps], or [dflt]. *)
Fixpoint latest (i : nat) (ps : list ConnectionProgress)
    (dflt : option ConnectionProgress) : option ConnectionProgress :=
  match ps with
  | [] => dflt
  | p :: ps' =>
      latest i ps' (if Progress.Id p =? Z.of_nat i then Some p else dflt)
  end.

(** A snapshot whose [Id] is an index of a table of [n] entries. *)
Definition id_within (n : nat) (p : ConnectionProgress) : Prop :=
  0 <= Progress.Id p < Z.of_nat n.

(** * The token pool, the workers and the coordinator together

    The protocol of [Download] as a transition system.  The channel
    [available] holds tokens, at most [nConns] of them; a worker waits for a
    token, then runs one pass over the mirrors and sends on [done] (and
    returns) or on [failed] (and waits for a token again); the coordinator
    receives, counts, gives a token back for each [done], and leaves its loop
    by the rename or by the error.  A step is one communication: a token
    taken, or a signal sent and received. *)

Inductive workerState : Type := Waiting | Running | Finished.

Inductive coordinatorState : Type :=
| Looping          (* inside [for remainingChunks > 0] *)
| Renamed          (* left the loop: [os.Rename] follows *)
| Aborted          (* returned the error *)
| BlockedOnToken.  (* [available <- true] on a full channel *)

Record session : Type := mkSession {
  available : Z;                  (* tokens in the channel *)
  workers : list workerState;
  remainingChunks : Z;
  failedCount : Z;
  coordinator : coordinatorState
}.

Inductive action : Type :=
| TakesToken (i : nat)      (* worker [i]: [<-available] *)
| SendsOnDone (i : nat)     (* worker [i]: [done <- true], received *)
| SendsOnFailed (i : nat).  (* worker [i]: [failed <- true], received *)

(** The session when the coordinator reaches its loop: the channel filled
    with [nConns] tokens, every worker started and waiting for one. *)
Definition Download_start (nConns : Z) : session :=
  mkSession nConns (replicate (Z.to_nat nConns) Waiting) nConns 0
    (if 0 <? nConns then Looping else Renamed).

Definition Download_step (nConns : Z) (s : session) (a : action) : option session :=
  match a with
  | TakesToken i =>
      match workers s !! i with
      | Some Waiting =>
          if 0 <? available s
          then Some (mkSession (available s - 1) (<[i := Running]> (workers s))
                       (remainingChunks s) (failedCount s) (coordinator s))
          else None
      | _ => None
      end
  | SendsOnDone i =>
      match workers s !! i, coordinator s with
      | Some Running, Looping =>
          let remainingChunks' := wrap64 (remainingChunks s - 1) in
          if available s <? nConns
          then Some (mkSession (available s + 1) (<[i := Finished]> (workers s))
                       remainingChunks' (failedCount s)
                       (if 0 <? remainingChunks' then Looping else Renamed))
          else Some (mkSession (available s) (<[i := Finished]> (workers s))
                       remainingChunks' (failedCount s) BlockedOnToken)
      | _, _ => None
      end
  | SendsOnFailed i =>
      match workers s !! i, coordinator s with
      | Some Running, Looping =>
          let failedCount' := wrap64 (failedCount s + 1) in
          Some (mkSession (available s) (<[i := Waiting]> (workers s))
                  (remainingChunks s) failedCount'
                  (if nConns <=? failedCount' then Aborted else Looping))
      | _, _ => None
      end
  end.

(** A sequence of steps; [None] when one of them cannot be taken. *)
Fixpoint Download_run (nConns : Z) (s : session) (acts : list action)
  : option session :=
  match acts with
  | [] => Some s
  | a :: acts' =>
      match Download_step nConns s a with
      | Some s' => Download_run nConns s' acts'
      | None => None
      end
  end.

(** The events that the coordinator receives in a sequence of steps. *)
Fixpoint signals (acts : list action) : list event :=
  match acts with
  | [] => []
  | TakesToken _ :: acts' => signals acts'
  | SendsOnDone _ :: acts' => done :: signals acts'
  | SendsOnFailed _ :: acts' => failed :: signals acts'
  end.

(** How many workers are in a state. *)
Fixpoint count_workers (w : workerState) (ws : list workerState) : Z :=
  match ws with
  | [] => 0
  | w' :: ws' =>
      (match w, w' with
       | Waiting, Waiting | Running, Running | Finished, Finished => 1
       | _, _ => 0
       end) + count_workers w ws'
  end.

(** What holds of every session that the steps reach. *)
Definition session_invariant (N : Z) (s : session) : Prop :=
  Z.of_nat (length (workers s)) = N /\
  0 <= available s /\ 0 <= failedCount s /\
  available s + count_workers Running (workers s) + failedCount s = N /\
  remainingChunks s
  = count_workers Waiting (workers s) + count_workers Running (workers s) /\
  match coordinator s with
  | Looping => failedCount s < N /\ 0 < remainingChunks s
  | Renamed => remainingChunks s <= 0
  | Aborted => failedCount s = N
  | BlockedOnToken => False
  end.

(** What [Download_loop] returns, for the state of the coordinator. *)
Definition coordinator_outcome (c : coordinatorState) : outcome unit :=
  match c with
  | Looping => Blocked
  | Renamed => Ok tt
  | Aborted => Err ErrAllSourcesFailed
  | BlockedOnToken => Blocked
  end.

(** The writes that the copy of the blocks [blocks], started at [cursor],
    makes: each block at the position that the blocks before it have
    reached. *)
Fixpoint blockWrites (cursor : Z) (blocks : list (list byte))
  : list (Z * list byte) :=
  match blocks with
  | [] => []
  | b :: blocks' =>
      (cursor, b) :: blockWrites (cursor + Z.of_nat (length b)) blocks'
  end.

(** Writes made one after the other, by whichever workers; [None] when one
    of them fails. *)
Fixpoint applyWrites (may_write : Z -> nat -> bool) (ws : list (Z * list byte))
    (f : list byte) : option (list byte) :=
  match ws with
  | [] => Some f
  | (off, b) :: ws' =>
      match file_WriteAt may_write f b off with
      | Some f' => applyWrites may_write ws' f'
      | None => None
      end
  end.

(** A write that lies inside a file of the length of [content] and puts
    there the bytes that [content] has at that place. *)
Definition right_write (content : list byte) (w : Z * list byte) : Prop :=
  0 <= w.1 /\
  w.1 + Z.of_nat (length w.2) <= Z.of_nat (length content) /\
  forall j : nat, (j < length w.2)%nat ->
    w.2 !! j = content !! (Z.to_nat w.1 + j)%nat.

(** ** Sample data for the further examples *)

Definition disk_always : Z -> nat -> bool := fun _ _ => true.

(** A body of three bytes that arrives in two blocks. *)
Definition three_byte_reads : list readResult :=
  [mkRead [x01; x02] false; mkRead [x03] false; mkRead [] true].

(** The 4097 bytes that a mirror sends for the Range header "bytes=0-4096"
    of a chunk of 4096 bytes, as [io.ReadFull] cuts them: a full block, one
    byte, the end. *)
Definition block_and_a_byte : list (list byte) := [replicate 4096 x00; [x00]].

Definition one_chunk_of_4096 : MultiDownloader :=
  set_chunks (set_fileLength (NewMultiDownloader ["http://m1/f"%string] 1 0) 4096)
    [mkChunk 0 4096].

(** Two mirrors of which only the second answers; one chunk. *)
Definition second_mirror_only : string -> string -> option (list readResult) :=
  fun u _ => if String.eqb u "http://m2/f" then Some three_byte_reads else None.

Definition one_chunk_two_mirrors : MultiDownloader :=
  set_chunks (NewMultiDownloader ["http://m1/f"; "http://m2/f"]%string 1 0)
    [mkChunk 0 2].

(** A file of five bytes in two chunks, [0, 3) and [3, 5), and the two
    responses to the requests for bytes 0-3 and 3-5, the second chunk being
    copied first. *)
Definition five_bytes : list byte := [x0a; x0b; x0c; x0d; x0e].

Definition five_byte_downloader : MultiDownloader :=
  set_fileLength (NewMultiDownloader ["http://m1/f"%string] 2 0) 5.

Definition five_byte_jobs : list (Chunk * list readResult) :=
  [(mkChunk 3 5, [mkRead [x0d; x0e] false; mkRead [] true]);
   (mkChunk 0 3, [mkRead [x0a; x0b] false; mkRead [x0c; x0d] false; mkRead [] true])].

(** Two chunks of 4096 bytes; the snapshots of the first one when its
    response carries byte 4096 as well: a full block, then one byte. *)
Definition two_chunk_table : list ConnectionProgress :=
  [Progress.mk 0 0 4096 0; Progress.mk 1 4096 8192 4096].

Definition first_chunk_snapshots : list ConnectionProgress :=
  [Progress.mk 0 0 4096 4096; Progress.mk 0 0 4096 4097].

(** Two workers: both take a token, the first fails, the second succeeds,
    the first takes the token given back and fails again. *)
Definition sample_steps : list action :=
  [TakesToken 0; TakesToken 1; SendsOnFailed 0; SendsOnDone 1;
   TakesToken 0; SendsOnFailed 0].

Definition sample_session_midway : session :=
  mkSession 0 [Waiting; Running] 2 1 Looping.

Definition sample_session_end : session :=
  mkSession 0 [Waiting; Finished] 1 2 Aborted.

(** The same two responses as blocks, and their three writes with the
    write of the second worker coming between those of the first. *)
Definition five_byte_blocks : list (Chunk * list (list byte)) :=
  [(mkChunk 0 3, [[x0a; x0b]; [x0c; x0d]]); (mkChunk 3 5, [[x0d; x0e]])].

Definition five_byte_trace : list (Z * list byte) :=
  [(0, [x0a; x0b]); (3, [x0d; x0e]); (2, [x0c; x0d])].
(** * Properties *)

(** ** Facts about [int64] arithmetic *)

Lemma wrap64_small (z : Z) : in_int64 z -> wrap64 z = z.
Proof.
  unfold in_int64, wrap64, two64, two63. intros Hz.
  rewrite Z.mod_small by lia. lia.
Qed.

Lemma wrap64_in_int64 (z : Z) : in_int64 (wrap64 z).
Proof.
  unfold in_int64, wrap64, two64, two63.
  pose proof (Z.mod_pos_bound (z + 2 ^ 63) (2 ^ 64)). lia.
Qed.

(** ** The chunk table in closed form *)

Lemma store_Chunk_middle (filled rest : list Chunk) (c0 c : Chunk) :
  store_Chunk (filled ++ c0 :: rest) (Z.of_nat (length filled)) c
  = Some ((filled ++ [c]) ++ rest).
Proof.
  unfold store_Chunk.
  rewrite length_app. cbn [length].
  replace (0 <=? Z.of_nat (length filled)) with true by (symmetry; apply Z.leb_le; lia).
  replace (Z.of_nat (length filled) <? Z.of_nat (length filled + S (length rest))) with true
    by (symmetry; apply Z.ltb_lt; lia).
  cbn [andb]. rewrite Nat2Z.id. f_equal.
  rewrite <- (Nat.add_0_r (length filled)) at 1.
  rewrite insert_app_r. cbn. by rewrite <- app_assoc.
Qed.

(** Loop invariant: after [length filled] iterations the first entries of the
    table are final, the rest is still zero, and the loop variables are the
    closed-form boundaries.  [nextBoundary] is kept under [wrap64] because
    its last value, computed after the final chunk, may exceed the range. *)
Lemma buildChunks_loop_spec (q r n : Z) :
  0 <= q -> 0 <= r -> n * q + r < two63 -> n < two63 ->
  forall (fuel : nat) (filled rest : list Chunk),
    Z.of_nat (length filled + fuel) = n ->
    length rest = fuel ->
    buildChunks_loop fuel n q
      (Z.of_nat (length filled))
      (r - Z.min (Z.of_nat (length filled)) r)
      (Z.of_nat (length filled) * q + Z.min (Z.of_nat (length filled)) r)
      (wrap64 (Z.of_nat (length filled) * q + Z.min (Z.of_nat (length filled)) r + q))
      (filled ++ rest)
    = (filled ++ map (chunkAt q r) (seq (length filled) fuel), Ok tt).
Proof.
  intros Hq Hr Hn Hn' fuel.
  induction fuel as [|fuel IH]; intros filled rest Hlen Hrest.
  - destruct rest; [|discriminate]. cbn [buildChunks_loop seq map].
    replace (Z.of_nat (length filled) <? n) with false
      by (symmetry; apply Z.ltb_ge; lia).
    reflexivity.
  - destruct rest as [|c0 rest]; [discriminate|].
    injection Hrest as Hrest.
    set (k := Z.of_nat (length filled)) in *.
    assert (Hk : 0 <= k < n) by lia.
    assert (Hb : 0 <= k * q + Z.min k r /\ (k + 1) * q + Z.min (k + 1) r <= n * q + r) by nia.
    cbn [buildChunks_loop].
    replace (k <? n) with true by (symmetry; apply Z.ltb_lt; lia).
    cbn [negb].
    rewrite (wrap64_small (k * q + Z.min k r + q))
      by (unfold in_int64, two63 in *; lia).
    assert (Hnb : (if 0 <? r - Z.min k r
                   then wrap64 (k * q + Z.min k r + q + 1)
                   else k * q + Z.min k r + q)
                  = (k + 1) * q + Z.min (k + 1) r).
    { destruct (Z.ltb_spec 0 (r - Z.min k r)).
      - rewrite wrap64_small by (unfold in_int64, two63 in *; lia). lia.
      - lia. }
    assert (Hrm : (if 0 <? r - Z.min k r
                   then wrap64 (r - Z.min k r - 1)
                   else r - Z.min k r)
                  = r - Z.min (k + 1) r).
    { destruct (Z.ltb_spec 0 (r - Z.min k r)).
      - rewrite wrap64_small by (unfold in_int64, two63 in *; lia). lia.
      - lia. }
    rewrite Hnb, Hrm.
    subst k. rewrite store_Chunk_middle.
    rewrite (wrap64_small (Z.of_nat (length filled) + 1))
      by (unfold in_int64, two63 in *; lia).
    specialize (IH (filled ++ [mkChunk
       (Z.of_nat (length filled) * q + Z.min (Z.of_nat (length filled)) r)
       ((Z.of_nat (length filled) + 1) * q + Z.min (Z.of_nat (length filled) + 1) r)])
       rest).
    rewrite length_app in IH. cbn [length] in IH.
    replace (Z.of_nat (length filled + 1)) with (Z.of_nat (length filled) + 1) in IH by lia.
    rewrite IH by lia.
    rewrite <- app_assoc. cbn [app seq map].
    replace (length filled + 1)%nat with (S (length filled)) by lia.
    reflexivity.
Qed.

Lemma chunkTable_length (q r : Z) (n : nat) : length (chunkTable q r n) = n.
Proof. unfold chunkTable. by rewrite length_map, length_seq. Qed.

Lemma chunkTable_lookup (q r : Z) (n i : nat) (c : Chunk) :
  chunkTable q r n !! i = Some c -> (i < n)%nat /\ c = chunkAt q r i.
Proof.
  unfold chunkTable. intros H.
  rewrite list_lookup_fmap in H.
  destruct (seq 0 n !! i) as [k|] eqn:Hk; [|discriminate].
  apply lookup_seq in Hk as [-> Hi]. cbn in H. split; [done | congruence].
Qed.

Lemma chunkTable_lookup_lt (q r : Z) (n i : nat) :
  (i < n)%nat -> chunkTable q r n !! i = Some (chunkAt q r i).
Proof.
  intros Hi. unfold chunkTable. rewrite list_lookup_fmap.
  by rewrite (lookup_seq_lt 0 n i Hi).
Qed.

(** ** Slices made for [nConns] entries *)

(** [make] gives the slice exactly when the length is not negative, the
    bytes are within [maxAlloc] and the memory is there. *)
Lemma makeslice_cases {A : Type} (may_allocate : Z -> bool) (size : Z) (zero : A)
    (n : Z) :
  (n < 0 \/ maxAlloc < size * n) /\
    makeslice may_allocate size zero n = inl MakeSliceLenOutOfRange
  \/ (0 <= n /\ size * n <= maxAlloc /\ size * n <> 0 /\
      may_allocate (size * n) = false) /\
    makeslice may_allocate size zero n = inl OutOfMemory
  \/ (0 <= n /\ size * n <= maxAlloc /\
      (size * n = 0 \/ may_allocate (size * n) = true)) /\
    makeslice may_allocate size zero n = inr (replicate (Z.to_nat n) zero).
Proof.
  unfold makeslice.
  destruct (Z.ltb_spec n 0) as [Hneg|Hpos]; cbn [orb]; [left; split; [lia | done]|].
  destruct (Z.ltb_spec maxAlloc (size * n)) as [Hbig|Hfit];
    [left; split; [lia | done]|].
  right.
  destruct (Z.eqb_spec (size * n) 0) as [Hz|Hnz]; cbn [orb];
    [right; split; [lia | done]|].
  destruct (may_allocate (size * n)) eqn:Hmem;
    [right; split; [split_and!; (lia || by right) | done]
    | left; split; [done | done]].
Qed.

Lemma makeslice_fits {A : Type} (may_allocate : Z -> bool) (size : Z) (zero : A)
    (n : Z) :
  0 <= n -> size * n <= maxAlloc -> may_allocate (size * n) = true ->
  makeslice may_allocate size zero n = inr (replicate (Z.to_nat n) zero).
Proof.
  intros Hn Hfit Hmem.
  destruct (makeslice_cases may_allocate size zero n)
    as [[Hc _]|[[Hc _]|[_ Hm]]]; [lia | | done].
  destruct Hc as (_ & _ & _ & Hc). congruence.
Qed.

(** A slice that [make] can be asked for has fewer than [2^63] entries. *)
Lemma fits_in_int64 (n : Z) : sizeof_Chunk * n <= maxAlloc -> n < two63.
Proof. unfold sizeof_Chunk, maxAlloc, two63. lia. Qed.

(** On a non-negative length and a positive worker count for which the
    table can be made, [buildChunks] returns normally with the closed-form
    table. *)
Lemma buildChunks_closed_form (may_allocate : Z -> bool) (dldr : MultiDownloader) :
  0 <= fileLength dldr < two63 ->
  1 <= nConns dldr ->
  sizeof_Chunk * nConns dldr <= maxAlloc ->
  may_allocate (sizeof_Chunk * nConns dldr) = true ->
  buildChunks may_allocate dldr
  = (set_chunks dldr
       (chunkTable (fileLength dldr / nConns dldr)
          (fileLength dldr mod nConns dldr) (Z.to_nat (nConns dldr))),
     Ok tt).
Proof.
  intros Hfl Hn1 Hfit Hmem.
  assert (Hn : 1 <= nConns dldr < two63)
    by (split; [done | by apply fits_in_int64]).
  unfold buildChunks.
  set (fl := fileLength dldr) in *. set (n := nConns dldr) in *.
  pose proof (Z.mod_pos_bound fl n ltac:(lia)) as Hr.
  pose proof (Z.div_mod fl n ltac:(lia)) as Hdm.
  assert (Hq : 0 <= fl / n) by (apply Z.div_pos; lia).
  rewrite (wrap64_small n) by (unfold in_int64, two63 in *; lia).
  replace (n =? 0) with false by (symmetry; apply Z.eqb_neq; lia).
  rewrite Z.rem_mod_nonneg by lia.
  rewrite (wrap64_small (fl - fl mod n)) by (unfold in_int64, two63 in *; lia).
  rewrite Z.quot_div_nonneg by lia.
  replace ((fl - fl mod n) / n) with (fl / n)
    by (replace (fl - fl mod n) with (fl / n * n) by lia;
        rewrite Z.div_mul by lia; reflexivity).
  rewrite (wrap64_small (fl / n)) by (unfold in_int64, two63 in *; nia).
  unfold make_Chunks. rewrite makeslice_fits by (done || lia).
  pose proof (buildChunks_loop_spec (fl / n) (fl mod n) n Hq (proj1 Hr)
                ltac:(lia) ltac:(lia) (Z.to_nat n) []
                (replicate (Z.to_nat n) (mkChunk 0 0))) as Hloop.
  cbn [length app] in Hloop. change (Z.of_nat 0) with 0 in Hloop.
  rewrite Z.min_l in Hloop by lia.
  rewrite Z.sub_0_r, Z.mul_0_l, !Z.add_0_l in Hloop.
  rewrite (wrap64_small (fl / n)) in Hloop by (unfold in_int64, two63 in *; nia).
  rewrite Hloop; [reflexivity | lia | apply length_replicate].
Qed.




Example buildChunks_10_3 :
  buildChunks (memory_of one_GiB)
    (set_fileLength (NewMultiDownloader ["u"%string] 3 0) 10)
  = (set_chunks (set_fileLength (NewMultiDownloader ["u"%string] 3 0) 10)
       [mkChunk 0 4; mkChunk 4 7; mkChunk 7 10], Ok tt).
Proof. reflexivity. Qed.

(** At the top of the range the value [nextBoundary] computed after the
    last chunk wraps around; it is never stored. *)
Example buildChunks_largest_file :
  (buildChunks (memory_of one_GiB)
     (set_fileLength (NewMultiDownloader ["u"%string] 1 0) (two63 - 1))).1
  = set_chunks (set_fileLength (NewMultiDownloader ["u"%string] 1 0) (two63 - 1))
      [mkChunk 0 (two63 - 1)].
Proof. reflexivity. Qed.

(** A table of [2^45] chunks would take [2^49] bytes: [make] panics, and
    the downloader keeps the table it had.  A table of [2^30] chunks is
    within the limit of [make], but takes more than the gibibyte that this
    run-time system has. *)
Example buildChunks_beyond_maxAlloc :
  buildChunks memory_unbounded too_many_workers
  = (too_many_workers, Panic MakeSliceLenOutOfRange).
Proof. reflexivity. Qed.

Example buildChunks_beyond_memory :
  buildChunks (memory_of one_GiB)
    (set_fileLength (NewMultiDownloader ["u"%string] (2 ^ 30) 0) 10)
  = (set_fileLength (NewMultiDownloader ["u"%string] (2 ^ 30) 0) 10,
     Panic OutOfMemory).
Proof. reflexivity. Qed.

(** ** The coordinator loop *)

Lemma count_done_app (a b : list event) :
  count_done (a ++ b) = count_done a + count_done b.
Proof. induction a as [|[] a IH]; cbn [app count_done]; lia. Qed.

Lemma count_failed_app (a b : list event) :
  count_failed (a ++ b) = count_failed a + count_failed b.
Proof. induction a as [|[] a IH]; cbn [app count_failed]; lia. Qed.

Lemma count_done_nonneg (a : list event) : 0 <= count_done a.
Proof. induction a as [|[] a IH]; cbn [count_done]; lia. Qed.

Lemma count_failed_nonneg (a : list event) : 0 <= count_failed a.
Proof. induction a as [|[] a IH]; cbn [count_failed]; lia. Qed.

Lemma Download_loop_cases (N : Z) (events : list event) :
  N < two63 ->
  forall remaining fc,
    0 <= remaining < two63 -> 0 <= fc < N ->
    (Download_loop N remaining fc events = Ok tt /\ ends_renaming N remaining fc events)
    \/ (Download_loop N remaining fc events = Err ErrAllSourcesFailed
        /\ ends_aborting N remaining fc events)
    \/ (Download_loop N remaining fc events = Blocked
        /\ keeps_waiting N remaining fc events).
Proof.
  intros HN.
  induction events as [|e events IH]; intros remaining fc Hrem Hfc.
  - cbn [Download_loop]. destruct (Z.ltb_spec 0 remaining); cbn [negb].
    + right. right. split; [reflexivity|]. split; cbn; lia.
    + left. split; [reflexivity|]. exists [], []. cbn. split_and!; [done | lia | lia].
  - cbn [Download_loop]. destruct (Z.ltb_spec 0 remaining); cbn [negb].
    2:{ left. split; [reflexivity|]. exists [], (e :: events).
        cbn. split_and!; [done | lia | lia]. }
    destruct e.
    + rewrite wrap64_small by (unfold in_int64, two63 in *; lia).
      destruct (IH (remaining - 1) fc ltac:(lia) ltac:(lia))
        as [[-> (pre & post & -> & Hd & Hf)]
           |[[-> (pre & post & -> & Hf & Hd)]
            |[-> [Hd Hf]]]].
      * left. split; [reflexivity|]. exists (done :: pre), post.
        cbn [app count_done count_failed]. split_and!; [done | lia | lia].
      * right. left. split; [reflexivity|]. exists (done :: pre), post.
        cbn [app count_done count_failed]. split_and!; [done | lia | lia].
      * right. right. split; [reflexivity|].
        split; cbn [count_done count_failed]; lia.
    + rewrite wrap64_small by (unfold in_int64, two63 in *; lia).
      destruct (Z.leb_spec N (fc + 1)).
      * right. left. split; [reflexivity|]. exists [], events.
        cbn [app count_done count_failed]. split_and!; [done | lia | lia].
      * destruct (IH remaining (fc + 1) ltac:(lia) ltac:(lia))
          as [[-> (pre & post & -> & Hd & Hf)]
             |[[-> (pre & post & -> & Hf & Hd)]
              |[-> [Hd Hf]]]].
        -- left. split; [reflexivity|]. exists (failed :: pre), post.
           cbn [app count_done count_failed]. split_and!; [done | lia | lia].
        -- right. left. split; [reflexivity|]. exists (failed :: pre), post.
           cbn [app count_done count_failed]. split_and!; [done | lia | lia].
        -- right. right. split; [reflexivity|].
           split; cbn [count_done count_failed]; lia.
Qed.

(** The three shapes exclude one another. *)
Lemma renaming_not_aborting (N remaining fc : Z) (events : list event) :
  ends_renaming N remaining fc events -> ends_aborting N remaining fc events -> False.
Proof.
  intros (p1 & q1 & E1 & Hd1 & Hf1) (p2 & q2 & E2 & Hf2 & Hd2).
  rewrite E1 in E2. apply app_eq_app in E2 as [l [[-> Hq]|[-> Hq]]].
  - destruct l as [|e l].
    + rewrite app_nil_r in *. lia.
    + cbn [app] in Hq. injection Hq as He Hq. subst e q2.
      rewrite count_failed_app in Hf1. cbn [count_failed] in Hf1.
      pose proof (count_failed_nonneg l). lia.
  - rewrite count_done_app in Hd2. pose proof (count_done_nonneg l). lia.
Qed.

Lemma renaming_not_waiting (N remaining fc : Z) (events : list event) :
  ends_renaming N remaining fc events -> keeps_waiting N remaining fc events -> False.
Proof.
  intros (p & q & -> & Hd & Hf) [Hd' Hf'].
  rewrite count_done_app in Hd'. pose proof (count_done_nonneg q). lia.
Qed.

Lemma aborting_not_waiting (N remaining fc : Z) (events : list event) :
  ends_aborting N remaining fc events -> keeps_waiting N remaining fc events -> False.
Proof.
  intros (p & q & -> & Hf & Hd) [Hd' Hf'].
  rewrite count_failed_app in Hf'. cbn [count_failed] in Hf'.
  pose proof (count_failed_nonneg q). lia.
Qed.

(** C4.  With worker count [N = nConns >= 1], whatever the sequence of
    [done] and [failed] events: the coordinator returns the "couldn't be
    downloaded from any source" error exactly when the events contain an
    [N]-th failure that comes before the [N]-th [done] (the count is over all
    chunks together); it never returns that error while fewer than [N]
    failures have arrived; it leaves the loop normally, towards the rename,
    exactly when [N] [done] events arrive with fewer than [N] failures before
    them; otherwise it is still waiting for an event. *)
Theorem Download_coordinator_budget (dldr : MultiDownloader) (events : list event) :
  1 <= nConns dldr < two63 ->
  let N := nConns dldr in
  (Download_coordinator dldr events = Err ErrAllSourcesFailed <->
     exists pre post, events = pre ++ failed :: post /\
       count_failed pre = N - 1 /\ count_done pre < N) /\
  (count_failed events < N ->
     Download_coordinator dldr events <> Err ErrAllSourcesFailed) /\
  (Download_coordinator dldr events = Ok tt <->
     exists pre post, events = pre ++ post /\
       count_done pre = N /\ count_failed pre < N) /\
  (Download_coordinator dldr events = Blocked <->
     count_done events < N /\ count_failed events < N).
Proof.
  intros HN N. unfold Download_coordinator. fold N.
  assert (Hab : ends_aborting N N 0 events <->
                exists pre post, events = pre ++ failed :: post /\
                  count_failed pre = N - 1 /\ count_done pre < N).
  { unfold ends_aborting. split; intros (p & q & E & A & B); exists p, q;
      split_and!; (done || lia). }
  assert (Hre : ends_renaming N N 0 events <->
                exists pre post, events = pre ++ post /\
                  count_done pre = N /\ count_failed pre < N).
  { unfold ends_renaming. split; intros (p & q & E & A & B); exists p, q;
      split_and!; (done || lia). }
  assert (Hwa : keeps_waiting N N 0 events <->
                count_done events < N /\ count_failed events < N).
  { unfold keeps_waiting. lia. }
  rewrite <- Hab, <- Hre, <- Hwa.
  pose proof (renaming_not_aborting N N 0 events) as X1.
  pose proof (renaming_not_waiting N N 0 events) as X2.
  pose proof (aborting_not_waiting N N 0 events) as X3.
  destruct (Download_loop_cases N events ltac:(lia) N 0 ltac:(lia) ltac:(lia))
    as [[-> Hc]|[[-> Hc]|[-> Hc]]].
  - split_and!; [split; [discriminate | tauto] | discriminate
                | tauto | split; [discriminate | tauto]].
  - split_and!; [tauto | | split; [discriminate | tauto]
                | split; [discriminate | tauto]].
    intros Hlt. exfalso. destruct Hc as (p & q & -> & Hf & _).
    rewrite count_failed_app in Hlt. cbn [count_failed] in Hlt.
    pose proof (count_failed_nonneg q). lia.
  - split_and!; [split; [discriminate | tauto] | discriminate
                | split; [discriminate | tauto] | tauto].
Qed.

Lemma Download_coordinator_budget_witness :
  Download_coordinator (NewMultiDownloader ["http://a/f"%string] 3 0)
    [failed; done; failed; failed; done] = Err ErrAllSourcesFailed.
Proof.
  apply (Download_coordinator_budget
           (NewMultiDownloader ["http://a/f"%string] 3 0)
           [failed; done; failed; failed; done]).
  - cbn. unfold two63. lia.
  - exists [failed; done; failed], [done]. cbn. split_and!; [reflexivity | lia | lia].
Defined.

(** ** Strings and the tag step *)

Lemma append_String (c : ascii) (a b : string) :
  String c a +:+ b = String c (a +:+ b).
Proof. reflexivity. Qed.

Lemma append_Empty (b : string) : EmptyString +:+ b = b.
Proof. reflexivity. Qed.

Lemma string_length_app (a b : string) :
  String.length (a +:+ b) = (String.length a + String.length b)%nat.
Proof.
  induction a as [|c a IH]; [done|].
  rewrite append_String. cbn [String.length]. by rewrite IH.
Qed.

Lemma string_to_app (a b : string) : string_to (String.length a) (a +:+ b) = a.
Proof.
  induction a as [|c a IH]; [by destruct b|].
  rewrite append_String. cbn [String.length string_to]. by rewrite IH.
Qed.

Lemma string_from_app (a b : string) : string_from (String.length a) (a +:+ b) = b.
Proof.
  induction a as [|c a IH]; [done|].
  rewrite append_String. cbn [String.length string_from]. done.
Qed.

Lemma len_zero (s : string) : (len s =? 0) = true <-> s = EmptyString.
Proof.
  unfold len. destruct s as [|a s]; cbn [String.length].
  - done.
  - split; [|done]. intros Hz. apply Z.eqb_eq in Hz. lia.
Qed.

(** Every string is empty, a single byte, or a first byte, a middle and a
    last byte. *)
Lemma string_shape (s : string) :
  s = EmptyString \/ (exists a, s = String a EmptyString)
  \/ (exists a mid b, s = String a (mid +:+ String b EmptyString)).
Proof.
  destruct s as [|a s]; [by left|]. right.
  revert a. induction s as [|b s IH]; intros a; [left; by exists a|].
  right. destruct (IH b) as [(c & [= <- ->])|(c & mid & d & [= <- ->])].
  - exists a, EmptyString, b. reflexivity.
  - exists a, (String b mid), d. reflexivity.
Qed.

Lemma storeETag_empty (dldr : MultiDownloader) :
  storeETag dldr EmptyString = Some dldr.
Proof. reflexivity. Qed.

Lemma storeETag_single (dldr : MultiDownloader) (a : ascii) :
  storeETag dldr (String a EmptyString) = None.
Proof. reflexivity. Qed.

Lemma storeETag_strip (dldr : MultiDownloader) (a b : ascii) (mid : string) :
  storeETag dldr (String a (mid +:+ String b EmptyString))
  = Some (set_ETag dldr mid).
Proof.
  unfold storeETag, slice_string, len. cbn [String.eqb negb String.length].
  rewrite string_length_app. cbn [String.length].
  replace (0 <=? 1) with true by reflexivity.
  replace (1 <=? Z.of_nat (S (String.length mid + 1)) - 1) with true
    by (symmetry; apply Z.leb_le; lia).
  replace (Z.of_nat (S (String.length mid + 1)) - 1
           <=? Z.of_nat (S (String.length mid + 1))) with true
    by (symmetry; apply Z.leb_le; lia).
  cbn [andb].
  replace (Z.to_nat (Z.of_nat (S (String.length mid + 1)) - 1 - 1))
    with (String.length mid) by lia.
  change (Z.to_nat 1) with 1%nat. cbn [string_from].
  by rewrite string_to_app.
Qed.

Lemma storeETag_is_Some (dldr : MultiDownloader) (tag : string) :
  String.length tag <> 1%nat -> exists t, storeETag dldr tag = Some t /\
    fileLength t = fileLength dldr /\ nConns t = nConns dldr /\
    urls t = urls dldr.
Proof.
  intros Hl. destruct (string_shape tag) as [->|[(a & ->)|(a & mid & b & ->)]].
  - exists dldr. by rewrite storeETag_empty.
  - done.
  - exists (set_ETag dldr mid). by rewrite storeETag_strip.
Qed.

(** The claim of C3 as the specification words it does not hold of the
    code: the tag [abc], which carries no quotes, is stored as [b]. *)
Lemma tag_step_not_as_specified : ~ tag_step_as_specified.
Proof.
  intros Hclaim.
  destruct (Hclaim (NewMultiDownloader [] 1 0) "abc"%string)
    as (d' & Hs & _ & Hkeep).
  injection Hs as <-.
  specialize (Hkeep ltac:(intros t; unfold quoted; intros [= ? ?]; done)).
  discriminate Hkeep.
Qed.

(** The same step on a one-byte tag panics. *)
Example storeETag_one_byte_panics :
  storeETag (NewMultiDownloader [] 1 0) "W" = None.
Proof. reflexivity. Qed.

(** A weak validator, [W/] before the quoted tag, loses its [W] and its
    closing quote. *)
Example storeETag_weak_validator :
  storeETag (NewMultiDownloader [] 1 0) (String "W" (String "/" (quoted "abc")))
  = Some (set_ETag (NewMultiDownloader [] 1 0) (String "/" (String dquote "abc"))).
Proof. reflexivity. Qed.

(** The step panics on the tags of one byte and on no other. *)
Lemma storeETag_None (dldr : MultiDownloader) (tag : string) :
  storeETag dldr tag = None <-> String.length tag = 1%nat.
Proof.
  destruct (string_shape tag) as [->|[(a & ->)|(a & mid & b & ->)]].
  - by rewrite storeETag_empty.
  - by rewrite storeETag_single.
  - rewrite storeETag_strip. cbn [String.length]. rewrite string_length_app.
    cbn [String.length]. split; [done | lia].
Qed.

(** ** Paths *)

Lemma LastIndexByte_bound (s : string) (c : ascii) :
  -1 <= LastIndexByte s c < len s.
Proof.
  unfold len. induction s as [|a s IH]; cbn [LastIndexByte String.length]; [lia|].
  destruct (Z.leb_spec 0 (LastIndexByte s c)); [lia|].
  destruct (Ascii.eqb a c); lia.
Qed.

Lemma LastIndexByte_last_slash (dir file : string) :
  LastIndexByte file "/" = -1 ->
  LastIndexByte (dir +:+ String "/" file) "/" = len dir.
Proof.
  intros Hf. unfold len. induction dir as [|a dir IH].
  - rewrite append_Empty. cbn [LastIndexByte String.length]. by rewrite Hf.
  - rewrite append_String. cbn [LastIndexByte String.length]. rewrite IH.
    replace (0 <=? Z.of_nat (String.length dir)) with true
      by (symmetry; apply Z.leb_le; lia).
    lia.
Qed.

Lemma append_String_assoc (a b : string) (c : ascii) :
  a +:+ String c b = (a +:+ String c EmptyString) +:+ b.
Proof.
  induction a as [|x a IH]; [done|].
  rewrite !append_String. by rewrite IH.
Qed.

(** [path.Split] cuts after the last slash. *)
Lemma path_Split_last_slash (dir file : string) :
  LastIndexByte file "/" = -1 ->
  path_Split (dir +:+ String "/" file) = (dir +:+ "/", file).
Proof.
  intros Hf. unfold path_Split. rewrite (LastIndexByte_last_slash _ _ Hf).
  unfold len.
  replace (Z.to_nat (Z.of_nat (String.length dir) + 1))
    with (String.length (dir +:+ "/"))
    by (rewrite string_length_app; cbn [String.length]; lia).
  rewrite (append_String_assoc dir file "/").
  by rewrite string_to_app, string_from_app.
Qed.

(** The file part never contains a slash. *)
Lemma string_from_LastIndexByte (s : string) (c : ascii) :
  LastIndexByte (string_from (Z.to_nat (LastIndexByte s c + 1)) s) c = -1.
Proof.
  induction s as [|a s IH]; [reflexivity|].
  cbn [LastIndexByte].
  pose proof (LastIndexByte_bound s c) as Hb.
  destruct (Z.leb_spec 0 (LastIndexByte s c)) as [Hj|Hj].
  - replace (Z.to_nat (LastIndexByte s c + 1 + 1))
      with (S (Z.to_nat (LastIndexByte s c + 1))) by lia.
    cbn [string_from]. exact IH.
  - assert (Hm : LastIndexByte s c = -1) by lia.
    destruct (Ascii.eqb a c) eqn:Hac.
    + change (Z.to_nat (0 + 1)) with 1%nat. cbn [string_from]. exact Hm.
    + change (Z.to_nat (-1 + 1)) with 0%nat. cbn [string_from LastIndexByte].
      rewrite Hm, Hac. reflexivity.
Qed.

Lemma path_Split_snd_no_slash (path : string) :
  LastIndexByte (path_Split path).2 "/" = -1.
Proof. unfold path_Split. cbn [snd]. apply string_from_LastIndexByte. Qed.

(** ** The metadata probe *)

Lemma probe_ok_test (r : urlInfo) :
  negb (UrlInfo.connSuccess r) || negb (UrlInfo.statusCode r =? 200) = false
  <-> probe_ok r.
Proof.
  unfold probe_ok. destruct (UrlInfo.connSuccess r); cbn [negb orb].
  - destruct (Z.eqb_spec (UrlInfo.statusCode r) 200); cbn; split;
      (done || tauto || intros [_ ?]; done).
  - split; [done | intros [? _]; done].
Qed.

(** When every probe passes, the loop fills [resArray] with the results in
    their order of arrival. *)
Lemma gatherResults_all_ok (results : list urlInfo) :
  Forall probe_ok results ->
  gatherResults (length results) results = Ok results.
Proof.
  induction 1 as [|r rs Hr _ IH]; [reflexivity|].
  cbn [length gatherResults].
  apply probe_ok_test in Hr. rewrite Hr, IH. reflexivity.
Qed.

(** When some probe does not pass, the loop returns at the first such
    result, with its URL in the message. *)
Lemma gatherResults_some_bad (results : list urlInfo) :
  (exists r, r ∈ results /\ ~ probe_ok r) ->
  exists r, r ∈ results /\ ~ probe_ok r /\
    gatherResults (length results) results = Err (ErrFailedConnection (UrlInfo.url r)).
Proof.
  induction results as [|r rs IH]; intros (b & Hb & Hbad).
  - by apply elem_of_nil in Hb.
  - cbn [length gatherResults].
    destruct (negb (UrlInfo.connSuccess r) || negb (UrlInfo.statusCode r =? 200))
      eqn:Hr.
    + exists r. split_and!; [apply elem_of_cons; by left | | reflexivity].
      intros Hok. apply probe_ok_test in Hok. congruence.
    + apply probe_ok_test in Hr.
      apply elem_of_cons in Hb as [->|Hb]; [done|].
      destruct IH as (r' & Hin & Hbad' & ->); [by exists b|].
      exists r'. split_and!; [apply elem_of_cons; by right | done | reflexivity].
Qed.

Lemma sourcesAgree_true (L : Z) (E : string) (rs : list urlInfo) :
  sourcesAgree L E rs = true <-> Forall (agrees_with L E) rs.
Proof.
  induction rs as [|r rs IH]; cbn [sourcesAgree].
  - split; [constructor | done].
  - rewrite Forall_cons, <- IH. unfold agrees_with.
    destruct (Z.eqb_spec (UrlInfo.fileLength r) L) as [HL|HL]; cbn [negb orb].
    2:{ split; [done | intros [[? _] _]; done]. }
    destruct (len (UrlInfo.etag r) =? 0) eqn:Hz; cbn [negb andb].
    { apply len_zero in Hz. tauto. }
    destruct (String.eqb_spec (UrlInfo.etag r) E) as [HE|HE]; cbn [negb].
    { tauto. }
    split; [done|]. intros [[_ [He|He]] _]; [|done].
    apply len_zero in He. congruence.
Qed.

Section ProbeFacts.

Variable ParseInt : string -> option Z.
Variable url_Parse : string -> option URL.
Variable may_allocate : Z -> bool.

Lemma getHead_url (u : string) (resp : option Response) :
  UrlInfo.url (getHead ParseInt u resp) = u.
Proof. by destruct resp. Qed.

Lemma getHead_probe_ok (u : string) (resp : option Response) :
  probe_ok (getHead ParseInt u resp) <->
  exists r, resp = Some r /\ StatusCode r = 200.
Proof.
  unfold probe_ok. destruct resp as [r|]; cbn.
  - split; [intros [_ ?]; by exists r | intros (? & [= <-] & ?); done].
  - split; [intros [? _]; done | intros (? & ? & _); done].
Qed.

(** C5.  For a non-empty mirror list whose probes are answered by
    [responses] (one per mirror, [None] for a failed connection), in whatever
    order the results arrive: if some probe failed to connect or has a status
    other than 200, [GatherInfo] returns the error "Failed connection to URL
    u" for one of the mirrors [u], and the downloader is left exactly as it
    was (no length, tag, name or chunk is set), however many of the other
    mirrors answered well. *)
Theorem GatherInfo_single_bad_mirror
    (dldr : MultiDownloader) (responses : list (option Response))
    (results : list urlInfo) :
  urls dldr <> [] ->
  length responses = length (urls dldr) ->
  results ≡ₚ zip_with (getHead ParseInt) (urls dldr) responses ->
  (exists resp, resp ∈ responses /\
     (resp = None \/ exists r, resp = Some r /\ StatusCode r <> 200)) ->
  exists u, u ∈ urls dldr /\
    GatherInfo url_Parse may_allocate dldr results = (dldr, Err (ErrFailedConnection u)).
Proof.
  intros Hne Hlen Hperm (resp & Hin & Hbad).
  assert (Hrl : length results = length (urls dldr)).
  { rewrite (Permutation_length Hperm), length_zip_with. lia. }
  assert (Hfrom : forall r, r ∈ results ->
            exists u resp', u ∈ urls dldr /\ resp' ∈ responses /\
                            r = getHead ParseInt u resp').
  { intros r Hr. rewrite Hperm in Hr.
    apply list_elem_of_lookup in Hr as [i Hi].
    apply lookup_zip_with_Some in Hi as (u & resp' & -> & Hu & Hresp).
    exists u, resp'. split_and!; [| | done]; apply list_elem_of_lookup; eauto. }
  destruct (gatherResults_some_bad results) as (b & Hb & _ & Hg).
  { apply list_elem_of_lookup in Hin as [i Hi].
    destruct (lookup_lt_is_Some_2 (urls dldr) i) as [u Hu].
    { rewrite <- Hlen. by eapply lookup_lt_Some. }
    exists (getHead ParseInt u resp). split.
    - rewrite Hperm. apply list_elem_of_lookup. exists i.
      apply lookup_zip_with_Some. eauto.
    - rewrite getHead_probe_ok. intros (r & -> & Hs).
      destruct Hbad as [?|(r' & [= <-] & ?)]; done. }
  destruct (Hfrom b Hb) as (u & resp' & Hu & _ & ->).
  exists u. split; [done|].
  assert (Hz : (length (urls dldr) =? 0)%nat = false)
    by (destruct (urls dldr); done).
  unfold GatherInfo. rewrite Hz, <- Hrl, Hg, getHead_url. reflexivity.
Qed.

(** [GatherInfo] once every probe has passed: what is left is the
    agreement check on the results in their order of arrival. *)
Lemma GatherInfo_after_probes (dldr : MultiDownloader) (r0 : urlInfo)
    (rest : list urlInfo) :
  length (r0 :: rest) = length (urls dldr) ->
  Forall probe_ok (r0 :: rest) ->
  GatherInfo url_Parse may_allocate dldr (r0 :: rest)
  = if negb (sourcesAgree (UrlInfo.fileLength r0) (UrlInfo.etag r0) rest)
    then (dldr, Err ErrNotSameFile)
    else
      let d1 := set_fileLength dldr (UrlInfo.fileLength r0) in
      match storeETag d1 (UrlInfo.etag r0) with
      | None => (d1, Panic SliceBoundsOutOfRange)
      | Some d2 =>
          let d3 := set_filename d2 (urlToFilename url_Parse (UrlInfo.url r0)) in
          let d4 := set_partFilename d3 (filename d3 +:+ tmpFileSuffix) in
          match buildChunks may_allocate d4 with
          | (d5, Ok _) => (d5, Ok (chunks d5))
          | (d5, Err e) => (d5, Err e)
          | (d5, Panic p) => (d5, Panic p)
          | (d5, Blocked) => (d5, Blocked)
          | (d5, OutOfFuel) => (d5, OutOfFuel)
          end
      end.
Proof.
  intros Hlen Hok. unfold GatherInfo.
  rewrite <- Hlen, (gatherResults_all_ok _ Hok). reflexivity.
Qed.

(** C3 (what the code does).  The tag step is guarded by
    [commonEtag != ""] alone.  An empty tag leaves the downloader as it is,
    without any indexing.  A tag of one byte passes the guard, and the slice
    expression [commonEtag[1 : len(commonEtag)-1]] panics on its bounds
    [1:0]: the step panics exactly on the tags of one byte, and [GatherInfo]
    panics with it when all probes have passed and agree, the file length
    being assigned already.  A tag of two bytes or more is stored without
    its first and its last byte, whatever they are: a quoted tag without its
    quotes, the tag [abc], which has none, as [b]. *)
Theorem storeETag_guard_misses_one_byte (dldr : MultiDownloader) :
  storeETag dldr EmptyString = Some dldr /\
  (forall tag : string,
     storeETag dldr tag = None <-> String.length tag = 1%nat) /\
  (forall (r0 : urlInfo) (rest : list urlInfo),
     length (r0 :: rest) = length (urls dldr) ->
     Forall probe_ok (r0 :: rest) ->
     Forall (agrees_with (UrlInfo.fileLength r0) (UrlInfo.etag r0)) rest ->
     String.length (UrlInfo.etag r0) = 1%nat ->
     GatherInfo url_Parse may_allocate dldr (r0 :: rest)
     = (set_fileLength dldr (UrlInfo.fileLength r0),
        Panic SliceBoundsOutOfRange)) /\
  (forall (a b : ascii) (mid : string),
     storeETag dldr (String a (mid +:+ String b EmptyString))
     = Some (set_ETag dldr mid)) /\
  (forall t : string, storeETag dldr (quoted t) = Some (set_ETag dldr t)) /\
  storeETag dldr "abc" = Some (set_ETag dldr "b").
Proof.
  split_and!.
  - apply storeETag_empty.
  - apply storeETag_None.
  - intros r0 rest Hlen Hok Hag Htag.
    rewrite GatherInfo_after_probes by done.
    apply sourcesAgree_true in Hag. rewrite Hag. cbn [negb]. cbv zeta.
    apply (storeETag_None (set_fileLength dldr (UrlInfo.fileLength r0))) in Htag.
    by rewrite Htag.
  - apply storeETag_strip.
  - intros t. apply storeETag_strip.
  - reflexivity.
Qed.

(** C2 (what the code does).  When every probe has passed and the result
    that arrives first carries no tag while a later one carries a tag, the
    agreement check fails with "URLs must point to the same file", even if
    all lengths are equal and all the tags present are equal. *)
Theorem GatherInfo_empty_tag_first (dldr : MultiDownloader) (r0 : urlInfo)
    (rest : list urlInfo) :
  length (r0 :: rest) = length (urls dldr) ->
  Forall probe_ok (r0 :: rest) ->
  UrlInfo.etag r0 = EmptyString ->
  (exists r, r ∈ rest /\ UrlInfo.etag r <> EmptyString) ->
  GatherInfo url_Parse may_allocate dldr (r0 :: rest) = (dldr, Err ErrNotSameFile).
Proof.
  intros Hlen Hok He (r & Hr & Hne).
  rewrite GatherInfo_after_probes by done.
  destruct (sourcesAgree _ _ rest) eqn:Hag; [|reflexivity].
  apply sourcesAgree_true in Hag.
  rewrite Forall_forall in Hag. destruct (Hag r Hr) as [_ [?|?]]; congruence.
Qed.

Lemma chunkTable_zero (n : nat) : chunkTable 0 0 n = replicate n (mkChunk 0 0).
Proof.
  unfold chunkTable. generalize 0%nat as k.
  induction n as [|n IH]; intros k; cbn [seq map replicate]; [done|].
  rewrite IH. f_equal. unfold chunkAt. f_equal; lia.
Qed.

Lemma buildChunks_zero_nConns (dldr : MultiDownloader) :
  nConns dldr = 0 -> buildChunks may_allocate dldr = (dldr, Panic DivideByZero).
Proof. intros Hn. unfold buildChunks. rewrite Hn. reflexivity. Qed.

(** C9.  A probe that connects with status 200 and a Content-Length that
    [ParseInt] rejects (a missing header is the empty string) is reported as
    a successful probe of length 0.  Among probes that all passed, such a
    result makes [GatherInfo] fail with "URLs must point to the same file" as
    soon as another mirror reports a length other than 0; and when all
    mirrors report 0 (and the tags agree) [GatherInfo] succeeds with file
    length 0 and [nConns] empty chunks, for a worker count whose table can
    be made. *)
Theorem getHead_unparseable_length (u : string) (resp : Response) :
  StatusCode resp = 200 ->
  ParseInt (ContentLength resp) = None ->
  let r := getHead ParseInt u (Some resp) in
  probe_ok r /\ UrlInfo.fileLength r = 0 /\
  (forall (dldr : MultiDownloader) (results : list urlInfo),
     length results = length (urls dldr) ->
     Forall probe_ok results ->
     r ∈ results ->
     (exists r', r' ∈ results /\ UrlInfo.fileLength r' <> 0) ->
     GatherInfo url_Parse may_allocate dldr results = (dldr, Err ErrNotSameFile)) /\
  (forall (dldr : MultiDownloader) (r0 : urlInfo) (rest : list urlInfo),
     length (r0 :: rest) = length (urls dldr) ->
     Forall probe_ok (r0 :: rest) ->
     r ∈ r0 :: rest ->
     Forall (fun x => UrlInfo.fileLength x = 0) (r0 :: rest) ->
     Forall (fun x => UrlInfo.etag x = EmptyString
                      \/ UrlInfo.etag x = UrlInfo.etag r0) rest ->
     String.length (UrlInfo.etag r0) <> 1%nat ->
     1 <= nConns dldr ->
     sizeof_Chunk * nConns dldr <= maxAlloc ->
     may_allocate (sizeof_Chunk * nConns dldr) = true ->
     exists dldr',
       GatherInfo url_Parse may_allocate dldr (r0 :: rest) = (dldr', Ok (chunks dldr')) /\
       fileLength dldr' = 0 /\
       chunks dldr' = replicate (Z.to_nat (nConns dldr)) (mkChunk 0 0)).
Proof.
  intros Hst Hpi r.
  assert (Hlen0 : UrlInfo.fileLength r = 0).
  { subst r. unfold getHead. by rewrite Hpi. }
  split_and!.
  - subst r. apply getHead_probe_ok. by exists resp.
  - exact Hlen0.
  - intros dldr results Hlen Hok Hin (r' & Hin' & Hnz).
    destruct results as [|r0 rest]; [by apply elem_of_nil in Hin|].
    rewrite GatherInfo_after_probes by done.
    destruct (sourcesAgree _ _ rest) eqn:Hag; [|reflexivity].
    exfalso. apply sourcesAgree_true in Hag. rewrite Forall_forall in Hag.
    assert (Hall : forall x, x ∈ r0 :: rest ->
                     UrlInfo.fileLength x = UrlInfo.fileLength r0).
    { intros x Hx. apply elem_of_cons in Hx as [->|Hx]; [done|].
      by destruct (Hag x Hx). }
    rewrite (Hall r' Hin'), <- (Hall r Hin) in Hnz. done.
  - intros dldr r0 rest Hlen Hok _ Hzero Htags Htag Hn Hfit Hmem.
    rewrite GatherInfo_after_probes by done.
    apply Forall_cons in Hzero as [Hz0 Hzero].
    assert (Hag : sourcesAgree (UrlInfo.fileLength r0) (UrlInfo.etag r0) rest = true).
    { apply sourcesAgree_true. rewrite Forall_forall in *.
      intros x Hx. split; [rewrite Hz0; by apply Hzero | by apply Htags]. }
    rewrite Hag. cbn [negb]. cbv zeta.
    destruct (storeETag_is_Some (set_fileLength dldr (UrlInfo.fileLength r0))
                (UrlInfo.etag r0) Htag) as (t & -> & Hfl & Hnc & _).
    cbn [fileLength nConns set_fileLength] in Hfl, Hnc.
    rewrite buildChunks_closed_form; cbn [fileLength nConns set_filename set_partFilename];
      [| rewrite Hfl, Hz0; unfold two63; lia | by rewrite Hnc | by rewrite Hnc
       | by rewrite Hnc].
    eexists. split; [reflexivity|].
    cbn [fileLength chunks set_chunks set_filename set_partFilename].
    rewrite Hfl, Hz0, Hnc. split; [done|].
    rewrite Z.div_0_l, Z.mod_0_l by lia. apply chunkTable_zero.
Qed.

(** C10.  [GatherInfo] builds the chunk table itself: what it returns on
    success is the table that [buildChunks] has just stored, for the worker
    count of the downloader.  With [nConns = 0] it therefore never returns a
    table; when all probes have passed and agree, the call panics on the
    division by zero in [buildChunks], unless the common tag is a single
    byte, in which case it has panicked in the tag step before. *)
Theorem GatherInfo_needs_positive_nConns (dldr : MultiDownloader)
    (results : list urlInfo) :
  (forall dldr' cs,
     GatherInfo url_Parse may_allocate dldr results = (dldr', Ok cs) ->
     cs = chunks dldr' /\
     exists d0, nConns d0 = nConns dldr /\ buildChunks may_allocate d0 = (dldr', Ok tt)) /\
  (nConns dldr = 0 ->
     forall dldr' cs, GatherInfo url_Parse may_allocate dldr results <> (dldr', Ok cs)) /\
  (nConns dldr = 0 ->
     forall r0 rest,
       results = r0 :: rest ->
       length results = length (urls dldr) ->
       Forall probe_ok results ->
       Forall (agrees_with (UrlInfo.fileLength r0) (UrlInfo.etag r0)) rest ->
       String.length (UrlInfo.etag r0) <> 1%nat ->
       (GatherInfo url_Parse may_allocate dldr results).2 = Panic DivideByZero) /\
  (forall r0 rest,
     results = r0 :: rest ->
     length results = length (urls dldr) ->
     Forall probe_ok results ->
     Forall (agrees_with (UrlInfo.fileLength r0) (UrlInfo.etag r0)) rest ->
     String.length (UrlInfo.etag r0) = 1%nat ->
     (GatherInfo url_Parse may_allocate dldr results).2 = Panic SliceBoundsOutOfRange).
Proof.
  assert (Hbuilt : forall dldr' cs,
     GatherInfo url_Parse may_allocate dldr results = (dldr', Ok cs) ->
     cs = chunks dldr' /\
     exists d0, nConns d0 = nConns dldr /\ buildChunks may_allocate d0 = (dldr', Ok tt)).
  { intros dldr' cs. unfold GatherInfo.
    destruct (length (urls dldr) =? 0)%nat; [discriminate|].
    destruct (gatherResults _ results) as [[|r0 rest]| | | |]; try discriminate.
    destruct (negb _); [discriminate|].
    destruct (storeETag _ _) as [t|] eqn:Ht; [|discriminate].
    destruct (buildChunks may_allocate _) as [d5 [[]| | | |]] eqn:Hb; try discriminate.
    intros [= <- <-]. split; [reflexivity|].
    eexists. split; [|exact Hb].
    cbn [nConns set_partFilename set_filename].
    unfold storeETag in Ht. destruct (negb _) in Ht.
    - destruct (slice_string _ _ _) in Ht; [|discriminate].
      by injection Ht as <-.
    - by injection Ht as <-. }
  split_and!.
  - exact Hbuilt.
  - intros Hn dldr' cs Hg.
    destruct (Hbuilt dldr' cs Hg) as (_ & d0 & Hn0 & Hb).
    rewrite buildChunks_zero_nConns in Hb by congruence. discriminate.
  - intros Hn r0 rest -> Hlen Hok Hag Htag.
    rewrite GatherInfo_after_probes by done.
    apply sourcesAgree_true in Hag. rewrite Hag. cbn [negb]. cbv zeta.
    destruct (storeETag_is_Some (set_fileLength dldr (UrlInfo.fileLength r0))
                (UrlInfo.etag r0) Htag) as (t & -> & _ & Hnc & _).
    rewrite buildChunks_zero_nConns; [reflexivity|].
    cbn [nConns set_filename set_partFilename set_fileLength] in *. congruence.
  - intros r0 rest -> Hlen Hok Hag Htag.
    rewrite GatherInfo_after_probes by done.
    apply sourcesAgree_true in Hag. rewrite Hag. cbn [negb]. cbv zeta.
    destruct (string_shape (UrlInfo.etag r0)) as [E|[(a & E)|(a & mid & b & E)]];
      rewrite E in Htag |- *.
    + discriminate.
    + by rewrite storeETag_single.
    + cbn [String.length] in Htag. rewrite string_length_app in Htag.
      cbn [String.length] in Htag. lia.
Qed.

(** C7 (what the code does).  When [url.Parse] succeeds, the name is what
    follows the last slash of the path; for a path that ends in a slash, and
    for an empty path, that is the empty string.  The name "downloaded-file"
    is used when [url.Parse] reports an error. *)
Theorem urlToFilename_last_segment (urlStr : string) :
  (forall dir file,
     url_Parse urlStr = Some (mkURL (dir +:+ String "/" file)) ->
     LastIndexByte file "/" = -1 ->
     urlToFilename url_Parse urlStr = file) /\
  (forall dir,
     url_Parse urlStr = Some (mkURL (dir +:+ "/")) ->
     urlToFilename url_Parse urlStr = EmptyString) /\
  (url_Parse urlStr = Some (mkURL EmptyString) ->
     urlToFilename url_Parse urlStr = EmptyString) /\
  (url_Parse urlStr = None ->
     urlToFilename url_Parse urlStr = "downloaded-file"%string).
Proof.
  unfold urlToFilename. split_and!.
  - intros dir file -> Hf. cbn [Path]. by rewrite path_Split_last_slash.
  - intros dir ->. cbn [Path]. by rewrite path_Split_last_slash.
  - intros ->. reflexivity.
  - by intros ->.
Qed.

End ProbeFacts.

Lemma GatherInfo_empty_tag_first_witness :
  GatherInfo simple_url_Parse (memory_of one_GiB) three_mirrors untagged_first
  = (three_mirrors, Err ErrNotSameFile).
Proof.
  apply (GatherInfo_empty_tag_first simple_url_Parse (memory_of one_GiB) three_mirrors
           (UrlInfo.mk "http://m2/f" 100 EmptyString true 200)
           [UrlInfo.mk "http://m1/f" 100 (quoted "abc") true 200;
            UrlInfo.mk "http://m3/f" 100 (quoted "abc") true 200]).
  - reflexivity.
  - repeat constructor.
  - reflexivity.
  - exists (UrlInfo.mk "http://m1/f" 100 (quoted "abc") true 200).
    split; [apply list_elem_of_here | discriminate].
Defined.

Lemma storeETag_guard_misses_one_byte_witness :
  GatherInfo simple_url_Parse (memory_of one_GiB) one_mirror one_byte_tag
  = (set_fileLength one_mirror 100, Panic SliceBoundsOutOfRange).
Proof.
  destruct (storeETag_guard_misses_one_byte simple_url_Parse (memory_of one_GiB)
              one_mirror) as (_ & _ & Hpanic & _).
  apply (Hpanic (UrlInfo.mk "http://m1/f" 100 "W" true 200) []).
  - reflexivity.
  - repeat constructor.
  - constructor.
  - reflexivity.
Defined.

(** With the tagged mirror answering first the same three results are
    accepted, and the tag is stored without its quotes. *)
Example GatherInfo_tagged_first :
  GatherInfo simple_url_Parse (memory_of one_GiB) three_mirrors
    [UrlInfo.mk "http://m1/f" 100 (quoted "abc") true 200;
     UrlInfo.mk "http://m2/f" 100 EmptyString true 200;
     UrlInfo.mk "http://m3/f" 100 (quoted "abc") true 200]
  = (mkMultiDownloader ["http://m1/f"; "http://m2/f"; "http://m3/f"]%string 3 0
       100 "f" "f.part" "abc" [mkChunk 0 34; mkChunk 34 67; mkChunk 67 100],
     Ok [mkChunk 0 34; mkChunk 34 67; mkChunk 67 100]).
Proof. reflexivity. Qed.

(** ** The staging file *)

Section FileFacts.

Variable may_create : string -> bool.
Variable may_resize : Z -> bool.

Lemma SetupFile_refused (dldr : MultiDownloader) (fs : filesystem) :
  may_create (partFilename dldr) = false ->
  SetupFile may_create may_resize dldr fs EmptyString
  = (dldr, fs, Err (ErrCreate (partFilename dldr))).
Proof. intros Hc. unfold SetupFile, os_Create. cbn [String.eqb negb]. by rewrite Hc. Qed.

(** When the file is created but cannot be resized, the error of [Truncate]
    is lost: the call returns the metadata of an empty file and no error. *)
Lemma SetupFile_resize_error_dropped (dldr : MultiDownloader) (fs : filesystem) :
  may_create (partFilename dldr) = true ->
  fileLength dldr < 0 \/ may_resize (fileLength dldr) = false ->
  SetupFile may_create may_resize dldr fs EmptyString
  = (dldr, <[partFilename dldr := []]> fs, Ok (mkFileInfo 0)).
Proof.
  intros Hc Hr. unfold SetupFile, os_Create, file_Truncate, file_Stat.
  cbn [String.eqb negb]. rewrite Hc.
  replace ((fileLength dldr <? 0) || negb (may_resize (fileLength dldr))) with true.
  - by rewrite lookup_insert_eq.
  - symmetry. apply orb_true_iff. destruct Hr as [Hr| ->]; [left | by right].
    apply Z.ltb_lt. lia.
Qed.

(** C8.  Let [final] be the name given to [SetupFile], or the downloader's
    [filename] when the argument is empty (its [partFilename] then being
    [filename + ".part"], as [GatherInfo] leaves it).  When the environment
    lets the file be created and resized and the agreed length is not
    negative, [SetupFile] creates or overwrites the file named
    [final + ".part"], gives it exactly [fileLength] bytes (all zero: no
    chunk has been written), returns its metadata with that size, and leaves
    the downloader with [filename = final] and
    [partFilename = final + ".part"]. *)
Theorem SetupFile_presized_part (dldr : MultiDownloader) (fs : filesystem)
    (name : string) :
  let final := if String.eqb name EmptyString then filename dldr else name in
  (name = EmptyString -> partFilename dldr = filename dldr +:+ tmpFileSuffix) ->
  may_create (final +:+ ".part") = true ->
  may_resize (fileLength dldr) = true ->
  0 <= fileLength dldr ->
  exists dldr',
    SetupFile may_create may_resize dldr fs name
    = (dldr',
       <[final +:+ ".part" := replicate (Z.to_nat (fileLength dldr)) x00]> fs,
       Ok (mkFileInfo (fileLength dldr))) /\
    filename dldr' = final /\
    partFilename dldr' = final +:+ ".part" /\
    fileLength dldr' = fileLength dldr /\
    chunks dldr' = chunks dldr.
Proof.
  intros final Hinv Hcreate Hresize Hlen.
  set (dldr' := if negb (String.eqb name EmptyString)
                then set_partFilename (set_filename dldr name) (name +:+ tmpFileSuffix)
                else dldr).
  assert (Hd : filename dldr' = final /\ partFilename dldr' = final +:+ ".part" /\
               fileLength dldr' = fileLength dldr /\ chunks dldr' = chunks dldr).
  { subst dldr' final. destruct (String.eqb_spec name EmptyString) as [->|_];
      cbn [negb]; [|done]. split_and!; [done | by apply Hinv | done | done]. }
  destruct Hd as (Hf & Hp & Hl & Hc).
  exists dldr'. split; [|done].
  unfold SetupFile. fold dldr'. unfold os_Create. rewrite Hp, Hcreate.
  unfold file_Truncate, file_Stat. rewrite Hl, Hresize.
  replace (fileLength dldr <? 0) with false by (symmetry; apply Z.ltb_ge; lia).
  cbn [negb orb].
  rewrite lookup_insert_eq, insert_insert_eq, take_nil. cbn [length app].
  rewrite lookup_insert_eq. unfold default. cbn [from_option id].
  rewrite Nat.sub_0_r, length_replicate, Z2Nat.id by lia.
  reflexivity.
Qed.

End FileFacts.

(** ** Digest checks *)

Section DigestFacts.

Context {H : Type} `{HashStreaming H}.

(** The read loop feeds the whole content, block by block; the bound
    [length content] is never what stops it. *)
Lemma hashBlocks_all (fuel : nat) (h : H) (rest : list byte) :
  (length rest <= fuel)%nat ->
  hashBlocks fuel h rest = Ok (hash_Write h rest).
Proof.
  assert (HB : Z.to_nat fileReadChunk = 4096%nat) by reflexivity.
  revert h rest. induction fuel as [|fuel IH]; intros h rest Hlen.
  - destruct rest; [|cbn in Hlen; lia]. cbn. by rewrite hash_Write_nil.
  - cbn [hashBlocks]. rewrite HB.
    destruct (Nat.eqb_spec (length rest `min` 4096) 0) as [Hz|Hz].
    + destruct rest; [|cbn [length] in Hz; lia]. by rewrite hash_Write_nil.
    + rewrite IH by (rewrite length_drop; lia).
      by rewrite hash_Write_app, take_drop.
Qed.

(** What the shared body returns on a file that exists. *)
Lemma CheckDigest_result (what : string) (dldr : MultiDownloader)
    (fs : filesystem) (content : list byte) (expected : string) :
  fs !! filename dldr = Some content ->
  CheckDigest what dldr fs expected
  = if String.eqb (hexString (hash_Sum (hash_Write hash_New content))) expected
    then Ok tt
    else Err ("Computed " +:+ what +:+ " does not match: provided=" +:+ expected
                +:+ " computed="
                +:+ hexString (hash_Sum (hash_Write hash_New content))).
Proof.
  intros Hfile. unfold CheckDigest. rewrite Hfile, hashBlocks_all by lia.
  by destruct (String.eqb _ expected).
Qed.

(** A missing file is reported, not hashed. *)
Lemma CheckDigest_missing_file (what : string) (dldr : MultiDownloader)
    (fs : filesystem) (expected : string) :
  fs !! filename dldr = None ->
  CheckDigest what dldr fs expected = Err (ErrOpen (filename dldr)).
Proof. intros Hfile. unfold CheckDigest. by rewrite Hfile. Qed.

(** C6 (amended).  [CheckSHA256] and [CheckMD5] compute the digest of the
    whole file as lowercase hexadecimal and compare it with the supplied
    string byte for byte: they return nil exactly when the supplied string is
    that lowercase text, and otherwise an error whose message carries the
    supplied string and the computed digest. *)
Theorem CheckDigest_exact_match (dldr : MultiDownloader) (fs : filesystem)
    (content : list byte) (expected : string) :
  fs !! filename dldr = Some content ->
  let computed := hexString (hash_Sum (hash_Write hash_New content)) in
  (CheckSHA256 dldr fs expected = Ok tt <-> expected = computed) /\
  (expected <> computed ->
     CheckSHA256 dldr fs expected
     = Err ("Computed SHA256 does not match: provided=" +:+ expected
              +:+ " computed=" +:+ computed)) /\
  (CheckMD5 dldr fs expected = Ok tt <-> expected = computed) /\
  (expected <> computed ->
     CheckMD5 dldr fs expected
     = Err ("Computed MD5SUM does not match: provided=" +:+ expected
              +:+ " computed=" +:+ computed)).
Proof.
  intros Hfile computed. unfold CheckSHA256, CheckMD5.
  rewrite !(CheckDigest_result _ _ _ _ _ Hfile). fold computed.
  destruct (String.eqb_spec computed expected) as [He|He].
  - split_and!; (done || congruence).
  - split_and!; (done || (split; [discriminate | congruence])).
Qed.

End DigestFacts.

(** ** Examples *)

Lemma GatherInfo_single_bad_mirror_witness :
  exists u, u ∈ urls three_mirrors /\
    GatherInfo simple_url_Parse (memory_of one_GiB) three_mirrors
      [UrlInfo.mk "http://m2/f" 0 EmptyString true 404;
       UrlInfo.mk "http://m1/f" 100 (quoted "abc") true 200;
       UrlInfo.mk "http://m3/f" 100 (quoted "abc") true 200]
    = (three_mirrors, Err (ErrFailedConnection u)).
Proof.
  apply (GatherInfo_single_bad_mirror decimal_ParseInt simple_url_Parse
           (memory_of one_GiB) three_mirrors one_bad_response).
  - discriminate.
  - reflexivity.
  - apply perm_swap.
  - exists (Some (mkResponse 404 "0" EmptyString)). split.
    + apply list_elem_of_further, list_elem_of_here.
    + right. eexists. split; [reflexivity | discriminate].
Defined.

Lemma getHead_unparseable_length_witness :
  GatherInfo simple_url_Parse (memory_of one_GiB) two_mirrors
    [getHead decimal_ParseInt "http://m2/f" (Some no_length_response);
     UrlInfo.mk "http://m1/f" 100 EmptyString true 200]
  = (two_mirrors, Err ErrNotSameFile)
  /\ exists dldr',
      GatherInfo simple_url_Parse (memory_of one_GiB) two_mirrors
        [getHead decimal_ParseInt "http://m2/f" (Some no_length_response);
         UrlInfo.mk "http://m1/f" 0 EmptyString true 200]
      = (dldr', Ok (chunks dldr')) /\
      fileLength dldr' = 0 /\
      chunks dldr' = replicate (Z.to_nat (nConns two_mirrors)) (mkChunk 0 0).
Proof.
  destruct (getHead_unparseable_length decimal_ParseInt simple_url_Parse
              (memory_of one_GiB) "http://m2/f" no_length_response eq_refl eq_refl)
    as (_ & _ & Hfail & Hzero).
  split.
  - apply Hfail.
    + reflexivity.
    + repeat constructor.
    + apply list_elem_of_here.
    + exists (UrlInfo.mk "http://m1/f" 100 EmptyString true 200).
      split; [apply list_elem_of_further, list_elem_of_here | discriminate].
  - apply Hzero.
    + reflexivity.
    + repeat constructor.
    + apply list_elem_of_here.
    + repeat constructor.
    + repeat constructor.
    + discriminate.
    + cbn. lia.
    + vm_compute. discriminate.
    + reflexivity.
Defined.

Lemma GatherInfo_needs_positive_nConns_witness :
  (GatherInfo simple_url_Parse (memory_of one_GiB) no_workers tagged_first).2 = Panic DivideByZero.
Proof.
  destruct (GatherInfo_needs_positive_nConns simple_url_Parse (memory_of one_GiB)
              no_workers tagged_first)
    as (_ & _ & Hdiv & _).
  apply (Hdiv eq_refl _ _ eq_refl).
  - reflexivity.
  - repeat constructor.
  - repeat constructor; by (left + right).
  - discriminate.
Defined.

Lemma urlToFilename_last_segment_witness :
  urlToFilename simple_url_Parse "http://example.com/" = EmptyString.
Proof.
  destruct (urlToFilename_last_segment simple_url_Parse "http://example.com/")
    as (_ & Hslash & _).
  apply (Hslash EmptyString). reflexivity.
Defined.

Lemma SetupFile_presized_part_witness :
  exists dldr',
    SetupFile (fun _ => true) (fun _ => true)
      (set_fileLength two_mirrors 10) ∅ "out.bin"
    = (dldr', <["out.bin.part"%string := replicate 10 x00]> ∅,
       Ok (mkFileInfo 10)) /\
    filename dldr' = "out.bin"%string /\
    partFilename dldr' = "out.bin.part"%string.
Proof.
  destruct (SetupFile_presized_part (fun _ => true) (fun _ => true)
              (set_fileLength two_mirrors 10) ∅ "out.bin")
    as (dldr' & Hs & Hf & Hp & _).
  - discriminate.
  - reflexivity.
  - reflexivity.
  - cbn. lia.
  - exists dldr'. split_and!; [exact Hs | exact Hf | exact Hp].
Defined.

Lemma sha256_on_empty_streaming : @HashStreaming (list byte) sha256_on_empty.
Proof.
  split; cbn.
  - intros h. apply app_nil_r.
  - intros h a b. symmetry. apply app_assoc.
Qed.

Lemma CheckDigest_exact_match_witness :
  @CheckSHA256 (list byte) sha256_on_empty named_f empty_f sha256_of_empty_lower
  = Ok tt.
Proof.
  apply (@CheckDigest_exact_match (list byte) sha256_on_empty
           sha256_on_empty_streaming named_f empty_f []).
  - apply lookup_insert_eq.
  - reflexivity.
Defined.

(** Counterexample to C6 as stated: the SHA-256 digest of an empty file,
    supplied in uppercase, is refused. *)
Lemma CheckSHA256_uppercase_counterexample : ~ digest_check_as_specified.
Proof.
  intros Hclaim.
  destruct (Hclaim (list byte) sha256_on_empty sha256_on_empty_streaming
              named_f empty_f [] sha256_of_empty_upper (lookup_insert_eq _ _ _))
    as [_ Haccept].
  specialize (Haccept eq_refl).
  unfold CheckSHA256 in Haccept.
  rewrite (@CheckDigest_result (list byte) sha256_on_empty
             sha256_on_empty_streaming _ named_f empty_f []) in Haccept
    by apply lookup_insert_eq.
  discriminate Haccept.
Qed.

(** * Further properties of the engine *)

(** ** [buildChunks] on any input *)

(** The loop itself cannot fail: its index runs over the table it fills. *)
Lemma buildChunks_loop_total (n q : Z) :
  n < two63 ->
  forall (fuel : nat) (i remainder boundary nextBoundary : Z) (cs : list Chunk),
    0 <= i ->
    i + Z.of_nat fuel = n ->
    Z.of_nat (length cs) = n ->
    exists cs',
      buildChunks_loop fuel n q i remainder boundary nextBoundary cs = (cs', Ok tt)
      /\ length cs' = length cs.
Proof.
  intros Hn fuel.
  induction fuel as [|fuel IH]; intros i remainder boundary nextBoundary cs Hi Hfuel Hlen.
  - exists cs. cbn [buildChunks_loop].
    replace (i <? n) with false by (symmetry; apply Z.ltb_ge; lia). done.
  - cbn [buildChunks_loop].
    replace (i <? n) with true by (symmetry; apply Z.ltb_lt; lia).
    cbn [negb]. unfold store_Chunk.
    replace (0 <=? i) with true by (symmetry; apply Z.leb_le; lia).
    replace (i <? Z.of_nat (length cs)) with true by (symmetry; apply Z.ltb_lt; lia).
    cbn [andb].
    rewrite (wrap64_small (i + 1)) by (unfold in_int64, two63 in *; lia).
    match goal with
    | |- context [buildChunks_loop fuel n q (i + 1) ?r ?b ?nb ?l] =>
        destruct (IH (i + 1) r b nb l) as (cs' & -> & Hl);
          [lia | lia | by rewrite length_insert |]
    end.
    exists cs'. split; [done|]. by rewrite Hl, length_insert.
Qed.

(** What [buildChunks] does for each worker count within [int]: the four
    cases exclude one another. *)
Lemma buildChunks_cases (may_allocate : Z -> bool) (dldr : MultiDownloader) :
  in_int64 (nConns dldr) ->
  (nConns dldr = 0 /\
     buildChunks may_allocate dldr = (dldr, Panic DivideByZero))
  \/ ((nConns dldr < 0 \/ maxAlloc < sizeof_Chunk * nConns dldr) /\
      buildChunks may_allocate dldr = (dldr, Panic MakeSliceLenOutOfRange))
  \/ ((1 <= nConns dldr /\ sizeof_Chunk * nConns dldr <= maxAlloc /\
       may_allocate (sizeof_Chunk * nConns dldr) = false) /\
      buildChunks may_allocate dldr = (dldr, Panic OutOfMemory))
  \/ ((1 <= nConns dldr /\ sizeof_Chunk * nConns dldr <= maxAlloc /\
       may_allocate (sizeof_Chunk * nConns dldr) = true) /\
      exists cs, buildChunks may_allocate dldr = (set_chunks dldr cs, Ok tt) /\
                 Z.of_nat (length cs) = nConns dldr).
Proof.
  intros Hr. unfold buildChunks. rewrite (wrap64_small _ Hr).
  destruct (Z.eqb_spec (nConns dldr) 0) as [Hz|Hnz]; [by left|]. right.
  unfold make_Chunks.
  destruct (makeslice_cases may_allocate sizeof_Chunk (mkChunk 0 0) (nConns dldr))
    as [[Hc ->]|[[Hc ->]|[Hc ->]]].
  - left. split; [exact Hc | done].
  - right. left. split; [|done]. destruct Hc as (? & ? & ? & ?).
    split_and!; (done || lia).
  - right. right.
    assert (Hpos : 1 <= nConns dldr) by lia.
    assert (Hmem : may_allocate (sizeof_Chunk * nConns dldr) = true).
    { destruct Hc as (_ & _ & [Hc|Hc]); [unfold sizeof_Chunk in Hc; lia | done]. }
    split; [split_and!; (done || lia)|].
    match goal with
    | |- context [buildChunks_loop ?f ?n ?q 0 ?r 0 ?nb ?l] =>
        destruct (buildChunks_loop_total n q ltac:(unfold in_int64 in Hr; lia)
                    f 0 r 0 nb l)
          as (cs & -> & Hl); [lia | lia | rewrite length_replicate; lia |]
    end.
    exists cs. split; [done|]. rewrite Hl, length_replicate. lia.
Qed.

(** X1.  For a worker count within the range of [int], [buildChunks]
    returns normally exactly when the count is positive, the table of that
    many chunks is within [maxAlloc] and the run-time system has the memory
    for it; it then stores a table of that many chunks, whatever the file
    length is, and changes nothing else.  In every other case the downloader
    is left as it was: a count of zero panics on the division, a negative
    count and a count whose table would exceed [maxAlloc] panic in [make],
    and a table for which the memory is not there ends the program. *)
Theorem buildChunks_returns_iff_allocated (may_allocate : Z -> bool)
    (dldr : MultiDownloader) :
  in_int64 (nConns dldr) ->
  ((exists dldr', buildChunks may_allocate dldr = (dldr', Ok tt))
   <-> 1 <= nConns dldr /\ sizeof_Chunk * nConns dldr <= maxAlloc /\
       may_allocate (sizeof_Chunk * nConns dldr) = true) /\
  (forall dldr', buildChunks may_allocate dldr = (dldr', Ok tt) ->
     dldr' = set_chunks dldr (chunks dldr') /\
     Z.of_nat (length (chunks dldr')) = nConns dldr) /\
  (nConns dldr = 0 ->
     buildChunks may_allocate dldr = (dldr, Panic DivideByZero)) /\
  (nConns dldr < 0 \/ maxAlloc < sizeof_Chunk * nConns dldr ->
     buildChunks may_allocate dldr = (dldr, Panic MakeSliceLenOutOfRange)) /\
  (1 <= nConns dldr -> sizeof_Chunk * nConns dldr <= maxAlloc ->
     may_allocate (sizeof_Chunk * nConns dldr) = false ->
     buildChunks may_allocate dldr = (dldr, Panic OutOfMemory)).
Proof.
  intros Hr.
  destruct (buildChunks_cases may_allocate dldr Hr)
    as [[Hc Hb]|[[Hc Hb]|[[Hc Hb]|[Hc (cs & Hb & Hl)]]]]; rewrite Hb.
  - split_and!; try (intros; lia || done).
    + split; [by intros [? ?] | lia].
    + unfold sizeof_Chunk, maxAlloc. lia.
  - split_and!; try (intros; lia || done).
    + split; [by intros [? ?] | lia].
    + unfold sizeof_Chunk, maxAlloc in *. lia.
  - destruct Hc as (? & ? & Hmem). split_and!; try (intros; lia || done).
    split; [by intros [? ?] | intros (_ & _ & ?); congruence].
  - destruct Hc as (? & ? & Hmem). split_and!; try (intros; lia || congruence).
    + split; [done | eauto].
    + intros dldr' [= <-]. by destruct dldr.
Qed.

Lemma buildChunks_returns_iff_allocated_witness :
  buildChunks (memory_of one_GiB)
    (set_fileLength (NewMultiDownloader ["http://a/f"%string] (2 ^ 45) 0) 10)
  = (set_fileLength (NewMultiDownloader ["http://a/f"%string] (2 ^ 45) 0) 10,
     Panic MakeSliceLenOutOfRange).
Proof.
  destruct (buildChunks_returns_iff_allocated (memory_of one_GiB)
              (set_fileLength (NewMultiDownloader ["http://a/f"%string] (2 ^ 45) 0) 10))
    as (_ & _ & _ & Hbig & _).
  - vm_compute. split; [discriminate | reflexivity].
  - apply Hbig. right. vm_compute. reflexivity.
Defined.

(** X2.  With the file length and worker count of C1, no chunk of the
    table is empty exactly when the file has at least as many bytes as there
    are workers; with fewer bytes the trailing chunks are empty. *)
Theorem buildChunks_no_empty_chunk (may_allocate : Z -> bool)
    (dldr : MultiDownloader) :
  0 <= fileLength dldr < two63 ->
  1 <= nConns dldr ->
  sizeof_Chunk * nConns dldr <= maxAlloc ->
  may_allocate (sizeof_Chunk * nConns dldr) = true ->
  (Forall (fun c => Begin c < End c) (chunks (buildChunks may_allocate dldr).1)
   <-> nConns dldr <= fileLength dldr).
Proof.
  intros Hfl Hn Hfit Hmem. rewrite buildChunks_closed_form by done.
  cbn [fst chunks set_chunks].
  set (q := fileLength dldr / nConns dldr).
  set (r := fileLength dldr mod nConns dldr).
  pose proof (Z.mod_pos_bound (fileLength dldr) (nConns dldr) ltac:(lia)) as Hr.
  pose proof (Z.div_mod (fileLength dldr) (nConns dldr) ltac:(lia)) as Hdm.
  assert (Hq : 0 <= q) by (apply Z.div_pos; lia).
  fold q r in Hr, Hdm.
  assert (Hq1 : 1 <= q <-> nConns dldr <= fileLength dldr).
  { split; [nia|]. intros Hle.
    assert (Hc : q = 0 \/ 1 <= q) by lia.
    destruct Hc as [Hc|Hc]; [|done]. rewrite Hc in Hdm. lia. }
  rewrite <- Hq1, Forall_lookup. split.
  - intros Hall.
    assert (Hlast : (Z.to_nat (nConns dldr) - 1 < Z.to_nat (nConns dldr))%nat) by lia.
    specialize (Hall _ _ (chunkTable_lookup_lt q r _ _ Hlast)).
    unfold chunkAt in Hall. cbn [Begin End] in Hall.
    replace (Z.of_nat (Z.to_nat (nConns dldr) - 1)) with (nConns dldr - 1)
      in Hall by lia.
    lia.
  - intros Hle i c Hc. apply chunkTable_lookup in Hc as [Hi ->].
    unfold chunkAt. cbn [Begin End]. lia.
Qed.

Lemma buildChunks_no_empty_chunk_witness :
  ~ Forall (fun c => Begin c < End c)
      (chunks (buildChunks (memory_of one_GiB)
                 (set_fileLength (NewMultiDownloader ["http://a/f"%string] 3 0) 2)).1).
Proof.
  intros Hall.
  apply (buildChunks_no_empty_chunk (memory_of one_GiB)
           (set_fileLength (NewMultiDownloader ["http://a/f"%string] 3 0) 2)) in Hall.
  - cbn in Hall. lia.
  - cbn. unfold two63. lia.
  - cbn. lia.
  - vm_compute. discriminate.
  - reflexivity.
Defined.

(** ** [GatherInfo]: errors, success and what it leaves behind *)

Lemma buildChunks_loop_no_error (n q : Z) (fuel : nat) :
  forall (i remainder boundary nextBoundary : Z) (cs : list Chunk) (e : error),
    (buildChunks_loop fuel n q i remainder boundary nextBoundary cs).2 <> Err e.
Proof.
  induction fuel as [|fuel IH]; intros i remainder boundary nextBoundary cs e;
    cbn [buildChunks_loop]; destruct (negb (i <? n)); try done.
  destruct (store_Chunk _ _ _); [apply IH | done].
Qed.

Lemma buildChunks_no_error (may_allocate : Z -> bool) (dldr : MultiDownloader)
    (e : error) :
  (buildChunks may_allocate dldr).2 <> Err e.
Proof.
  unfold buildChunks. destruct (_ =? 0); [done|].
  destruct (make_Chunks _ _) as [p|cs0]; [done|].
  match goal with
  | |- context [buildChunks_loop ?f ?n ?q ?i ?r ?b ?nb ?l] =>
      pose proof (buildChunks_loop_no_error n q f i r b nb l e) as Hl;
      destruct (buildChunks_loop f n q i r b nb l) as [cs o]
  end.
  exact Hl.
Qed.

(** What the receiving loop returns, read backwards. *)
Lemma gatherResults_Ok_inv (n : nat) (ch resArray : list urlInfo) :
  gatherResults n ch = Ok resArray ->
  resArray = take n ch /\ length resArray = n /\ Forall probe_ok resArray.
Proof.
  revert ch resArray. induction n as [|n IH]; intros ch resArray.
  - cbn. intros [= <-]. done.
  - destruct ch as [|r ch]; [done|]. cbn [gatherResults take].
    destruct (negb _ || negb _) eqn:Hr; [done|].
    apply probe_ok_test in Hr.
    destruct (gatherResults n ch) as [l| | | |] eqn:Hg; try done.
    intros [= <-]. destruct (IH _ _ Hg) as (-> & Hl & Hok).
    split_and!; [done | cbn; by rewrite Hl | by constructor].
Qed.

Lemma gatherResults_Err_inv (n : nat) (ch : list urlInfo) (e : error) :
  gatherResults n ch = Err e ->
  exists r, r ∈ ch /\ ~ probe_ok r /\ e = ErrFailedConnection (UrlInfo.url r).
Proof.
  revert ch. induction n as [|n IH]; intros ch; [done|].
  destruct ch as [|r ch]; [done|]. cbn [gatherResults].
  destruct (negb _ || negb _) eqn:Hr.
  - intros [= <-]. exists r. split_and!; [apply list_elem_of_here | | done].
    intros Hok. apply probe_ok_test in Hok. congruence.
  - destruct (gatherResults n ch) as [l| | | |] eqn:Hg; try done.
    intros [= <-]. destruct (IH _ Hg) as (r' & Hin & Hbad & He).
    exists r'. split_and!; [by apply list_elem_of_further | done | done].
Qed.

Section GatherInfoFacts.

Variable url_Parse : string -> option URL.
Variable may_allocate : Z -> bool.

(** X3.  An error return of [GatherInfo] has touched nothing: the
    downloader is as before the call, and the error is "No URLs provided",
    "Failed connection to URL u" for a result that did not pass, or "URLs
    must point to the same file". *)
Theorem GatherInfo_error_changes_nothing (dldr dldr' : MultiDownloader)
    (results : list urlInfo) (e : error) :
  GatherInfo url_Parse may_allocate dldr results = (dldr', Err e) ->
  dldr' = dldr /\
  ((urls dldr = [] /\ e = ErrNoURLs)
   \/ (exists r, r ∈ results /\ ~ probe_ok r
                 /\ e = ErrFailedConnection (UrlInfo.url r))
   \/ e = ErrNotSameFile).
Proof.
  unfold GatherInfo.
  destruct (length (urls dldr) =? 0)%nat eqn:Hz.
  { intros [= <- <-]. split; [done|]. left. split; [|done].
    apply Nat.eqb_eq in Hz. by destruct (urls dldr). }
  destruct (gatherResults _ results) as [[|r0 rest]| | | |] eqn:Hg; try done.
  - destruct (negb _); [intros [= <- <-]; split; [done | by right; right]|].
    destruct (storeETag _ _) as [t|]; [|done].
    match goal with
    | |- context [buildChunks may_allocate ?d] =>
        pose proof (buildChunks_no_error may_allocate d) as Hb;
        destruct (buildChunks may_allocate d) as [d5 [[]|e'| | |]]
    end; try done.
    by destruct (Hb e').
  - intros [= <- <-]. split; [done|]. right. left.
    by apply gatherResults_Err_inv in Hg.
Qed.

(** X4.  Let as many results arrive as there are URLs (at least one) and
    let the worker count be within the range of [int].  Then [GatherInfo]
    succeeds exactly when every result has passed, every result after the
    first has the first one's length and a tag that is empty or equal to the
    first one's, the first tag is not a single byte, and the worker count is
    positive with a chunk table that is within [maxAlloc] and for which the
    run-time system has the memory. *)
Theorem GatherInfo_succeeds_iff (dldr : MultiDownloader) (r0 : urlInfo)
    (rest : list urlInfo) :
  length (r0 :: rest) = length (urls dldr) ->
  in_int64 (nConns dldr) ->
  ((exists dldr' cs,
      GatherInfo url_Parse may_allocate dldr (r0 :: rest) = (dldr', Ok cs))
   <-> Forall probe_ok (r0 :: rest)
       /\ Forall (agrees_with (UrlInfo.fileLength r0) (UrlInfo.etag r0)) rest
       /\ String.length (UrlInfo.etag r0) <> 1%nat
       /\ 1 <= nConns dldr
       /\ sizeof_Chunk * nConns dldr <= maxAlloc
       /\ may_allocate (sizeof_Chunk * nConns dldr) = true).
Proof.
  intros Hlen Hn. split.
  - intros (dldr' & cs & Hg). unfold GatherInfo in Hg.
    destruct (length (urls dldr) =? 0)%nat; [done|].
    destruct (gatherResults _ _) as [l| | | |] eqn:Hgr; try done.
    apply gatherResults_Ok_inv in Hgr as (Hl & _ & Hok).
    rewrite <- Hlen, firstn_all in Hl. subst l.
    destruct (sourcesAgree _ _ rest) eqn:Hag; [|done]. cbn [negb] in Hg.
    apply sourcesAgree_true in Hag.
    split; [done|]. split; [done|]. split.
    + intros Hone. destruct (string_shape (UrlInfo.etag r0))
        as [E|[(a & E)|(a & mid & b & E)]]; rewrite E in Hone, Hg.
      * done.
      * by rewrite storeETag_single in Hg.
      * cbn [String.length] in Hone. rewrite string_length_app in Hone.
        cbn [String.length] in Hone. lia.
    + destruct (storeETag _ _) as [d2|] eqn:Ht; [|done].
      assert (Hnc : nConns d2 = nConns dldr).
      { unfold storeETag in Ht. destruct (negb _) in Ht.
        - destruct (slice_string _ _ _) in Ht; [|done]. by injection Ht as <-.
        - by injection Ht as <-. }
      match type of Hg with
      | context [buildChunks may_allocate ?d] =>
          destruct (buildChunks_cases may_allocate d) as
            [[_ Hb]|[[_ Hb]|[[_ Hb]|[Hc _]]]];
            [cbn [nConns set_partFilename set_filename]; by rewrite Hnc
            | rewrite Hb in Hg; done | rewrite Hb in Hg; done
            | rewrite Hb in Hg; done |]
      end.
      cbn [nConns set_partFilename set_filename] in Hc. by rewrite Hnc in Hc.
  - intros (Hok & Hag & Htag & Hpos & Hfit & Hmem).
    rewrite GatherInfo_after_probes by done.
    apply sourcesAgree_true in Hag. rewrite Hag. cbn [negb]. cbv zeta.
    destruct (storeETag_is_Some (set_fileLength dldr (UrlInfo.fileLength r0))
                (UrlInfo.etag r0) Htag) as (t & -> & _ & Hnc & _).
    cbn [nConns set_fileLength] in Hnc.
    match goal with
    | |- context [buildChunks may_allocate ?d] =>
        destruct (buildChunks_cases may_allocate d) as
          [[Hc _]|[[Hc _]|[[Hc _]|[_ (cs & -> & _)]]]];
          cbn [nConns set_partFilename set_filename] in *;
          rewrite ?Hnc in *
    end.
    + done.
    + lia.
    + lia.
    + destruct Hc as (_ & _ & Hc). congruence.
    + eauto.
Qed.

Lemma buildChunks_only_chunks (dldr dldr' : MultiDownloader) (o : outcome unit) :
  buildChunks may_allocate dldr = (dldr', o) ->
  dldr' = set_chunks dldr (chunks dldr').
Proof.
  unfold buildChunks. destruct (_ =? 0); [intros [= <- _]; by destruct dldr|].
  destruct (make_Chunks _ _); [intros [= <- _]; by destruct dldr|].
  destruct (buildChunks_loop _ _ _ _ _ _ _ _). by intros [= <- _].
Qed.

(** X5.  After a successful [GatherInfo] the downloader holds the length
    reported by the result that arrived first, the name derived from that
    result's URL, the staging name [filename + ".part"], the first tag
    without its first and last byte (or the tag it had before, when the first
    result has none), and the chunk table that is returned; URLs, worker
    count and timeout are as before. *)
Theorem GatherInfo_success_state (dldr dldr' : MultiDownloader)
    (results : list urlInfo) (cs : list Chunk) :
  GatherInfo url_Parse may_allocate dldr results = (dldr', Ok cs) ->
  exists r0, head results = Some r0 /\
    cs = chunks dldr' /\
    urls dldr' = urls dldr /\ nConns dldr' = nConns dldr /\
    timeout dldr' = timeout dldr /\
    fileLength dldr' = UrlInfo.fileLength r0 /\
    filename dldr' = urlToFilename url_Parse (UrlInfo.url r0) /\
    partFilename dldr' = filename dldr' +:+ ".part" /\
    ((UrlInfo.etag r0 = EmptyString /\ ETag dldr' = ETag dldr)
     \/ exists a mid b, UrlInfo.etag r0 = String a (mid +:+ String b EmptyString)
                        /\ ETag dldr' = mid).
Proof.
  unfold GatherInfo.
  destruct (length (urls dldr) =? 0)%nat; [done|].
  destruct (gatherResults _ results) as [[|r0 rest]| | | |] eqn:Hg; try done.
  apply gatherResults_Ok_inv in Hg as (Hl & _ & _).
  destruct (negb _); [done|].
  destruct (storeETag _ _) as [t|] eqn:Ht; [|done].
  destruct (buildChunks may_allocate _) as [d5 [[]| | | |]] eqn:Hb; try done.
  intros [= <- <-]. exists r0.
  apply buildChunks_only_chunks in Hb. rewrite Hb.
  cbn [chunks urls nConns timeout fileLength filename partFilename ETag
       set_chunks set_partFilename set_filename].
  assert (Hhead : head results = Some r0).
  { destruct results as [|x xs]; [by destruct (length (urls dldr))|].
    destruct (length (urls dldr)); [done|]. by injection Hl as -> _. }
  destruct (string_shape (UrlInfo.etag r0)) as [E|[(a & E)|(a & mid & b & E)]];
    rewrite E in Ht.
  - rewrite storeETag_empty in Ht. injection Ht as <-.
    split_and!; try done. by left.
  - by rewrite storeETag_single in Ht.
  - rewrite storeETag_strip in Ht. injection Ht as <-.
    split_and!; try done. right. by exists a, mid, b.
Qed.

End GatherInfoFacts.

Lemma GatherInfo_error_changes_nothing_witness :
  three_mirrors = three_mirrors /\
  ((urls three_mirrors = [] /\ ErrNotSameFile = ErrNoURLs)
   \/ (exists r, r ∈ untagged_first /\ ~ probe_ok r
                 /\ ErrNotSameFile = ErrFailedConnection (UrlInfo.url r))
   \/ ErrNotSameFile = ErrNotSameFile).
Proof.
  apply (GatherInfo_error_changes_nothing simple_url_Parse (memory_of one_GiB)
           three_mirrors
           three_mirrors untagged_first ErrNotSameFile).
  reflexivity.
Defined.

Lemma GatherInfo_succeeds_iff_witness :
  exists dldr' cs,
    GatherInfo simple_url_Parse (memory_of one_GiB) three_mirrors tagged_first = (dldr', Ok cs).
Proof.
  apply (GatherInfo_succeeds_iff simple_url_Parse (memory_of one_GiB) three_mirrors
           (UrlInfo.mk "http://m1/f" 100 (quoted "abc") true 200)
           [UrlInfo.mk "http://m2/f" 100 EmptyString true 200;
            UrlInfo.mk "http://m3/f" 100 (quoted "abc") true 200]).
  - reflexivity.
  - vm_compute. split; [discriminate | reflexivity].
  - split_and!.
    + repeat constructor.
    + repeat constructor; by (left + right).
    + discriminate.
    + cbn. lia.
    + vm_compute. discriminate.
    + reflexivity.
Defined.

Lemma GatherInfo_success_state_witness :
  exists r0, head tagged_first = Some r0 /\
    fileLength (GatherInfo simple_url_Parse (memory_of one_GiB) three_mirrors tagged_first).1
    = UrlInfo.fileLength r0.
Proof.
  destruct (GatherInfo_success_state simple_url_Parse (memory_of one_GiB)
              three_mirrors
              (GatherInfo simple_url_Parse (memory_of one_GiB) three_mirrors tagged_first).1
              tagged_first
              [mkChunk 0 34; mkChunk 34 67; mkChunk 67 100] eq_refl)
    as (r0 & Hh & _ & _ & _ & _ & Hfl & _).
  exists r0. split; [exact Hh | exact Hfl].
Defined.

(** ** The coordinator: how long it waits, and that its answer is final *)

Lemma count_done_failed_length (events : list event) :
  count_done events + count_failed events = Z.of_nat (length events).
Proof. induction events as [|[] events IH]; cbn [count_done count_failed length]; lia. Qed.

(** X6.  With [N = nConns >= 1] the coordinator never needs more than
    [2 N - 1] events: once that many have come it has either left the loop
    towards the rename or returned the error. *)
Theorem Download_coordinator_bounded (dldr : MultiDownloader) (events : list event) :
  1 <= nConns dldr < two63 ->
  2 * nConns dldr - 1 <= Z.of_nat (length events) ->
  Download_coordinator dldr events = Ok tt
  \/ Download_coordinator dldr events = Err ErrAllSourcesFailed.
Proof.
  intros HN Hlen. unfold Download_coordinator.
  destruct (Download_loop_cases (nConns dldr) events ltac:(lia) (nConns dldr) 0
              ltac:(lia) ltac:(lia)) as [[-> _]|[[-> _]|[_ [Hd Hf]]]];
    [by left | by right |].
  pose proof (count_done_failed_length events). lia.
Qed.

Lemma Download_coordinator_bounded_witness :
  Download_coordinator (NewMultiDownloader ["http://a/f"%string] 2 0)
    [failed; done; done] = Ok tt
  \/ Download_coordinator (NewMultiDownloader ["http://a/f"%string] 2 0)
       [failed; done; done] = Err ErrAllSourcesFailed.
Proof.
  apply (Download_coordinator_bounded
           (NewMultiDownloader ["http://a/f"%string] 2 0) [failed; done; done]).
  - cbn. unfold two63. lia.
  - cbn. lia.
Defined.

Lemma Download_loop_final (N : Z) (events more : list event) :
  forall remaining fc,
    Download_loop N remaining fc events <> Blocked ->
    Download_loop N remaining fc (events ++ more)
    = Download_loop N remaining fc events.
Proof.
  induction events as [|e events IH]; intros remaining fc Hnb.
  - cbn [app]. cbn [Download_loop] in Hnb.
    destruct more as [|e more]; cbn [Download_loop];
      destruct (negb (0 <? remaining)); done.
  - cbn [app Download_loop] in *.
    destruct (negb (0 <? remaining)); [done|].
    destruct e; [by apply IH|].
    destruct (N <=? wrap64 (fc + 1)); [done | by apply IH].
Qed.

(** X7.  Once the coordinator has returned on a sequence of events, no
    later event changes what it returns: the events after its decision are
    not read. *)
Theorem Download_coordinator_final (dldr : MultiDownloader)
    (events more : list event) :
  Download_coordinator dldr events <> Blocked ->
  Download_coordinator dldr (events ++ more) = Download_coordinator dldr events.
Proof. apply Download_loop_final. Qed.

Lemma Download_coordinator_final_witness :
  Download_coordinator (NewMultiDownloader ["http://a/f"%string] 2 0)
    ([failed; failed] ++ [done; done])
  = Download_coordinator (NewMultiDownloader ["http://a/f"%string] 2 0)
      [failed; failed].
Proof.
  apply (Download_coordinator_final
           (NewMultiDownloader ["http://a/f"%string] 2 0) [failed; failed] [done; done]).
  discriminate.
Defined.

(** ** [SetupFile]: what it touches and what it loses *)

Section SetupFileFacts.

Variable may_create : string -> bool.
Variable may_resize : Z -> bool.

(** X8.  Whatever [SetupFile] returns, no file other than the staging
    file is created, changed or removed, and of the downloader only the two
    names change (and only for a non-empty argument, even when the call then
    fails).  An error return is the refusal of [os.Create] and leaves the
    file system as it was; a normal return leaves a staging file that holds
    zero bytes only, of the size reported. *)
Theorem SetupFile_touches_only_staging (dldr dldr' : MultiDownloader)
    (fs fs' : filesystem) (name : string) (o : outcome FileInfo) :
  SetupFile may_create may_resize dldr fs name = (dldr', fs', o) ->
  dldr' = (if String.eqb name EmptyString then dldr
           else set_partFilename (set_filename dldr name) (name +:+ ".part")) /\
  (forall other, other <> partFilename dldr' -> fs' !! other = fs !! other) /\
  ((exists info data, o = Ok info /\ fs' !! partFilename dldr' = Some data /\
                      Size info = Z.of_nat (length data) /\
                      Forall (fun b => b = x00) data)
   \/ (o = Err (ErrCreate (partFilename dldr')) /\ fs' = fs)).
Proof.
  unfold SetupFile.
  set (d1 := if negb (String.eqb name EmptyString) then _ else dldr).
  assert (Hd1 : d1 = (if String.eqb name EmptyString then dldr
                      else set_partFilename (set_filename dldr name) (name +:+ ".part"))).
  { subst d1. by destruct (String.eqb name EmptyString). }
  unfold os_Create. destruct (may_create (partFilename d1)).
  2:{ intros [= <- <- <-]. split_and!; [done | done | by right]. }
  unfold file_Truncate, file_Stat.
  destruct ((fileLength d1 <? 0) || negb (may_resize (fileLength d1))).
  - intros [= <- <- <-]. split_and!; [done | |].
    + intros other Ho. by rewrite lookup_insert_ne.
    + left. eexists _, []. rewrite lookup_insert_eq. done.
  - rewrite lookup_insert_eq, insert_insert_eq, take_nil. cbn [app length].
    intros [= <- <- <-]. split_and!; [done | |].
    + intros other Ho. by rewrite lookup_insert_ne.
    + left. eexists _, _. rewrite lookup_insert_eq. split_and!; [done | done | done |].
      apply Forall_replicate. done.
Qed.

(** X9.  When the staging file is created but cannot be given the agreed
    size (the size is negative, or the environment refuses), [SetupFile]
    still returns without error: the error of [Truncate] is overwritten, and
    the metadata returned is that of an empty file. *)
Theorem SetupFile_drops_resize_error (dldr : MultiDownloader) (fs : filesystem)
    (name : string) :
  let part := if String.eqb name EmptyString then partFilename dldr
              else name +:+ ".part" in
  may_create part = true ->
  fileLength dldr < 0 \/ may_resize (fileLength dldr) = false ->
  (SetupFile may_create may_resize dldr fs name).2 = Ok (mkFileInfo 0) /\
  (SetupFile may_create may_resize dldr fs name).1.2 = <[part := []]> fs.
Proof.
  intros part Hc Hr. unfold SetupFile.
  set (d1 := if negb (String.eqb name EmptyString) then _ else dldr).
  assert (Hp : partFilename d1 = part /\ fileLength d1 = fileLength dldr).
  { subst d1 part. by destruct (String.eqb name EmptyString). }
  destruct Hp as [Hp Hl].
  unfold os_Create, file_Truncate, file_Stat. rewrite Hp, Hc, Hl.
  replace ((fileLength dldr <? 0) || negb (may_resize (fileLength dldr))) with true.
  - by rewrite lookup_insert_eq.
  - symmetry. apply orb_true_iff. destruct Hr as [Hr| ->]; [left | by right].
    apply Z.ltb_lt. lia.
Qed.

(** The call with an empty argument on a downloader whose names are set. *)
Lemma SetupFile_after_GatherInfo (dldr : MultiDownloader) (fs : filesystem) :
  may_create (partFilename dldr) = true ->
  may_resize (fileLength dldr) = true ->
  0 <= fileLength dldr ->
  SetupFile may_create may_resize dldr fs EmptyString
  = (dldr,
     <[partFilename dldr := replicate (Z.to_nat (fileLength dldr)) x00]> fs,
     Ok (mkFileInfo (fileLength dldr))).
Proof.
  intros Hc Hr Hl. unfold SetupFile, os_Create, file_Truncate, file_Stat.
  cbn [String.eqb negb]. rewrite Hc, Hr.
  replace (fileLength dldr <? 0) with false by (symmetry; apply Z.ltb_ge; lia).
  cbn [negb orb].
  rewrite lookup_insert_eq, insert_insert_eq, take_nil. cbn [length app].
  rewrite lookup_insert_eq. unfold default. cbn [from_option id].
  rewrite Nat.sub_0_r, length_replicate, Z2Nat.id by lia.
  reflexivity.
Qed.

(** X10.  [GatherInfo] and [SetupFile] compose: after a successful
    [GatherInfo], [SetupFile] called without a name creates the staging file
    under the derived name followed by ".part", with the agreed length in
    zero bytes, provided the environment allows it and the length is not
    negative; the downloader is not changed by the second call. *)
Theorem GatherInfo_then_SetupFile (url_Parse : string -> option URL)
    (may_allocate : Z -> bool) (dldr dldr' : MultiDownloader)
    (results : list urlInfo) (cs : list Chunk) (fs : filesystem) :
  GatherInfo url_Parse may_allocate dldr results = (dldr', Ok cs) ->
  may_create (filename dldr' +:+ ".part") = true ->
  may_resize (fileLength dldr') = true ->
  0 <= fileLength dldr' ->
  SetupFile may_create may_resize dldr' fs EmptyString
  = (dldr',
     <[filename dldr' +:+ ".part" := replicate (Z.to_nat (fileLength dldr')) x00]> fs,
     Ok (mkFileInfo (fileLength dldr'))).
Proof.
  intros Hg Hc Hr Hl.
  assert (Hp : partFilename dldr' = filename dldr' +:+ ".part").
  { unfold GatherInfo in Hg.
    destruct (length (urls dldr) =? 0)%nat; [done|].
    destruct (gatherResults _ results) as [[|r0 rest]| | | |]; try done.
    destruct (negb _); [done|].
    destruct (storeETag _ _) as [t|]; [|done].
    destruct (buildChunks may_allocate _) as [d5 [[]| | | |]] eqn:Hb; try done.
    injection Hg as <- _. apply buildChunks_only_chunks in Hb. by rewrite Hb. }
  rewrite <- Hp in *. by apply SetupFile_after_GatherInfo.
Qed.

End SetupFileFacts.

Lemma SetupFile_touches_only_staging_witness :
  (SetupFile (fun _ => true) (fun _ => true) (set_fileLength two_mirrors 10)
     (<["keep"%string := [x01]]> ∅) "out.bin").1.2 !! "keep"%string
  = Some [x01].
Proof.
  destruct (SetupFile_touches_only_staging (fun _ => true) (fun _ => true)
              (set_fileLength two_mirrors 10)
              (SetupFile (fun _ => true) (fun _ => true)
                 (set_fileLength two_mirrors 10)
                 (<["keep"%string := [x01]]> ∅) "out.bin").1.1
              (<["keep"%string := [x01]]> ∅)
              (SetupFile (fun _ => true) (fun _ => true)
                 (set_fileLength two_mirrors 10)
                 (<["keep"%string := [x01]]> ∅) "out.bin").1.2
              "out.bin"
              (SetupFile (fun _ => true) (fun _ => true)
                 (set_fileLength two_mirrors 10)
                 (<["keep"%string := [x01]]> ∅) "out.bin").2)
    as (_ & Hother & _).
  - reflexivity.
  - rewrite Hother; [apply lookup_insert_eq | discriminate].
Defined.

Lemma SetupFile_drops_resize_error_witness :
  (SetupFile (fun _ => true) (fun _ => true) (set_fileLength two_mirrors (-5))
     ∅ "out.bin").2 = Ok (mkFileInfo 0).
Proof.
  destruct (SetupFile_drops_resize_error (fun _ => true) (fun _ => true)
              (set_fileLength two_mirrors (-5)) ∅ "out.bin") as [Hok _].
  - reflexivity.
  - left. cbn. lia.
  - exact Hok.
Defined.

Lemma GatherInfo_then_SetupFile_witness :
  exists fs' : filesystem,
    SetupFile (fun _ => true) (fun _ => true)
      (GatherInfo simple_url_Parse (memory_of one_GiB) three_mirrors tagged_first).1 ∅ EmptyString
    = ((GatherInfo simple_url_Parse (memory_of one_GiB) three_mirrors tagged_first).1, fs',
       Ok (mkFileInfo 100)).
Proof.
  eexists.
  apply (GatherInfo_then_SetupFile (fun _ => true) (fun _ => true)
           simple_url_Parse (memory_of one_GiB) three_mirrors
           (GatherInfo simple_url_Parse (memory_of one_GiB) three_mirrors tagged_first).1
           tagged_first [mkChunk 0 34; mkChunk 34 67; mkChunk 67 100] ∅).
  - reflexivity.
  - reflexivity.
  - reflexivity.
  - vm_compute. discriminate.
Defined.

(** ** Digest checks: what is accepted *)

Lemma hexDigit_lower_hex (n : N) : (n < 16)%N -> is_lower_hex (hexDigit n).
Proof.
  intros Hn. unfold is_lower_hex, hexDigit. apply nth_In. cbn. lia.
Qed.

Lemma hexString_length (bs : list byte) :
  String.length (hexString bs) = (2 * length bs)%nat.
Proof. induction bs as [|b bs IH]; cbn [hexString String.length length]; lia. Qed.

Lemma hexString_lower_hex (bs : list byte) :
  Forall is_lower_hex (list_ascii_of_string (hexString bs)).
Proof.
  induction bs as [|b bs IH]; cbn [hexString list_ascii_of_string]; [constructor|].
  pose proof (Byte.to_N_bounded b) as Hb.
  apply Forall_cons. split; [|apply Forall_cons; split; [|exact IH]];
    apply hexDigit_lower_hex.
  - apply N.Div0.div_lt_upper_bound. lia.
  - apply N.mod_lt. lia.
Qed.

Section DigestAccepts.

Context {H : Type} `{HashStreaming H}.

(** X11.  [CheckSHA256] and [CheckMD5] return nil only when the file
    exists and the supplied string is the digest in lowercase hexadecimal:
    twice as many characters as the digest has bytes, each of them one of
    [0-9a-f].  A supplied digest with an uppercase letter, a space or a
    trailing newline is therefore always refused. *)
Theorem CheckDigest_accepts_lower_hex_only (what : string)
    (dldr : MultiDownloader) (fs : filesystem) (expected : string) :
  CheckDigest what dldr fs expected = Ok tt ->
  exists content,
    fs !! filename dldr = Some content /\
    expected = hexString (hash_Sum (hash_Write hash_New content)) /\
    String.length expected
    = (2 * length (hash_Sum (hash_Write hash_New content)))%nat /\
    Forall is_lower_hex (list_ascii_of_string expected).
Proof.
  intros Hok. destruct (fs !! filename dldr) as [content|] eqn:Hfile.
  2:{ by rewrite CheckDigest_missing_file in Hok. }
  rewrite (CheckDigest_result _ _ _ _ _ Hfile) in Hok.
  destruct (String.eqb_spec (hexString (hash_Sum (hash_Write hash_New content)))
              expected) as [<-|]; [|done].
  exists content. split_and!; [done | done | apply hexString_length
                              | apply hexString_lower_hex].
Qed.

End DigestAccepts.

Lemma CheckDigest_accepts_lower_hex_only_witness :
  exists content,
    empty_f !! filename named_f = Some content /\
    String.length sha256_of_empty_lower
    = (2 * length (@hash_Sum _ sha256_on_empty
                     (@hash_Write _ sha256_on_empty
                        (@hash_New _ sha256_on_empty) content)))%nat.
Proof.
  destruct (@CheckDigest_accepts_lower_hex_only (list byte) sha256_on_empty
              sha256_on_empty_streaming "SHA256" named_f empty_f
              sha256_of_empty_lower eq_refl)
    as (content & Hf & _ & Hl & _).
  exists content. split; [exact Hf | exact Hl].
Defined.

(** ** [urlToFilename]: the name is the last segment *)

Lemma string_to_from (n : nat) (s : string) :
  string_to n s +:+ string_from n s = s.
Proof.
  revert n. induction s as [|a s IH]; intros [|n]; cbn [string_to string_from];
    try done.
  rewrite append_String. by rewrite IH.
Qed.

Lemma LastIndexByte_prefix (s : string) (c : ascii) :
  0 <= LastIndexByte s c ->
  exists d, string_to (Z.to_nat (LastIndexByte s c + 1)) s = d +:+ String c EmptyString.
Proof.
  induction s as [|a s IH]; cbn [LastIndexByte]; [lia|].
  pose proof (LastIndexByte_bound s c) as Hb.
  destruct (Z.leb_spec 0 (LastIndexByte s c)) as [Hj|Hj].
  - intros _. destruct (IH Hj) as (d & Hd).
    replace (Z.to_nat (LastIndexByte s c + 1 + 1))
      with (S (Z.to_nat (LastIndexByte s c + 1))) by lia.
    cbn [string_to]. rewrite Hd. by exists (String a d).
  - destruct (Ascii.eqb_spec a c) as [->|_]; [|lia].
    intros _. by exists EmptyString.
Qed.

Section NameFacts.

Variable url_Parse : string -> option URL.

(** X12.  The name that [urlToFilename] derives never contains a slash.
    When [url.Parse] succeeds the name is the end of the path: the path is
    a directory part, empty or ending in a slash, followed by the name. *)
Theorem urlToFilename_is_path_suffix (urlStr : string) :
  LastIndexByte (urlToFilename url_Parse urlStr) "/" = -1 /\
  (forall url, url_Parse urlStr = Some url ->
     exists dir,
       Path url = dir +:+ urlToFilename url_Parse urlStr /\
       (dir = EmptyString \/ exists d, dir = d +:+ "/")).
Proof.
  unfold urlToFilename. split.
  - destruct (url_Parse urlStr) as [url|]; [apply path_Split_snd_no_slash | reflexivity].
  - intros url ->. unfold path_Split. cbn [snd].
    exists (string_to (Z.to_nat (LastIndexByte (Path url) "/" + 1)) (Path url)).
    split; [by rewrite string_to_from|].
    pose proof (LastIndexByte_bound (Path url) "/") as Hb.
    destruct (Z.leb_spec 0 (LastIndexByte (Path url) "/")) as [Hj|Hj].
    + right. by apply LastIndexByte_prefix.
    + left. replace (LastIndexByte (Path url) "/") with (-1) by lia.
      by destruct (Path url).
Qed.

End NameFacts.

(** ** The copy loop of a worker *)

Lemma overlay_nonempty (f b : list byte) (off : nat) :
  b <> [] ->
  overlay f b off
  = take off (f ++ replicate (off - length f) x00) ++ b ++ drop (off + length b) f.
Proof. by destruct b. Qed.

Lemma length_hole_prefix (f : list byte) (off : nat) :
  length (take off (f ++ replicate (off - length f) x00)) = off.
Proof. rewrite length_take, length_app, length_replicate. lia. Qed.

(** Writing [a] and then [b] right after it is writing [a ++ b]. *)
Lemma overlay_app (f a b : list byte) (off : nat) :
  overlay (overlay f a off) b (off + length a) = overlay f (a ++ b) off.
Proof.
  destruct (decide (a = [])) as [->|Ha].
  { cbn [overlay length app]. by rewrite Nat.add_0_r. }
  destruct (decide (b = [])) as [->|Hb].
  { by rewrite app_nil_r. }
  rewrite (overlay_nonempty f a) by done.
  rewrite (overlay_nonempty _ b) by done.
  rewrite (overlay_nonempty f (a ++ b)) by (by destruct a).
  set (P := take off (f ++ replicate (off - length f) x00)).
  assert (HP : length P = off) by apply length_hole_prefix.
  assert (Hzero : (off + length a
                   - length (P ++ a ++ drop (off + length a) f) = 0)%nat).
  { rewrite !length_app, HP. lia. }
  rewrite Hzero. cbn [replicate]. rewrite app_nil_r.
  rewrite (app_assoc P a), take_app_length' by (rewrite length_app; lia).
  rewrite drop_app_add' by (rewrite length_app; lia).
  rewrite drop_drop, length_app, <- !app_assoc.
  do 3 f_equal. f_equal. lia.
Qed.

Lemma snapshotsOf_lookup (i : Z) (c : Chunk) (blocks : list (list byte)) :
  forall (cursor : Z) (k : nat) (p : ConnectionProgress),
    snapshotsOf i c cursor blocks !! k = Some p ->
    Progress.Id p = i /\ Progress.Begin p = Begin c /\
    Progress.End p = End c /\
    cursor <= Progress.Current p <= cursor + Z.of_nat (length (concat blocks)).
Proof.
  induction blocks as [|b bs IH]; intros cursor k p; [done|].
  cbn [snapshotsOf concat]. rewrite length_app.
  destruct k as [|k]; cbn [lookup list_lookup].
  - intros [= <-]. cbn. lia.
  - intros Hp. destruct (IH _ _ _ Hp) as (? & ? & ? & ?).
    split_and!; [done | done | done | lia | lia].
Qed.

Lemma snapshotsOf_last (i : Z) (c : Chunk) (blocks : list (list byte)) :
  forall cursor : Z,
    blocks <> [] ->
    exists p, last (snapshotsOf i c cursor blocks) = Some p /\
      Progress.Current p = cursor + Z.of_nat (length (concat blocks)).
Proof.
  induction blocks as [|b bs IH]; intros cursor Hne; [done|].
  cbn [snapshotsOf concat]. rewrite length_app.
  destruct bs as [|b' bs'].
  - cbn. eexists. split; [reflexivity|]. cbn. lia.
  - destruct (IH (cursor + Z.of_nat (length b)) ltac:(done)) as (p & Hp & Hc).
    exists p. cbn [snapshotsOf] in *. rewrite last_cons_cons.
    split; [done|]. lia.
Qed.

Section CopyFacts.

Variable may_write : Z -> nat -> bool.
Hypothesis disk_accepts : forall off n, may_write off n = true.

(** The copy of a body that arrives whole, when every send on [progress]
    is received (or none is made). *)
Lemma downloadChunk_copy_blocks (feedback : bool) (i : Z) (c : Chunk)
    (blocks : list (list byte)) (rest : list readResult) :
  forall (taken : nat) (f : list byte) (cursor : Z),
    0 <= cursor ->
    cursor + Z.of_nat (length (concat blocks)) < two63 ->
    (feedback = true -> (length blocks <= taken)%nat) ->
    downloadChunk_copy may_write feedback taken i c
      (map (fun b => mkRead b false) blocks ++ mkRead [] true :: rest) f cursor
    = (overlay f (concat blocks) (Z.to_nat cursor),
       if feedback then snapshotsOf i c cursor blocks else [],
       SendsDone).
Proof.
  induction blocks as [|b blocks IH]; intros taken f cursor Hc Hlen Htaken.
  - cbn. by destruct feedback.
  - cbn [map app downloadChunk_copy readEOF readData concat] in *.
    rewrite length_app in Hlen.
    unfold file_WriteAt. rewrite disk_accepts.
    replace (cursor <? 0) with false by (symmetry; apply Z.ltb_ge; lia).
    cbn [negb orb].
    rewrite wrap64_small by (unfold in_int64, two63 in *; lia).
    replace (Z.to_nat cursor + length b)%nat
      with (Z.to_nat (cursor + Z.of_nat (length b))) by lia.
    destruct feedback.
    + specialize (Htaken eq_refl). cbn [length] in Htaken.
      destruct taken as [|taken]; [lia|].
      rewrite IH by (lia || (intros _; lia)).
      replace (Z.to_nat (cursor + Z.of_nat (length b)))
        with (Z.to_nat cursor + length b)%nat by lia.
      by rewrite overlay_app.
    + rewrite IH by (lia || done).
      replace (Z.to_nat (cursor + Z.of_nat (length b)))
        with (Z.to_nat cursor + length b)%nat by lia.
      by rewrite overlay_app.
Qed.

(** The copy when the receiver leaves after [taken] snapshots and the body
    has more blocks than that: the block after them is written, its
    snapshot is never received. *)
Lemma downloadChunk_copy_unreceived (i : Z) (c : Chunk)
    (blocks : list (list byte)) (rest : list readResult) :
  forall (taken : nat) (f : list byte) (cursor : Z),
    0 <= cursor ->
    cursor + Z.of_nat (length (concat blocks)) < two63 ->
    (taken < length blocks)%nat ->
    downloadChunk_copy may_write true taken i c
      (map (fun b => mkRead b false) blocks ++ rest) f cursor
    = (overlay f (concat (take (S taken) blocks)) (Z.to_nat cursor),
       snapshotsOf i c cursor (take taken blocks),
       AwaitsReceiver).
Proof.
  induction blocks as [|b blocks IH]; intros taken f cursor Hc Hlen Htaken;
    [cbn in Htaken; lia|].
  cbn [map app downloadChunk_copy readEOF readData concat length] in *.
  rewrite length_app in Hlen.
  unfold file_WriteAt. rewrite disk_accepts.
  replace (cursor <? 0) with false by (symmetry; apply Z.ltb_ge; lia).
  cbn [negb orb].
  rewrite wrap64_small by (unfold in_int64, two63 in *; lia).
  destruct taken as [|taken].
  - cbn [take concat snapshotsOf]. by rewrite app_nil_r.
  - rewrite IH by lia.
    cbn [take concat snapshotsOf].
    replace (Z.to_nat (cursor + Z.of_nat (length b)))
      with (Z.to_nat cursor + length b)%nat by lia.
    by rewrite overlay_app.
Qed.

Lemma snapshotsOf_length (i : Z) (c : Chunk) (blocks : list (list byte)) :
  forall cursor : Z, length (snapshotsOf i c cursor blocks) = length blocks.
Proof.
  induction blocks as [|b blocks IH]; intros cursor; [done|].
  cbn [snapshotsOf length]. by rewrite IH.
Qed.

(** X13.  Let the body of the response arrive whole, in blocks of any
    sizes, and let the disk accept every write.  Without a progress function
    the copy loop of a worker leaves the file as one write of the whole body
    at the chunk's [Begin] would and signals [done].  With a progress
    function it does the same provided each of its sends on [progress], one
    per block, is received: the snapshots carry the worker's index, the
    chunk's bounds and the position reached after the block, the last one
    the end of the body.  When the receiver takes only [taken] snapshots,
    fewer than there are blocks, the loop writes one block more and then
    waits for ever on its send: [done] is not signalled and the rest of the
    body is not written. *)
Theorem downloadChunk_copy_writes_body (feedback : bool) (taken : nat) (i : Z)
    (c : Chunk) (reads : list readResult) (blocks : list (list byte))
    (f : list byte) :
  reads = map (fun b => mkRead b false) blocks ++ [mkRead [] true] ->
  0 <= Begin c ->
  Begin c + Z.of_nat (length (concat blocks)) < two63 ->
  (feedback = false ->
     downloadChunk_copy may_write feedback taken i c reads f (Begin c)
     = (overlay f (concat blocks) (Z.to_nat (Begin c)), [], SendsDone)) /\
  (feedback = true -> (length blocks <= taken)%nat ->
     exists ps,
       downloadChunk_copy may_write feedback taken i c reads f (Begin c)
       = (overlay f (concat blocks) (Z.to_nat (Begin c)), ps, SendsDone) /\
       length ps = length blocks /\
       (forall (k : nat) p, ps !! k = Some p ->
          Progress.Id p = i /\ Progress.Begin p = Begin c /\
          Progress.End p = End c /\
          Begin c <= Progress.Current p
                  <= Begin c + Z.of_nat (length (concat blocks))) /\
       (blocks <> [] ->
          exists p, last ps = Some p /\
            Progress.Current p
            = Begin c + Z.of_nat (length (concat blocks)))) /\
  (feedback = true -> (taken < length blocks)%nat ->
     exists ps,
       downloadChunk_copy may_write feedback taken i c reads f (Begin c)
       = (overlay f (concat (take (S taken) blocks)) (Z.to_nat (Begin c)),
          ps, AwaitsReceiver) /\
       length ps = taken).
Proof.
  intros -> HB Hlen. split_and!.
  - intros ->. by rewrite downloadChunk_copy_blocks.
  - intros -> Htaken.
    rewrite downloadChunk_copy_blocks by done.
    eexists. split; [reflexivity|]. split_and!.
    + apply snapshotsOf_length.
    + intros k p Hp. by apply (snapshotsOf_lookup i c blocks _ k).
    + intros Hne. by apply snapshotsOf_last.
  - intros -> Htaken.
    rewrite downloadChunk_copy_unreceived by done.
    eexists. split; [reflexivity|].
    rewrite snapshotsOf_length, length_take. lia.
Qed.

(** X14.  The copy loop signals [done] only at a read that reports
    [io.EOF], after reads that do not; the bytes of the read that reports it
    are not written, and reads after it are not made.  In particular a
    sequence of reads none of which reports [io.EOF], whatever errors they
    carry, never ends the loop with [done].  With a progress function, the
    snapshots of all the reads before that one have been received. *)
Theorem downloadChunk_copy_done_only_on_EOF (feedback : bool) (taken : nat)
    (i : Z) (c : Chunk) (reads : list readResult) (f f' : list byte)
    (cursor : Z) (ps : list ConnectionProgress) :
  downloadChunk_copy may_write feedback taken i c reads f cursor
  = (f', ps, SendsDone) ->
  exists pre rd post,
    reads = pre ++ rd :: post /\ readEOF rd = true /\
    Forall (fun r => readEOF r = false) pre /\
    downloadChunk_copy may_write feedback taken i c (pre ++ [mkRead [] true])
      f cursor
    = (f', ps, SendsDone) /\
    (feedback = true -> (length pre <= taken)%nat).
Proof.
  revert taken f f' cursor ps.
  induction reads as [|rd reads IH]; intros taken f f' cursor ps.
  - done.
  - cbn [downloadChunk_copy]. destruct (readEOF rd) eqn:Heof.
    + intros [= <- <-]. exists [], rd, reads.
      split_and!; [done | done | done | done | cbn; lia].
    + destruct (file_WriteAt _ _ _ _) as [f1|] eqn:Hw; [|done].
      destruct feedback.
      * destruct taken as [|taken]; [done|].
        destruct (downloadChunk_copy _ _ _ _ _ reads _ _) as [[f2 ps2] e2] eqn:Hrec.
        intros [= <- <- ->].
        destruct (IH _ _ _ _ _ Hrec)
          as (pre & rd' & post & -> & He & Hpre & Hcopy & Htaken).
        exists (rd :: pre), rd', post.
        split_and!; [done | done | by constructor | |].
        -- cbn [app downloadChunk_copy]. by rewrite Heof, Hw, Hcopy.
        -- intros _. specialize (Htaken eq_refl). cbn [length]. lia.
      * intros Hrec.
        destruct (IH _ _ _ _ _ Hrec)
          as (pre & rd' & post & -> & He & Hpre & Hcopy & _).
        exists (rd :: pre), rd', post.
        split_and!; [done | done | by constructor | | done].
        cbn [app downloadChunk_copy]. by rewrite Heof, Hw.
Qed.

End CopyFacts.

(** ** One pass of a worker over the mirrors *)

(** Attempt [t] of worker [i] takes the URL at place [(i + t) mod numUrls]:
    the [t]-th URL of the list rotated by [i]. *)
Lemma selected_url (urls : list string) (i : Z) (t : nat) :
  0 <= i ->
  i + Z.of_nat (length urls) < two63 ->
  (t < length urls)%nat ->
  index_Z urls (Z.rem (wrap64 (i + Z.of_nat t)) (Z.of_nat (length urls)))
  = rotate (Z.to_nat i) urls !! t.
Proof.
  intros Hi Hr Ht.
  rewrite wrap64_small by (unfold in_int64, two63 in *; lia).
  rewrite Z.rem_mod_nonneg by lia.
  pose proof (Z.mod_pos_bound (i + Z.of_nat t) (Z.of_nat (length urls)) ltac:(lia)).
  unfold index_Z.
  replace (0 <=? _) with true by (symmetry; apply Z.leb_le; lia).
  replace (_ <? Z.of_nat (length urls)) with true by (symmetry; apply Z.ltb_lt; lia).
  cbn [andb]. rewrite lookup_rotate_r by done.
  unfold rotate_nat_add. by rewrite Z2Nat.id.
Qed.

Section TriesFacts.

Variable may_write : Z -> nat -> bool.
Variable NewRequest : string -> bool.
Variable client_Do : string -> string -> option (list readResult).

Lemma downloadChunk_tries_all_fail (dldr : MultiDownloader) (feedback : bool)
    (taken : nat) (i : Z) (c : Chunk) (f : list byte) :
  0 <= i ->
  i + Z.of_nat (length (urls dldr)) < two63 ->
  index_Z (chunks dldr) i = Some c ->
  forall (fuel t : nat),
    (t + fuel = length (urls dldr))%nat ->
    (forall (j : nat) u, (t <= j)%nat ->
       rotate (Z.to_nat i) (urls dldr) !! j = Some u ->
       NewRequest u = false \/ client_Do u (rangeHeader c) = None) ->
    downloadChunk_tries may_write NewRequest client_Do fuel dldr feedback taken i
      (Z.of_nat t) f
    = (f, [], Sends failed).
Proof.
  intros Hi Hr Hc fuel.
  induction fuel as [|fuel IH]; intros t Ht Hfail.
  - cbn [downloadChunk_tries].
    by replace (Z.of_nat t <? _) with false by (symmetry; apply Z.ltb_ge; lia).
  - cbn [downloadChunk_tries].
    replace (Z.of_nat t <? _) with true by (symmetry; apply Z.ltb_lt; lia).
    cbn [negb]. rewrite selected_url by (done || lia).
    destruct (lookup_lt_is_Some_2 (rotate (Z.to_nat i) (urls dldr)) t) as [u Hu].
    { rewrite length_rotate. lia. }
    rewrite Hu, Hc.
    rewrite (wrap64_small (Z.of_nat t + 1)) by (unfold in_int64, two63 in *; lia).
    replace (Z.of_nat t + 1) with (Z.of_nat (S t)) by lia.
    destruct (Hfail t u ltac:(lia) Hu) as [-> | ->]; cbn [negb].
    + apply IH; [lia|]. intros j u' Hj. apply Hfail. lia.
    + destruct (NewRequest u); cbn [negb];
        (apply IH; [lia|]; intros j u' Hj; apply Hfail; lia).
Qed.

Lemma downloadChunk_tries_first_success (dldr : MultiDownloader) (feedback : bool)
    (taken : nat) (i : Z) (c : Chunk) (f : list byte) (m : nat) (u : string)
    (reads : list readResult) :
  0 <= i ->
  i + Z.of_nat (length (urls dldr)) < two63 ->
  index_Z (chunks dldr) i = Some c ->
  rotate (Z.to_nat i) (urls dldr) !! m = Some u ->
  NewRequest u = true ->
  client_Do u (rangeHeader c) = Some reads ->
  forall (fuel t : nat),
    (t + fuel = length (urls dldr))%nat ->
    (t <= m)%nat ->
    (forall (j : nat) u', (t <= j < m)%nat ->
       rotate (Z.to_nat i) (urls dldr) !! j = Some u' ->
       NewRequest u' = false \/ client_Do u' (rangeHeader c) = None) ->
    downloadChunk_tries may_write NewRequest client_Do fuel dldr feedback taken i
      (Z.of_nat t) f
    = (let '(f', ps, e) :=
         downloadChunk_copy may_write feedback taken i c reads f (Begin c) in
       (f', ps, roundEnd_of e)).
Proof.
  intros Hi Hr Hc Hm Hnew Hdo fuel.
  assert (Hmlt : (m < length (urls dldr))%nat).
  { apply lookup_lt_Some in Hm. by rewrite length_rotate in Hm. }
  induction fuel as [|fuel IH]; intros t Ht Htm Hfail; [lia|].
  cbn [downloadChunk_tries].
  replace (Z.of_nat t <? _) with true by (symmetry; apply Z.ltb_lt; lia).
  cbn [negb]. rewrite selected_url by (done || lia).
  destruct (decide (t = m)) as [->|Hne].
  - by rewrite Hm, Hnew, Hc, Hdo.
  - destruct (lookup_lt_is_Some_2 (rotate (Z.to_nat i) (urls dldr)) t) as [u' Hu'].
    { rewrite length_rotate. lia. }
    rewrite Hu', Hc.
    rewrite (wrap64_small (Z.of_nat t + 1)) by (unfold in_int64, two63 in *; lia).
    replace (Z.of_nat t + 1) with (Z.of_nat (S t)) by lia.
    destruct (Hfail t u' ltac:(lia) Hu') as [-> | ->]; cbn [negb].
    + apply IH; [lia | lia |]. intros j u'' Hj. apply Hfail. lia.
    + destruct (NewRequest u'); cbn [negb];
        (apply IH; [lia | lia |]; intros j u'' Hj; apply Hfail; lia).
Qed.

(** X15.  One pass of worker [i] tries the mirrors in the cyclic order of
    the list that starts at mirror [i mod numUrls], each once.  It signals
    [failed], leaving the file untouched, when for every mirror the request
    cannot be built or sent; otherwise it copies the body from the first
    mirror in that order that answers, whatever the status of the answer,
    and ends as that copy ends (with [done], with [log.Fatal], or waiting
    for a read or for the receiver of a snapshot), without trying the
    mirrors after it. *)
Theorem downloadChunk_round_failover (dldr : MultiDownloader) (feedback : bool)
    (taken : nat) (i : Z) (c : Chunk) (f : list byte) :
  0 <= i ->
  i + Z.of_nat (length (urls dldr)) < two63 ->
  index_Z (chunks dldr) i = Some c ->
  (Forall (fun u => NewRequest u = false \/ client_Do u (rangeHeader c) = None)
     (urls dldr) ->
   downloadChunk_round may_write NewRequest client_Do dldr feedback taken i f
   = (f, [], Sends failed)) /\
  (forall pre u post reads,
     rotate (Z.to_nat i) (urls dldr) = pre ++ u :: post ->
     Forall (fun u => NewRequest u = false \/ client_Do u (rangeHeader c) = None)
       pre ->
     NewRequest u = true ->
     client_Do u (rangeHeader c) = Some reads ->
     downloadChunk_round may_write NewRequest client_Do dldr feedback taken i f
     = (let '(f', ps, e) :=
          downloadChunk_copy may_write feedback taken i c reads f (Begin c) in
        (f', ps, roundEnd_of e))).
Proof.
  intros Hi Hr Hc. unfold downloadChunk_round. split.
  - intros Hall.
    apply (downloadChunk_tries_all_fail dldr feedback taken i c f Hi Hr Hc _ 0%nat);
      [lia|].
    intros j u _ Hu. rewrite Forall_forall in Hall. apply Hall.
    apply (elem_of_rotate _ (Z.to_nat i)). by eapply list_elem_of_lookup_2.
  - intros pre u post reads Hrot Hpre Hnew Hdo.
    apply (downloadChunk_tries_first_success dldr feedback taken i c f (length pre) u
             reads Hi Hr Hc) with (t := 0%nat); [| done | done | lia | lia |].
    + rewrite Hrot. by rewrite list_lookup_middle.
    + intros j u' Hj Hu'. rewrite Forall_forall in Hpre. apply Hpre.
      rewrite Hrot, lookup_app_l in Hu' by lia.
      by eapply list_elem_of_lookup_2.
Qed.

End TriesFacts.

(** ** All chunks copied into the pre-sized file *)

(** A write inside the file changes the bytes written and nothing else. *)
Lemma overlay_inside (f b : list byte) (off : nat) :
  (off + length b <= length f)%nat ->
  length (overlay f b off) = length f /\
  forall k : nat,
    overlay f b off !! k
    = if decide (off <= k < off + length b)%nat then b !! (k - off)%nat else f !! k.
Proof.
  intros Hin. destruct (decide (b = [])) as [->|Hb].
  { cbn [overlay length]. split; [done|]. intros k. case_decide; [lia | done]. }
  rewrite overlay_nonempty by done.
  replace (off - length f)%nat with 0%nat by lia.
  cbn [replicate]. rewrite app_nil_r. split.
  - rewrite !length_app, length_take, length_drop. lia.
  - intros k. case_decide as Hk.
    + rewrite lookup_app_r by (rewrite length_take; lia).
      rewrite length_take, Nat.min_l by lia.
      rewrite lookup_app_l by lia. done.
    + destruct (decide (k < off)%nat).
      * rewrite lookup_app_l by (rewrite length_take; lia).
        by rewrite lookup_take_lt.
      * rewrite lookup_app_r by (rewrite length_take; lia).
        rewrite length_take, Nat.min_l by lia.
        rewrite lookup_app_r by lia.
        rewrite lookup_drop. f_equal. lia.
Qed.

Lemma servedRange_spec (content : list byte) (c : Chunk) :
  0 <= Begin c <= End c ->
  End c <= Z.of_nat (length content) ->
  Z.of_nat (length (servedRange content c))
  = Z.min (End c + 1) (Z.of_nat (length content)) - Begin c /\
  forall j : nat,
    (j < length (servedRange content c))%nat ->
    servedRange content c !! j = content !! (Z.to_nat (Begin c) + j)%nat.
Proof.
  intros HB HE. unfold servedRange. split.
  - rewrite length_take, length_drop. lia.
  - intros j Hj. rewrite length_take in Hj.
    rewrite lookup_take_lt by lia. by rewrite lookup_drop.
Qed.

(** Every byte position of the file lies in some chunk of the table. *)
Lemma chunkTable_covers (q r : Z) (n : nat) (k : Z) :
  0 <= q -> 0 <= r < Z.of_nat n ->
  0 <= k < Z.of_nat n * q + r ->
  exists i : nat, (i < n)%nat /\
    Begin (chunkAt q r i) <= k < End (chunkAt q r i).
Proof.
  intros Hq Hr Hk.
  assert (Hstep : forall m : nat, (m <= n)%nat ->
            (exists i : nat, (i < m)%nat /\
               Begin (chunkAt q r i) <= k < End (chunkAt q r i))
            \/ Z.of_nat m * q + Z.min (Z.of_nat m) r <= k).
  { induction m as [|m IH]; intros Hm.
    - right. lia.
    - destruct (IH ltac:(lia)) as [(i & Hi & Hc)|Hlow].
      + left. exists i. split; [lia | done].
      + destruct (Z_lt_le_dec k (Z.of_nat (S m) * q + Z.min (Z.of_nat (S m)) r))
          as [Hlt|Hge]; [|by right].
        left. exists m. split; [lia|]. unfold chunkAt. cbn [Begin End].
        replace (Z.of_nat m + 1) with (Z.of_nat (S m)) by lia. lia. }
  destruct (Hstep n ltac:(lia)) as [Hex|Hlow]; [done|].
  rewrite Z.min_r in Hlow by lia. lia.
Qed.

Section CopyAllFacts.

Variable may_write : Z -> nat -> bool.
Hypothesis disk_accepts : forall off n, may_write off n = true.
Variable may_allocate : Z -> bool.

Lemma copyAll_keeps_right_bytes (content : list byte) :
  Z.of_nat (length content) < two63 ->
  forall (jobs : list (Chunk * list readResult)) (f : list byte),
    length f = length content ->
    Forall (fun job =>
              0 <= Begin job.1 <= End job.1 /\
              End job.1 <= Z.of_nat (length content) /\
              delivers job.2 (servedRange content job.1)) jobs ->
    exists f',
      copyAll may_write jobs f = Some f' /\
      length f' = length content /\
      (forall k : nat, f !! k = content !! k -> f' !! k = content !! k) /\
      (forall c (k : nat), c ∈ jobs.*1 ->
         Begin c <= Z.of_nat k < End c -> f' !! k = content !! k).
Proof.
  intros HL jobs.
  induction jobs as [|[c reads] jobs IH]; intros f Hlen Hjobs.
  - exists f. split_and!; [done | done | done |].
    intros c k Hc. by apply elem_of_nil in Hc.
  - apply Forall_cons in Hjobs as [(HB & HE & Hdel) Hjobs]. cbn [fst snd] in *.
    destruct (servedRange_spec content c HB HE) as [Hrl Hrk].
    destruct Hdel as (blocks & -> & Hbody).
    cbn [copyAll].
    rewrite (downloadChunk_copy_blocks may_write disk_accepts)
      by (rewrite ?Hbody; (lia || done)).
    rewrite Hbody.
    destruct (overlay_inside f (servedRange content c) (Z.to_nat (Begin c))
                ltac:(lia)) as [Hol Hok].
    assert (Hol' : length (overlay f (servedRange content c) (Z.to_nat (Begin c)))
                   = length content) by lia.
    destruct (IH _ Hol' Hjobs) as (f' & -> & Hl' & Hkeep & Hnew).
    assert (Hfirst : forall k : nat,
              (f !! k = content !! k \/ Begin c <= Z.of_nat k < End c) ->
              overlay f (servedRange content c) (Z.to_nat (Begin c)) !! k
              = content !! k).
    { intros k Hk. rewrite Hok. case_decide as Hin.
      - rewrite Hrk by lia. f_equal. lia.
      - destruct Hk as [Hk|Hk]; [done|]. lia. }
    exists f'. split_and!; [done | done | |].
    + intros k Hk. apply Hkeep, Hfirst. by left.
    + intros c' k Hc' Hk. cbn [fmap list_fmap fst] in Hc'.
      apply elem_of_cons in Hc' as [->|Hc'].
      * apply Hkeep, Hfirst. by right.
      * by apply (Hnew c').
Qed.

(** X16.  Let the staging file have the agreed length and let the chunk
    table be the one [buildChunks] stores, for a worker count whose table
    can be made.  If every chunk is copied at least
    once, in any order and any number of times, each time from a response
    that delivers the bytes [Begin .. End] of the same content (both ends
    included, cut at the end of the content), then the file ends up equal to
    that content: the byte that two neighbouring requests both fetch is
    written twice with the same value, and nothing is written outside the
    file. *)
Theorem copyAll_rebuilds_content (dldr : MultiDownloader)
    (content f : list byte) (jobs : list (Chunk * list readResult)) :
  0 <= fileLength dldr < two63 ->
  1 <= nConns dldr ->
  sizeof_Chunk * nConns dldr <= maxAlloc ->
  may_allocate (sizeof_Chunk * nConns dldr) = true ->
  Z.of_nat (length content) = fileLength dldr ->
  length f = length content ->
  (forall c, c ∈ chunks (buildChunks may_allocate dldr).1 -> c ∈ jobs.*1) ->
  (forall c reads, (c, reads) ∈ jobs ->
     c ∈ chunks (buildChunks may_allocate dldr).1 /\ delivers reads (servedRange content c)) ->
  copyAll may_write jobs f = Some content.
Proof.
  intros Hfl Hn Hfit Hmem HL Hlen Hall Hjobs.
  rewrite buildChunks_closed_form in Hall, Hjobs by done.
  cbn [fst chunks set_chunks] in Hall, Hjobs.
  set (q := fileLength dldr / nConns dldr) in *.
  set (r := fileLength dldr mod nConns dldr) in *.
  pose proof (Z.mod_pos_bound (fileLength dldr) (nConns dldr) ltac:(lia)) as Hr.
  pose proof (Z.div_mod (fileLength dldr) (nConns dldr) ltac:(lia)) as Hdm.
  assert (Hq : 0 <= q) by (apply Z.div_pos; lia).
  fold q r in Hr, Hdm.
  assert (Hbounds : forall c, c ∈ chunkTable q r (Z.to_nat (nConns dldr)) ->
            0 <= Begin c <= End c /\ End c <= Z.of_nat (length content)).
  { intros c Hc. apply list_elem_of_lookup in Hc as [i Hi].
    apply chunkTable_lookup in Hi as [Hi ->].
    unfold chunkAt. cbn [Begin End]. nia. }
  destruct (copyAll_keeps_right_bytes content ltac:(lia) jobs f Hlen)
    as (f' & -> & Hl' & _ & Hnew).
  { apply Forall_forall. intros [c reads] Hjob. cbn [fst snd].
    destruct (Hjobs _ _ Hjob) as [Hc Hd]. destruct (Hbounds c Hc). done. }
  f_equal. apply list_eq. intros k.
  destruct (decide (k < length content)%nat) as [Hk|Hk].
  - destruct (chunkTable_covers q r (Z.to_nat (nConns dldr)) (Z.of_nat k) Hq
                ltac:(lia) ltac:(lia)) as (i & Hi & Hc).
    apply (Hnew (chunkAt q r i)); [|done].
    apply Hall. eapply list_elem_of_lookup_2. by apply chunkTable_lookup_lt.
  - rewrite !lookup_ge_None_2 by lia. done.
Qed.

End CopyAllFacts.

(** ** The writes of all workers, interleaved *)

Section InterleavedWrites.

Variable may_write : Z -> nat -> bool.
Hypothesis disk_accepts : forall off n, may_write off n = true.
Variable may_allocate : Z -> bool.

(** The copy loop makes the writes [blockWrites], in their order: all of
    them when its snapshots are received (or none is sent), and the first
    [taken + 1] of them when only [taken] snapshots are. *)
Lemma downloadChunk_copy_as_writes (feedback : bool) (i : Z) (c : Chunk)
    (blocks : list (list byte)) (rest : list readResult) :
  forall (taken : nat) (f : list byte) (cursor : Z),
    0 <= cursor ->
    cursor + Z.of_nat (length (concat blocks)) < two63 ->
    Some (downloadChunk_copy may_write feedback taken i c
            (map (fun b => mkRead b false) blocks ++ mkRead [] true :: rest)
            f cursor).1.1
    = applyWrites may_write
        (if feedback then take (S taken) (blockWrites cursor blocks)
         else blockWrites cursor blocks) f.
Proof.
  induction blocks as [|b blocks IH]; intros taken f cursor Hc Hlen;
    [by destruct feedback|].
  cbn [map app downloadChunk_copy readEOF readData concat blockWrites] in *.
  rewrite length_app in Hlen.
  unfold file_WriteAt at 1. rewrite disk_accepts.
  replace (cursor <? 0) with false by (symmetry; apply Z.ltb_ge; lia).
  cbn [negb orb].
  rewrite wrap64_small by (unfold in_int64, two63 in *; lia).
  destruct feedback.
  - cbn [take applyWrites]. unfold file_WriteAt at 1. rewrite disk_accepts.
    replace (cursor <? 0) with false by (symmetry; apply Z.ltb_ge; lia).
    cbn [negb orb].
    destruct taken as [|taken]; [done|].
    rewrite <- (IH taken) by lia.
    by destruct (downloadChunk_copy _ _ _ _ _ _ _ _) as [[f' ps] e].
  - cbn [applyWrites]. unfold file_WriteAt at 1. rewrite disk_accepts.
    replace (cursor <? 0) with false by (symmetry; apply Z.ltb_ge; lia).
    cbn [negb orb].
    by rewrite <- (IH taken) by lia.
Qed.

Lemma blockWrites_right (content : list byte) (blocks : list (list byte)) :
  forall cursor : Z,
    0 <= cursor ->
    cursor + Z.of_nat (length (concat blocks)) <= Z.of_nat (length content) ->
    (forall j : nat, (j < length (concat blocks))%nat ->
       concat blocks !! j = content !! (Z.to_nat cursor + j)%nat) ->
    Forall (right_write content) (blockWrites cursor blocks).
Proof.
  induction blocks as [|b blocks IH]; intros cursor Hc Hlen Hbytes; [constructor|].
  cbn [concat blockWrites] in *. rewrite length_app in Hlen, Hbytes.
  constructor.
  - unfold right_write. cbn [fst snd]. split_and!; [lia | lia |].
    intros j Hj. rewrite <- Hbytes by lia. by rewrite lookup_app_l.
  - apply IH; [lia | lia |]. intros j Hj.
    replace (Z.to_nat (cursor + Z.of_nat (length b)) + j)%nat
      with (Z.to_nat cursor + (length b + j))%nat by lia.
    rewrite <- Hbytes by lia.
    rewrite lookup_app_r by lia. f_equal. lia.
Qed.

Lemma blockWrites_cover (blocks : list (list byte)) :
  forall (cursor k : Z),
    cursor <= k < cursor + Z.of_nat (length (concat blocks)) ->
    exists w, w ∈ blockWrites cursor blocks /\
      w.1 <= k < w.1 + Z.of_nat (length w.2).
Proof.
  induction blocks as [|b blocks IH]; intros cursor k Hk.
  - cbn in Hk. lia.
  - cbn [concat blockWrites] in *. rewrite length_app in Hk.
    destruct (Z_lt_le_dec k (cursor + Z.of_nat (length b))) as [Hin|Hout].
    + exists (cursor, b). split; [apply list_elem_of_here | cbn; lia].
    + destruct (IH (cursor + Z.of_nat (length b)) k ltac:(lia)) as (w & Hw & Hkw).
      exists w. split; [by apply list_elem_of_further | done].
Qed.

Lemma applyWrites_right (content : list byte) :
  forall (ws : list (Z * list byte)) (f : list byte),
    length f = length content ->
    Forall (right_write content) ws ->
    exists f',
      applyWrites may_write ws f = Some f' /\
      length f' = length content /\
      (forall k : nat, f !! k = content !! k -> f' !! k = content !! k) /\
      (forall w (k : nat), w ∈ ws ->
         w.1 <= Z.of_nat k < w.1 + Z.of_nat (length w.2) ->
         f' !! k = content !! k).
Proof.
  induction ws as [|[off b] ws IH]; intros f Hlen Hws.
  - exists f. split_and!; [done | done | done |].
    intros w k Hw. by apply elem_of_nil in Hw.
  - apply Forall_cons in Hws as [(Hoff & Hend & Hbytes) Hws]. cbn [fst snd] in *.
    cbn [applyWrites]. unfold file_WriteAt. rewrite disk_accepts.
    replace (off <? 0) with false by (symmetry; apply Z.ltb_ge; lia).
    cbn [negb orb].
    destruct (overlay_inside f b (Z.to_nat off) ltac:(lia)) as [Hol Hok].
    assert (Hol' : length (overlay f b (Z.to_nat off)) = length content) by lia.
    destruct (IH _ Hol' Hws) as (f' & -> & Hl' & Hkeep & Hnew).
    assert (Hfirst : forall k : nat,
              (f !! k = content !! k
               \/ off <= Z.of_nat k < off + Z.of_nat (length b)) ->
              overlay f b (Z.to_nat off) !! k = content !! k).
    { intros k Hk. rewrite Hok. case_decide as Hin.
      - rewrite Hbytes by lia. f_equal. lia.
      - destruct Hk as [Hk|Hk]; [done|]. lia. }
    exists f'. split_and!; [done | done | |].
    + intros k Hk. apply Hkeep, Hfirst. by left.
    + intros w k Hw Hk. apply elem_of_cons in Hw as [->|Hw].
      * apply Hkeep, Hfirst. by right.
      * by apply (Hnew w).
Qed.

(** X24.  The same holds when the workers run together (the worker count
    being one whose table can be made).  Take for every
    chunk of the table at least one response that delivers the bytes
    [Begin .. End] of the content, in blocks of any sizes; the copy loop
    turns each response into the writes [blockWrites].  Whatever the order
    in which all these writes reach the pre-sized file, the file ends up
    equal to the content. *)
Theorem interleaved_writes_rebuild_content (dldr : MultiDownloader)
    (content f : list byte) (jobs : list (Chunk * list (list byte)))
    (trace : list (Z * list byte)) :
  0 <= fileLength dldr < two63 ->
  1 <= nConns dldr ->
  sizeof_Chunk * nConns dldr <= maxAlloc ->
  may_allocate (sizeof_Chunk * nConns dldr) = true ->
  Z.of_nat (length content) = fileLength dldr ->
  length f = length content ->
  (forall c, c ∈ chunks (buildChunks may_allocate dldr).1 -> c ∈ jobs.*1) ->
  (forall c blocks, (c, blocks) ∈ jobs ->
     c ∈ chunks (buildChunks may_allocate dldr).1 /\ concat blocks = servedRange content c) ->
  trace ≡ₚ concat (map (fun job => blockWrites (Begin job.1) job.2) jobs) ->
  applyWrites may_write trace f = Some content.
Proof.
  intros Hfl Hn Hfit Hmem HL Hlen Hall Hjobs Hperm.
  rewrite buildChunks_closed_form in Hall, Hjobs by done.
  cbn [fst chunks set_chunks] in Hall, Hjobs.
  set (q := fileLength dldr / nConns dldr) in *.
  set (r := fileLength dldr mod nConns dldr) in *.
  pose proof (Z.mod_pos_bound (fileLength dldr) (nConns dldr) ltac:(lia)) as Hr.
  pose proof (Z.div_mod (fileLength dldr) (nConns dldr) ltac:(lia)) as Hdm.
  assert (Hq : 0 <= q) by (apply Z.div_pos; lia).
  fold q r in Hr, Hdm.
  assert (Hbounds : forall c, c ∈ chunkTable q r (Z.to_nat (nConns dldr)) ->
            0 <= Begin c <= End c /\ End c <= Z.of_nat (length content)).
  { intros c Hc. apply list_elem_of_lookup in Hc as [i Hi].
    apply chunkTable_lookup in Hi as [Hi ->].
    unfold chunkAt. cbn [Begin End]. nia. }
  assert (Hright : Forall (right_write content) trace).
  { rewrite Hperm. apply Forall_concat, Forall_map, Forall_forall.
    intros [c blocks] Hjob. cbn [fst snd].
    destruct (Hjobs _ _ Hjob) as [Hc Hbody].
    destruct (Hbounds c Hc) as [HB HE].
    destruct (servedRange_spec content c HB HE) as [Hrl Hrk].
    apply blockWrites_right; rewrite ?Hbody; [lia | lia |].
    intros j Hj. by apply Hrk. }
  destruct (applyWrites_right content trace f Hlen Hright)
    as (f' & -> & Hl' & _ & Hnew).
  f_equal. apply list_eq. intros k.
  destruct (decide (k < length content)%nat) as [Hk|Hk].
  2:{ rewrite !lookup_ge_None_2 by lia. done. }
  destruct (chunkTable_covers q r (Z.to_nat (nConns dldr)) (Z.of_nat k) Hq
              ltac:(lia) ltac:(lia)) as (i & Hi & Hc).
  assert (Hci : chunkAt q r i ∈ chunkTable q r (Z.to_nat (nConns dldr))).
  { eapply list_elem_of_lookup_2. by apply chunkTable_lookup_lt. }
  apply Hall in Hci as Hjob. apply list_elem_of_fmap in Hjob as ([c blocks] & Hc' & Hjob).
  cbn [fst] in Hc'. subst c.
  destruct (Hjobs _ _ Hjob) as [_ Hbody].
  destruct (Hbounds _ Hci) as [HB HE].
  destruct (servedRange_spec content (chunkAt q r i) HB HE) as [Hrl _].
  destruct (blockWrites_cover blocks (Begin (chunkAt q r i)) (Z.of_nat k))
    as (w & Hw & Hkw); [rewrite Hbody; lia|].
  apply (Hnew w); [|done].
  rewrite Hperm. apply list_elem_of_In, in_concat.
  exists (blockWrites (Begin (chunkAt q r i)) blocks).
  split; [|by apply list_elem_of_In].
  apply (in_map (fun job => blockWrites (Begin job.1) job.2) jobs
           (chunkAt q r i, blocks)).
  by apply list_elem_of_In.
Qed.

End InterleavedWrites.

(** ** The progress table and the goroutine that keeps it *)

Lemma store_Progress_within (table : list ConnectionProgress)
    (p : ConnectionProgress) :
  id_within (length table) p ->
  store_Progress table (Progress.Id p) p
  = Some (<[Z.to_nat (Progress.Id p) := p]> table).
Proof.
  intros [Hlo Hhi]. unfold store_Progress.
  replace (0 <=? Progress.Id p) with true by (symmetry; apply Z.leb_le; lia).
  by replace (Progress.Id p <? _) with true by (symmetry; apply Z.ltb_lt; lia).
Qed.

Lemma lookup_stored_Progress (table : list ConnectionProgress)
    (p : ConnectionProgress) (i : nat) :
  id_within (length table) p ->
  <[Z.to_nat (Progress.Id p) := p]> table !! i
  = if Progress.Id p =? Z.of_nat i then Some p else table !! i.
Proof.
  intros [Hlo Hhi]. destruct (Z.eqb_spec (Progress.Id p) (Z.of_nat i)) as [He|He].
  - rewrite He, Nat2Z.id. apply list_lookup_insert_eq. lia.
  - apply list_lookup_insert_ne. lia.
Qed.

(** X17.  Every table passed to the progress function holds, for each
    chunk, the snapshot of that chunk that was received last (the initial
    entry when none was), and has as many entries as the initial table; the
    [k]-th call is made after the [k]-th snapshot. *)
Theorem Download_aggregator_latest_per_chunk (N : Z)
    (ps : list ConnectionProgress) :
  forall (complete : Z) (table : list ConnectionProgress)
         (calls : list (list ConnectionProgress))
         (final : list ConnectionProgress) (o : outcome unit),
    Download_aggregator N complete table ps = (calls, final, o) ->
    Forall (id_within (length table)) ps ->
    (length calls <= length ps)%nat /\
    forall (k : nat) t, calls !! k = Some t ->
      length t = length table /\
      forall i : nat, t !! i = latest i (take (S k) ps) (table !! i).
Proof.
  induction ps as [|p ps IH]; intros complete table calls final o Hagg Hin.
  - cbn [Download_aggregator] in Hagg.
    destruct (negb (complete <? N)); injection Hagg as <- _ _;
      (split; [done | intros k t Hk; by destruct k]).
  - cbn [Download_aggregator] in Hagg.
    destruct (negb (complete <? N)).
    { injection Hagg as <- _ _. split; [cbn; lia | intros k t Hk; by destruct k]. }
    apply Forall_cons in Hin as [Hp Hin].
    rewrite store_Progress_within in Hagg by done.
    destruct (Download_aggregator _ _ _ ps) as [[calls' final'] o'] eqn:Hrec.
    injection Hagg as <- _ _.
    destruct (IH _ _ _ _ _ Hrec) as [Hlen Hcalls].
    { by rewrite length_insert. }
    split; [cbn [length]; lia|].
    intros k t Hk. destruct k as [|k]; cbn [lookup list_lookup] in Hk.
    + injection Hk as <-. split; [by rewrite length_insert|].
      intros i. cbn [take latest]. by apply lookup_stored_Progress.
    + destruct (Hcalls k t Hk) as [Hl Hlat]. rewrite length_insert in Hl.
      split; [done|]. intros i. rewrite Hlat.
      cbn [take latest]. by rewrite lookup_stored_Progress.
Qed.

Lemma count_completes_nonneg (ps : list ConnectionProgress) :
  0 <= count_completes ps.
Proof. induction ps as [|p ps IH]; cbn [count_completes]; [lia|]. destruct (completes p); lia. Qed.

Lemma count_completes_app (a b : list ConnectionProgress) :
  count_completes (a ++ b) = count_completes a + count_completes b.
Proof. induction a as [|p a IH]; cbn [app count_completes]; lia. Qed.

Lemma Download_aggregator_stops (N : Z) (ps : list ConnectionProgress) :
  N < two63 ->
  forall (complete : Z) (table : list ConnectionProgress),
    0 <= complete ->
    Forall (id_within (length table)) ps ->
    (count_completes ps < N - complete ->
       (Download_aggregator N complete table ps).2 = Blocked /\
       length (Download_aggregator N complete table ps).1.1 = length ps) /\
    (N - complete <= count_completes ps ->
       (Download_aggregator N complete table ps).2 = Ok tt /\
       exists pre post, ps = pre ++ post /\
         (N - complete <= 0 -> pre = []) /\
         (0 < N - complete ->
            count_completes pre = N - complete /\
            exists pre' p, pre = pre' ++ [p] /\ completes p = true) /\
         length (Download_aggregator N complete table ps).1.1 = length pre).
Proof.
  intros HN.
  induction ps as [|p ps IH]; intros complete table Hc Hin.
  - cbn [Download_aggregator count_completes].
    destruct (Z.ltb_spec complete N); cbn [negb fst snd length].
    + split; [done | lia].
    + split; [lia|]. intros _. split; [done|]. exists [], []. split_and!; done || lia.
  - cbn [Download_aggregator count_completes].
    destruct (Z.ltb_spec complete N) as [Hlt|Hge]; cbn [negb].
    2:{ cbn [fst snd length]. pose proof (count_completes_nonneg ps).
        split; [destruct (completes p); lia|]. intros _. split; [done|].
        exists [], (p :: ps). split_and!; done || lia. }
    apply Forall_cons in Hin as [Hp Hin].
    rewrite store_Progress_within by done.
    fold (completes p).
    set (complete' := if completes p then wrap64 (complete + 1) else complete).
    assert (Hc' : complete' = complete + (if completes p then 1 else 0)).
    { subst complete'. destruct (completes p); [|lia].
      apply wrap64_small. unfold in_int64, two63 in *. lia. }
    destruct (IH complete' (<[Z.to_nat (Progress.Id p) := p]> table))
      as [Hwait Hstop]; [destruct (completes p); lia | by rewrite length_insert|].
    destruct (Download_aggregator N complete' _ ps) as [[calls final] o] eqn:Hrec.
    cbn [fst snd length] in *. split.
    + intros Hcnt. destruct Hwait as [-> ->]; [lia|]. done.
    + intros Hcnt.
      destruct Hstop as (-> & pre & post & -> & Hz & Hpos & ->); [lia|].
      split; [done|]. exists (p :: pre), post.
      split_and!; [done | lia | | done].
      intros _. cbn [count_completes].
      destruct (Z_le_gt_dec (N - complete') 0) as [Hdone|Hmore].
      * rewrite (Hz Hdone). cbn [count_completes].
        destruct (completes p) eqn:Hcp; [|lia]. split; [lia|]. by exists [], p.
      * destruct (Hpos ltac:(lia)) as (Hcp & pre' & p' & -> & Hp').
        split; [lia|]. by exists (p :: pre'), p'.
Qed.

(** X18.  Started with a table of [N = nConns >= 1] entries, the goroutine
    counts the snapshots whose [Current] has reached their [End], not the
    chunks: it keeps receiving while fewer than [N] such snapshots have come,
    and returns right after the [N]-th one, having called the progress
    function once per snapshot received; the snapshots after that one are
    never received. *)
Theorem Download_aggregator_counts_snapshots (N : Z)
    (table ps : list ConnectionProgress) :
  1 <= N < two63 ->
  Forall (id_within (length table)) ps ->
  (count_completes ps < N ->
     (Download_aggregator N 0 table ps).2 = Blocked /\
     length (Download_aggregator N 0 table ps).1.1 = length ps) /\
  (N <= count_completes ps ->
     (Download_aggregator N 0 table ps).2 = Ok tt /\
     exists pre p post, ps = pre ++ p :: post /\
       completes p = true /\ count_completes pre = N - 1 /\
       length (Download_aggregator N 0 table ps).1.1 = S (length pre)).
Proof.
  intros HN Hin.
  destruct (Download_aggregator_stops N ps ltac:(lia) 0 table ltac:(lia) Hin)
    as [Hwait Hstop].
  rewrite Z.sub_0_r in *. split; [exact Hwait|].
  intros Hcnt.
  destruct (Hstop Hcnt) as (Ho & pre & post & Hps & _ & Hpos & Hlen).
  split; [done|].
  destruct (Hpos ltac:(lia)) as (Hcp & pre' & p & -> & Hp).
  exists pre', p, post. split_and!; [by rewrite Hps, <- app_assoc | done | |].
  - rewrite count_completes_app in Hcp. cbn [count_completes] in Hcp.
    rewrite Hp in Hcp. lia.
  - rewrite Hlen, length_app. cbn [length]. lia.
Qed.

Lemma index_Z_lookup {A : Type} (l : list A) (k : nat) :
  (k < length l)%nat -> index_Z l (Z.of_nat k) = l !! k.
Proof.
  intros Hk. unfold index_Z.
  replace (0 <=? Z.of_nat k) with true by (symmetry; apply Z.leb_le; lia).
  replace (Z.of_nat k <? _) with true by (symmetry; apply Z.ltb_lt; lia).
  cbn [andb]. by rewrite Nat2Z.id.
Qed.

Lemma index_Z_beyond {A : Type} (l : list A) (i : Z) :
  Z.of_nat (length l) <= i -> index_Z l i = None.
Proof.
  intros Hi. unfold index_Z.
  replace (i <? _) with false by (symmetry; apply Z.ltb_ge; lia).
  by rewrite andb_false_r.
Qed.

Lemma Download_progressArray_loop_fills (n : Z) (cs : list Chunk) :
  n < two63 -> n <= Z.of_nat (length cs) ->
  forall (fuel k : nat) (table : list ConnectionProgress),
    Z.of_nat (k + fuel) = n ->
    Z.of_nat (length table) = n ->
    exists table',
      Download_progressArray_loop fuel n (Z.of_nat k) cs table = Ok table' /\
      length table' = length table /\
      (forall j : nat, (j < k)%nat -> table' !! j = table !! j) /\
      (forall (j : nat) c, (k <= j)%nat -> Z.of_nat j < n -> cs !! j = Some c ->
         table' !! j
         = Some (Progress.mk (Z.of_nat j) (Begin c) (End c) (Begin c))).
Proof.
  intros Hn Hcs fuel.
  induction fuel as [|fuel IH]; intros k table Hk Hlen.
  - exists table. cbn [Download_progressArray_loop].
    replace (Z.of_nat k <? n) with false by (symmetry; apply Z.ltb_ge; lia).
    split_and!; [done | done | done | intros; lia].
  - cbn [Download_progressArray_loop].
    replace (Z.of_nat k <? n) with true by (symmetry; apply Z.ltb_lt; lia).
    cbn [negb]. rewrite index_Z_lookup by lia.
    destruct (lookup_lt_is_Some_2 cs k ltac:(lia)) as [c Hc]. rewrite Hc.
    unfold store_Progress.
    replace (0 <=? Z.of_nat k) with true by (symmetry; apply Z.leb_le; lia).
    replace (Z.of_nat k <? Z.of_nat (length table)) with true
      by (symmetry; apply Z.ltb_lt; lia).
    cbn [andb]. rewrite Nat2Z.id.
    rewrite wrap64_small by (unfold in_int64, two63 in *; lia).
    replace (Z.of_nat k + 1) with (Z.of_nat (S k)) by lia.
    destruct (IH (S k) (<[k := Progress.mk (Z.of_nat k) (Begin c) (End c) (Begin c)]> table))
      as (table' & -> & Hl & Hold & Hnew); [lia | by rewrite length_insert |].
    rewrite length_insert in Hl.
    exists table'. split_and!; [done | done | |].
    + intros j Hj. rewrite Hold by lia. apply list_lookup_insert_ne. lia.
    + intros j c' Hj Hjn Hc'. destruct (decide (j = k)) as [->|Hne].
      * rewrite Hold by lia. rewrite list_lookup_insert_eq by lia. congruence.
      * apply Hnew; [lia | done | done].
Qed.

Lemma Download_progressArray_loop_short (n : Z) (cs : list Chunk) :
  n < two63 -> Z.of_nat (length cs) < n ->
  forall (fuel k : nat) (table : list ConnectionProgress),
    Z.of_nat (k + fuel) = n ->
    (k <= length cs)%nat ->
    Z.of_nat (length table) = n ->
    Download_progressArray_loop fuel n (Z.of_nat k) cs table = Panic IndexOutOfRange.
Proof.
  intros Hn Hcs fuel.
  induction fuel as [|fuel IH]; intros k table Hk Hkc Hlen; [lia|].
  cbn [Download_progressArray_loop].
  replace (Z.of_nat k <? n) with true by (symmetry; apply Z.ltb_lt; lia).
  cbn [negb]. destruct (decide (k = length cs)) as [->|Hne].
  - by rewrite index_Z_beyond.
  - rewrite index_Z_lookup by lia.
    destruct (lookup_lt_is_Some_2 cs k ltac:(lia)) as [c Hc]. rewrite Hc.
    unfold store_Progress.
    replace (0 <=? Z.of_nat k) with true by (symmetry; apply Z.leb_le; lia).
    replace (Z.of_nat k <? Z.of_nat (length table)) with true
      by (symmetry; apply Z.ltb_lt; lia).
    cbn [andb].
    rewrite wrap64_small by (unfold in_int64, two63 in *; lia).
    replace (Z.of_nat k + 1) with (Z.of_nat (S k)) by lia.
    apply IH; [lia | lia | by rewrite length_insert].
Qed.

(** X19.  Let the worker count be one for which the progress table can be
    made: not negative, its [32 * nConns] bytes within [maxAlloc] and there
    to be had.  The table that [Download] prepares for a progress function
    then has one entry per worker, entry [k] showing chunk [k] with [Current]
    at its [Begin], when the chunk table has at least [nConns] entries; with
    a shorter chunk table (as before [GatherInfo] has run) the preparation
    panics on the index. *)
Theorem Download_progressArray_initial (may_allocate : Z -> bool)
    (dldr : MultiDownloader) :
  0 <= nConns dldr ->
  sizeof_ConnectionProgress * nConns dldr <= maxAlloc ->
  may_allocate (sizeof_ConnectionProgress * nConns dldr) = true ->
  (nConns dldr <= Z.of_nat (length (chunks dldr)) ->
     exists table,
       Download_progressArray may_allocate dldr = Ok table /\
       Z.of_nat (length table) = nConns dldr /\
       forall (k : nat) c, Z.of_nat k < nConns dldr ->
         chunks dldr !! k = Some c ->
         table !! k = Some (Progress.mk (Z.of_nat k) (Begin c) (End c) (Begin c))) /\
  (Z.of_nat (length (chunks dldr)) < nConns dldr ->
     Download_progressArray may_allocate dldr = Panic IndexOutOfRange).
Proof.
  intros Hn0 Hfit Hmem.
  assert (Hn : 0 <= nConns dldr < two63)
    by (unfold sizeof_ConnectionProgress, maxAlloc, two63 in *; lia).
  unfold Download_progressArray. rewrite makeslice_fits by done.
  split.
  - intros Hcs.
    destruct (Download_progressArray_loop_fills (nConns dldr) (chunks dldr)
                ltac:(lia) Hcs (Z.to_nat (nConns dldr)) 0
                (replicate (Z.to_nat (nConns dldr)) (Progress.mk 0 0 0 0)))
      as (table & Ht & Hl & _ & Hnew); [lia | rewrite length_replicate; lia |].
    exists table. split_and!; [exact Ht | rewrite Hl, length_replicate; lia |].
    intros k c Hk Hc. apply Hnew; [lia | done | done].
  - intros Hcs.
    apply (Download_progressArray_loop_short (nConns dldr) (chunks dldr)
             ltac:(lia) Hcs (Z.to_nat (nConns dldr)) 0);
      [lia | lia | rewrite length_replicate; lia].
Qed.

(** ** The protocol of [Download] *)

Lemma count_workers_nonneg (w : workerState) (ws : list workerState) :
  0 <= count_workers w ws.
Proof.
  induction ws as [|w' ws IH]; cbn [count_workers]; [lia|].
  destruct w, w'; lia.
Qed.

Lemma count_workers_total (ws : list workerState) :
  count_workers Waiting ws + count_workers Running ws + count_workers Finished ws
  = Z.of_nat (length ws).
Proof.
  induction ws as [|w' ws IH]; cbn [count_workers length]; [lia|].
  destruct w'; lia.
Qed.

Lemma count_workers_replicate (w w' : workerState) (n : nat) :
  count_workers w (replicate n w') = count_workers w [w'] * Z.of_nat n.
Proof.
  induction n as [|n IH]; cbn [replicate count_workers] in *; [lia|].
  destruct w, w'; lia.
Qed.

(** Moving one worker from a state to another. *)
Lemma count_workers_update (ws : list workerState) (i : nat)
    (w0 w1 : workerState) :
  ws !! i = Some w0 ->
  forall w, count_workers w (<[i := w1]> ws)
            = count_workers w ws - count_workers w [w0] + count_workers w [w1].
Proof.
  revert i. induction ws as [|w' ws IH]; intros i Hi w; [done|].
  destruct i as [|i]; cbn [lookup list_lookup] in Hi.
  - injection Hi as ->. cbn [insert list_insert count_workers]. lia.
  - cbn [insert list_insert count_workers]. rewrite (IH i Hi).
    cbn [count_workers]. lia.
Qed.

Lemma count_workers_pos_lookup (w : workerState) (ws : list workerState) :
  0 < count_workers w ws -> exists i : nat, ws !! i = Some w.
Proof.
  induction ws as [|w' ws IH]; cbn [count_workers]; [lia|].
  intros Hpos. destruct (decide (0 < count_workers w ws)) as [Hrest|Hrest].
  - destruct (IH Hrest) as [i Hi]. by exists (S i).
  - exists 0%nat. destruct w, w'; cbn; (done || lia).
Qed.

Lemma Download_start_invariant (N : Z) :
  0 <= N -> session_invariant N (Download_start N).
Proof.
  intros HN. unfold session_invariant, Download_start.
  cbn [workers available failedCount remainingChunks coordinator].
  rewrite length_replicate, !count_workers_replicate. cbn [count_workers].
  split_and!; try lia. destruct (Z.ltb_spec 0 N); lia.
Qed.

Lemma Download_step_invariant (N : Z) (s s' : session) (a : action) :
  N < two63 ->
  session_invariant N s ->
  Download_step N s a = Some s' ->
  session_invariant N s'.
Proof.
  intros HN (Hlen & Hav & Hfc & Hsum & Hrem & Hco) Hstep.
  pose proof (count_workers_nonneg Waiting (workers s)) as HW.
  pose proof (count_workers_nonneg Running (workers s)) as HR.
  pose proof (count_workers_nonneg Finished (workers s)) as HF.
  pose proof (count_workers_total (workers s)) as Htot.
  destruct a as [i|i|i]; cbn [Download_step] in Hstep.
  - destruct (workers s !! i) as [[]|] eqn:Hi; try done.
    destruct (Z.ltb_spec 0 (available s)); [|done].
    injection Hstep as <-. unfold session_invariant.
    cbn [workers available failedCount remainingChunks coordinator].
    rewrite length_insert, !(count_workers_update _ _ _ _ Hi).
    cbn [count_workers]. split_and!; try lia. exact Hco.
  - destruct (workers s !! i) as [[]|] eqn:Hi; try done.
    destruct (coordinator s); try done. destruct Hco as [Hlt Hpos].
    assert (Hone : 1 <= count_workers Running (workers s)).
    { pose proof (count_workers_update _ _ _ Finished Hi Running) as Hu.
      pose proof (count_workers_nonneg Running (<[i := Finished]> (workers s))).
      cbn [count_workers] in Hu. lia. }
    replace (available s <? N) with true in Hstep
      by (symmetry; apply Z.ltb_lt; lia).
    rewrite wrap64_small in Hstep by (unfold in_int64, two63 in *; lia).
    injection Hstep as <-. unfold session_invariant.
    cbn [workers available failedCount remainingChunks coordinator].
    rewrite length_insert, !(count_workers_update _ _ _ _ Hi).
    cbn [count_workers]. split_and!; try lia.
    destruct (Z.ltb_spec 0 (remainingChunks s - 1)); lia.
  - destruct (workers s !! i) as [[]|] eqn:Hi; try done.
    destruct (coordinator s); try done. destruct Hco as [Hlt Hpos].
    assert (Hone : 1 <= count_workers Running (workers s)).
    { pose proof (count_workers_update _ _ _ Waiting Hi Running) as Hu.
      pose proof (count_workers_nonneg Running (<[i := Waiting]> (workers s))).
      cbn [count_workers] in Hu. lia. }
    rewrite wrap64_small in Hstep by (unfold in_int64, two63 in *; lia).
    injection Hstep as <-. unfold session_invariant.
    cbn [workers available failedCount remainingChunks coordinator].
    rewrite length_insert, !(count_workers_update _ _ _ _ Hi).
    cbn [count_workers]. split_and!; try lia.
    destruct (Z.leb_spec N (failedCount s + 1)); lia.
Qed.

Lemma Download_run_invariant (N : Z) (acts : list action) :
  N < two63 ->
  forall s s',
    session_invariant N s ->
    Download_run N s acts = Some s' ->
    session_invariant N s'.
Proof.
  intros HN. induction acts as [|a acts IH]; intros s s' Hinv Hrun.
  - by injection Hrun as <-.
  - cbn [Download_run] in Hrun.
    destruct (Download_step N s a) as [s1|] eqn:Hstep; [|done].
    eapply IH; [|exact Hrun]. by eapply Download_step_invariant.
Qed.

(** X20.  In every session that the protocol reaches from its start, the
    tokens in the channel, the workers at work and the failures counted add
    up to [nConns].  So the channel never holds more than [nConns] tokens and
    the coordinator is never held up when it gives a token back; and when
    the coordinator returns the error, no worker is at work and no token is
    left. *)
Theorem Download_tokens_invariant (N : Z) (acts : list action) (s : session) :
  0 <= N < two63 ->
  Download_run N (Download_start N) acts = Some s ->
  available s + count_workers Running (workers s) + failedCount s = N /\
  0 <= available s <= N /\
  coordinator s <> BlockedOnToken /\
  (coordinator s = Aborted ->
     available s = 0 /\ count_workers Running (workers s) = 0).
Proof.
  intros HN Hrun.
  destruct (Download_run_invariant N acts ltac:(lia) _ _
              (Download_start_invariant N ltac:(lia)) Hrun)
    as (Hlen & Hav & Hfc & Hsum & Hrem & Hco).
  pose proof (count_workers_nonneg Running (workers s)) as HR.
  split_and!; try lia.
  - intros Hb. by rewrite Hb in Hco.
  - intros Ha. rewrite Ha in Hco. lia.
Qed.

(** X21.  The protocol cannot get stuck while the coordinator is in its
    loop: in every session reached from the start in which the coordinator
    still waits, some worker can take a token or some worker at work can
    signal.  (All workers waiting for a token that will never come while the
    coordinator waits for a signal does not happen.) *)
Theorem Download_no_deadlock (N : Z) (acts : list action) (s : session) :
  0 <= N < two63 ->
  Download_run N (Download_start N) acts = Some s ->
  coordinator s = Looping ->
  exists a s', Download_step N s a = Some s'.
Proof.
  intros HN Hrun Hloop.
  destruct (Download_run_invariant N acts ltac:(lia) _ _
              (Download_start_invariant N ltac:(lia)) Hrun)
    as (Hlen & Hav & Hfc & Hsum & Hrem & Hco).
  rewrite Hloop in Hco. destruct Hco as [Hlt Hpos].
  destruct (decide (0 < count_workers Running (workers s))) as [Hr|Hr].
  - destruct (count_workers_pos_lookup _ _ Hr) as [i Hi].
    exists (SendsOnDone i). cbn [Download_step]. rewrite Hi, Hloop.
    destruct (available s <? N); eauto.
  - pose proof (count_workers_nonneg Running (workers s)).
    destruct (count_workers_pos_lookup Waiting (workers s) ltac:(lia)) as [i Hi].
    exists (TakesToken i). cbn [Download_step]. rewrite Hi.
    replace (0 <? available s) with true by (symmetry; apply Z.ltb_lt; lia).
    eauto.
Qed.

Lemma Download_step_measure (N : Z) (s s' : session) (a : action) :
  N < two63 ->
  session_invariant N s ->
  Download_step N s a = Some s' ->
  2 * remainingChunks s' + 2 * (N - failedCount s')
    - count_workers Running (workers s') + 1
  = 2 * remainingChunks s + 2 * (N - failedCount s)
    - count_workers Running (workers s).
Proof.
  intros HN (Hlen & Hav & Hfc & Hsum & Hrem & Hco) Hstep.
  pose proof (count_workers_nonneg Waiting (workers s)) as HW.
  pose proof (count_workers_nonneg Running (workers s)) as HR.
  pose proof (count_workers_total (workers s)) as Htot.
  pose proof (count_workers_nonneg Finished (workers s)) as HF.
  destruct a as [i|i|i]; cbn [Download_step] in Hstep.
  - destruct (workers s !! i) as [[]|] eqn:Hi; try done.
    destruct (0 <? available s); [|done]. injection Hstep as <-.
    cbn [workers available failedCount remainingChunks coordinator].
    rewrite !(count_workers_update _ _ _ _ Hi). cbn [count_workers]. lia.
  - destruct (workers s !! i) as [[]|] eqn:Hi; try done.
    destruct (coordinator s); try done. destruct Hco as [Hlt Hpos].
    rewrite wrap64_small in Hstep by (unfold in_int64, two63 in *; lia).
    destruct (available s <? N); injection Hstep as <-;
      cbn [workers available failedCount remainingChunks coordinator];
      rewrite !(count_workers_update _ _ _ _ Hi); cbn [count_workers]; lia.
  - destruct (workers s !! i) as [[]|] eqn:Hi; try done.
    destruct (coordinator s); try done. destruct Hco as [Hlt Hpos].
    rewrite wrap64_small in Hstep by (unfold in_int64, two63 in *; lia).
    injection Hstep as <-.
    cbn [workers available failedCount remainingChunks coordinator].
    rewrite !(count_workers_update _ _ _ _ Hi). cbn [count_workers]. lia.
Qed.

Lemma Download_run_measure (N : Z) (acts : list action) :
  N < two63 ->
  forall s s',
    session_invariant N s ->
    Download_run N s acts = Some s' ->
    2 * remainingChunks s' + 2 * (N - failedCount s')
      - count_workers Running (workers s') + Z.of_nat (length acts)
    = 2 * remainingChunks s + 2 * (N - failedCount s)
      - count_workers Running (workers s).
Proof.
  intros HN. induction acts as [|a acts IH]; intros s s' Hinv Hrun.
  - injection Hrun as <-. cbn [length]. lia.
  - cbn [Download_run] in Hrun.
    destruct (Download_step N s a) as [s1|] eqn:Hstep; [|done].
    pose proof (Download_step_measure N s s1 a HN Hinv Hstep).
    pose proof (IH s1 s' (Download_step_invariant N s s1 a HN Hinv Hstep) Hrun).
    cbn [length]. lia.
Qed.

(** X22.  The protocol ends: no sequence of steps from the start is longer
    than [4 * nConns].  With X21, a session in which every pass of a worker
    comes to its signal reaches the rename or the error. *)
Theorem Download_protocol_bounded (N : Z) (acts : list action) (s : session) :
  0 <= N < two63 ->
  Download_run N (Download_start N) acts = Some s ->
  Z.of_nat (length acts) <= 4 * N.
Proof.
  intros HN Hrun.
  pose proof (Download_start_invariant N ltac:(lia)) as Hstart.
  pose proof (Download_run_measure N acts ltac:(lia) _ _ Hstart Hrun) as Hm.
  destruct (Download_run_invariant N acts ltac:(lia) _ _ Hstart Hrun)
    as (Hlen & Hav & Hfc & Hsum & Hrem & Hco).
  pose proof (count_workers_nonneg Waiting (workers s)).
  pose proof (count_workers_nonneg Running (workers s)).
  unfold Download_start in Hm.
  cbn [workers available failedCount remainingChunks coordinator] in Hm.
  rewrite count_workers_replicate in Hm. cbn [count_workers] in Hm. lia.
Qed.

Lemma Download_run_after_end (N : Z) (acts : list action) :
  forall s s',
    coordinator s <> Looping ->
    Download_run N s acts = Some s' ->
    signals acts = [] /\ coordinator s' = coordinator s.
Proof.
  induction acts as [|a acts IH]; intros s s' Hend Hrun.
  - by injection Hrun as <-.
  - cbn [Download_run] in Hrun.
    destruct (Download_step N s a) as [s1|] eqn:Hstep; [|done].
    destruct a as [i|i|i]; cbn [Download_step] in Hstep.
    + destruct (workers s !! i) as [[]|]; try done.
      destruct (0 <? available s); [|done]. injection Hstep as <-.
      cbn [signals]. eapply IH in Hrun; [exact Hrun | exact Hend].
    + by destruct (workers s !! i) as [[]|], (coordinator s).
    + by destruct (workers s !! i) as [[]|], (coordinator s).
Qed.

Lemma Download_run_refines_loop (N : Z) (acts : list action) :
  N < two63 ->
  forall s s',
    session_invariant N s ->
    coordinator s = Looping ->
    Download_run N s acts = Some s' ->
    Download_loop N (remainingChunks s) (failedCount s) (signals acts)
    = coordinator_outcome (coordinator s').
Proof.
  intros HN. induction acts as [|a acts IH]; intros s s' Hinv Hloop Hrun.
  - injection Hrun as <-. rewrite Hloop. cbn [signals Download_loop coordinator_outcome].
    destruct Hinv as (_ & _ & _ & _ & _ & Hco). rewrite Hloop in Hco.
    by replace (0 <? remainingChunks s) with true by (symmetry; apply Z.ltb_lt; lia).
  - cbn [Download_run] in Hrun.
    destruct (Download_step N s a) as [s1|] eqn:Hstep; [|done].
    pose proof (Download_step_invariant N s s1 a HN Hinv Hstep) as Hinv1.
    pose proof Hinv as (_ & _ & _ & _ & _ & Hco). rewrite Hloop in Hco.
    destruct Hco as [Hlt Hpos].
    destruct a as [i|i|i]; cbn [Download_step] in Hstep; cbn [signals].
    + destruct (workers s !! i) as [[]|]; try done.
      destruct (0 <? available s); [|done]. injection Hstep as <-.
      by apply (IH _ _ Hinv1 Hloop Hrun).
    + destruct (workers s !! i) as [[]|]; try done. rewrite Hloop in Hstep.
      cbn [Download_loop].
      replace (0 <? remainingChunks s) with true by (symmetry; apply Z.ltb_lt; lia).
      cbn [negb].
      destruct (available s <? N).
      2:{ injection Hstep as <-. by destruct Hinv1 as (_ & _ & _ & _ & _ & []). }
      injection Hstep as <-. revert Hrun Hinv1.
      destruct (0 <? wrap64 (remainingChunks s - 1)) eqn:Hmore; intros Hrun Hinv1.
      * by apply (IH _ _ Hinv1 eq_refl Hrun).
      * apply Download_run_after_end in Hrun as [-> ->]; [|done].
        cbn [coordinator coordinator_outcome Download_loop]. by rewrite Hmore.
    + destruct (workers s !! i) as [[]|]; try done. rewrite Hloop in Hstep.
      cbn [Download_loop].
      replace (0 <? remainingChunks s) with true by (symmetry; apply Z.ltb_lt; lia).
      cbn [negb]. injection Hstep as <-. revert Hrun Hinv1.
      destruct (N <=? wrap64 (failedCount s + 1)) eqn:Hab; intros Hrun Hinv1.
      * by apply Download_run_after_end in Hrun as [_ ->].
      * by apply (IH _ _ Hinv1 eq_refl Hrun).
Qed.

(** X23.  The protocol and the coordinator loop agree: on the events that
    the coordinator receives in a sequence of steps from the start,
    [Download_loop] waits, returns normally or returns the error exactly as
    the coordinator of the session reached does. *)
Theorem Download_protocol_refines_coordinator (N : Z) (acts : list action)
    (s : session) :
  1 <= N < two63 ->
  Download_run N (Download_start N) acts = Some s ->
  Download_loop N N 0 (signals acts) = coordinator_outcome (coordinator s).
Proof.
  intros HN Hrun.
  apply (Download_run_refines_loop N acts ltac:(lia) (Download_start N) s);
    [apply Download_start_invariant; lia | | done].
  unfold Download_start. cbn [coordinator].
  by replace (0 <? N) with true by (symmetry; apply Z.ltb_lt; lia).
Qed.

(** ** Examples for the further properties *)

Lemma urlToFilename_is_path_suffix_witness :
  exists dir,
    "/pub/disk.iso"%string
    = dir +:+ urlToFilename simple_url_Parse "http://example.com/pub/disk.iso".
Proof.
  destruct (urlToFilename_is_path_suffix simple_url_Parse
              "http://example.com/pub/disk.iso") as [_ Hsuffix].
  destruct (Hsuffix (mkURL "/pub/disk.iso") eq_refl) as (dir & Hdir & _).
  exists dir. exact Hdir.
Defined.

(** The three bytes of [three_byte_reads] come in two blocks.  When both
    snapshots are received the body is written and [done] is sent; when only
    the first is, both blocks are written and the worker waits. *)
Lemma downloadChunk_copy_writes_body_witness :
  (exists ps,
     downloadChunk_copy disk_always true 2 0 (mkChunk 2 5) three_byte_reads
       (replicate 8 x00) 2
     = (overlay (replicate 8 x00) [x01; x02; x03] 2, ps, SendsDone)) /\
  (exists ps,
     downloadChunk_copy disk_always true 1 0 (mkChunk 2 5) three_byte_reads
       (replicate 8 x00) 2
     = (overlay (replicate 8 x00) [x01; x02; x03] 2, ps, AwaitsReceiver) /\
     length ps = 1%nat).
Proof.
  split.
  - destruct (downloadChunk_copy_writes_body disk_always (fun _ _ => eq_refl)
                true 2 0 (mkChunk 2 5) three_byte_reads [[x01; x02]; [x03]]
                (replicate 8 x00))
      as (_ & Hall & _).
    + reflexivity.
    + cbn. lia.
    + cbn. unfold two63. lia.
    + destruct Hall as (ps & Hcopy & _); [reflexivity | cbn; lia |].
      exists ps. exact Hcopy.
  - destruct (downloadChunk_copy_writes_body disk_always (fun _ _ => eq_refl)
                true 1 0 (mkChunk 2 5) three_byte_reads [[x01; x02]; [x03]]
                (replicate 8 x00))
      as (_ & _ & Hsome).
    + reflexivity.
    + cbn. lia.
    + cbn. unfold two63. lia.
    + destruct Hsome as (ps & Hcopy & Hlen); [reflexivity | cbn; lia |].
      exists ps. split; [exact Hcopy | exact Hlen].
Defined.

(** One worker and one chunk of 4096 bytes, with a progress function.  The
    first block brings [Current] up to [End]: the goroutine that keeps the
    table counts its one chunk and leaves its loop after that snapshot.  The
    worker writes the byte that is left and waits for ever on its second
    send, so [done] is never sent and the coordinator, with no event to
    receive, keeps waiting: [Download] does not return. *)
Example single_worker_waits_for_receiver :
  snapshots_taken 1 [Progress.mk 0 0 4096 0]
    (snapshotsOf 0 (mkChunk 0 4096) 0 block_and_a_byte) 0 = 1%nat /\
  (downloadChunk_round disk_always (fun _ => true)
     (fun _ _ => Some (map (fun b => mkRead b false) block_and_a_byte
                         ++ [mkRead [] true]))
     one_chunk_of_4096 true 1 0 (replicate 4096 x00)).2 = AwaitsProgress /\
  Download_coordinator one_chunk_of_4096 [] = Blocked.
Proof. vm_compute. done. Qed.

Lemma downloadChunk_copy_done_only_on_EOF_witness :
  exists pre rd post,
    three_byte_reads = pre ++ rd :: post /\ readEOF rd = true /\
    Forall (fun r => readEOF r = false) pre.
Proof.
  destruct (downloadChunk_copy_done_only_on_EOF disk_always true 2 0 (mkChunk 2 5)
              three_byte_reads (replicate 8 x00)
              (overlay (replicate 8 x00) [x01; x02; x03] 2) 2
              [Progress.mk 0 2 5 4; Progress.mk 0 2 5 5] eq_refl)
    as (pre & rd & post & Hsplit & Heof & Hpre & _).
  exists pre, rd, post. split_and!; [exact Hsplit | exact Heof | exact Hpre].
Defined.

Lemma downloadChunk_round_failover_witness :
  (downloadChunk_round disk_always (fun _ => true) second_mirror_only
     one_chunk_two_mirrors false 0 0 (replicate 3 x00)).2 = Sends done.
Proof.
  destruct (downloadChunk_round_failover disk_always (fun _ => true)
              second_mirror_only one_chunk_two_mirrors false 0 0 (mkChunk 0 2)
              (replicate 3 x00)) as [_ Hfirst].
  - lia.
  - cbn. unfold two63. lia.
  - reflexivity.
  - rewrite (Hfirst ["http://m1/f"%string] "http://m2/f"%string [] three_byte_reads).
    + reflexivity.
    + reflexivity.
    + constructor; [right; reflexivity | constructor].
    + reflexivity.
    + reflexivity.
Defined.

Lemma copyAll_rebuilds_content_witness :
  copyAll disk_always five_byte_jobs (replicate 5 x00) = Some five_bytes.
Proof.
  apply (copyAll_rebuilds_content disk_always (fun _ _ => eq_refl)
           (memory_of one_GiB)
           five_byte_downloader five_bytes (replicate 5 x00) five_byte_jobs).
  - cbn. unfold two63. lia.
  - cbn. lia.
  - vm_compute. discriminate.
  - reflexivity.
  - reflexivity.
  - reflexivity.
  - intros c Hc. vm_compute in Hc.
    apply elem_of_cons in Hc as [->|Hc]; [|apply elem_of_cons in Hc as [->|Hc]].
    + apply list_elem_of_further, list_elem_of_here.
    + apply list_elem_of_here.
    + by apply elem_of_nil in Hc.
  - intros c reads Hjob.
    apply elem_of_cons in Hjob as [[= -> ->]|Hjob];
      [|apply elem_of_cons in Hjob as [[= -> ->]|Hjob]].
    + split; [apply list_elem_of_further, list_elem_of_here|].
      exists [[x0d; x0e]]. split; reflexivity.
    + split; [apply list_elem_of_here|].
      exists [[x0a; x0b]; [x0c; x0d]]. split; reflexivity.
    + by apply elem_of_nil in Hjob.
Defined.

Lemma Download_aggregator_latest_per_chunk_witness :
  exists t,
    (Download_aggregator 2 0 two_chunk_table first_chunk_snapshots).1.1 !! 1%nat
    = Some t /\
    length t = length two_chunk_table /\
    t !! 0%nat = Some (Progress.mk 0 0 4096 4097).
Proof.
  eexists. split; [reflexivity|].
  destruct (Download_aggregator_latest_per_chunk 2 first_chunk_snapshots 0
              two_chunk_table
              (Download_aggregator 2 0 two_chunk_table first_chunk_snapshots).1.1
              (Download_aggregator 2 0 two_chunk_table first_chunk_snapshots).1.2
              (Download_aggregator 2 0 two_chunk_table first_chunk_snapshots).2
              eq_refl) as [_ Hcalls].
  - repeat constructor; cbn; lia.
  - destruct (Hcalls 1%nat _ eq_refl) as [Hlen Hlat].
    split; [exact Hlen | rewrite Hlat; reflexivity].
Defined.

(** The first chunk alone ends the goroutine that serves two chunks: its
    two last snapshots are both counted. *)
Lemma Download_aggregator_counts_snapshots_witness :
  (Download_aggregator 2 0 two_chunk_table first_chunk_snapshots).2 = Ok tt.
Proof.
  destruct (Download_aggregator_counts_snapshots 2 two_chunk_table
              first_chunk_snapshots) as [_ Hstop].
  - unfold two63. lia.
  - repeat constructor; cbn; lia.
  - destruct Hstop as [Hok _]; [cbn; lia | exact Hok].
Defined.

Lemma Download_progressArray_initial_witness :
  Download_progressArray (memory_of one_GiB)
    (NewMultiDownloader ["http://m1/f"%string] 2 0)
  = Panic IndexOutOfRange.
Proof.
  destruct (Download_progressArray_initial (memory_of one_GiB)
              (NewMultiDownloader ["http://m1/f"%string] 2 0)) as [_ Hshort].
  - cbn. lia.
  - vm_compute. discriminate.
  - reflexivity.
  - apply Hshort. cbn. lia.
Defined.

Lemma Download_tokens_invariant_witness :
  available sample_session_end = 0 /\
  count_workers Running (workers sample_session_end) = 0.
Proof.
  destruct (Download_tokens_invariant 2 sample_steps sample_session_end)
    as (_ & _ & _ & Haborted).
  - unfold two63. lia.
  - reflexivity.
  - apply Haborted. reflexivity.
Defined.

Lemma Download_no_deadlock_witness :
  exists a s', Download_step 2 sample_session_midway a = Some s'.
Proof.
  apply (Download_no_deadlock 2 (take 3 sample_steps) sample_session_midway).
  - unfold two63. lia.
  - reflexivity.
  - reflexivity.
Defined.

Lemma Download_protocol_bounded_witness :
  Z.of_nat (length sample_steps) <= 4 * 2.
Proof.
  apply (Download_protocol_bounded 2 sample_steps sample_session_end).
  - unfold two63. lia.
  - reflexivity.
Defined.

Lemma Download_protocol_refines_coordinator_witness :
  Download_loop 2 2 0 (signals sample_steps) = Err ErrAllSourcesFailed.
Proof.
  apply (Download_protocol_refines_coordinator 2 sample_steps sample_session_end).
  - unfold two63. lia.
  - reflexivity.
Defined.

Lemma interleaved_writes_rebuild_content_witness :
  applyWrites disk_always five_byte_trace (replicate 5 x00) = Some five_bytes.
Proof.
  apply (interleaved_writes_rebuild_content disk_always (fun _ _ => eq_refl)
           (memory_of one_GiB)
           five_byte_downloader five_bytes (replicate 5 x00) five_byte_blocks
           five_byte_trace).
  - cbn. unfold two63. lia.
  - cbn. lia.
  - vm_compute. discriminate.
  - reflexivity.
  - reflexivity.
  - reflexivity.
  - intros c Hc. vm_compute in Hc.
    apply elem_of_cons in Hc as [->|Hc]; [|apply elem_of_cons in Hc as [->|Hc]].
    + apply list_elem_of_here.
    + apply list_elem_of_further, list_elem_of_here.
    + by apply elem_of_nil in Hc.
  - intros c blocks Hjob.
    apply elem_of_cons in Hjob as [[= -> ->]|Hjob];
      [|apply elem_of_cons in Hjob as [[= -> ->]|Hjob]].
    + split; [apply list_elem_of_here | reflexivity].
    + split; [apply list_elem_of_further, list_elem_of_here | reflexivity].
    + by apply elem_of_nil in Hjob.
  - apply perm_skip, perm_swap.
Defined.

(** ** The Range header of a chunk *)

(** X25.  For the table that [buildChunks] stores (for a worker count
    whose table can be made), the Range header sent
    for a chunk names as its last byte the first byte of the next chunk, and
    the header of the last chunk names byte [fileLength]: every request
    reaches one byte past its chunk, the last one past the end of the file. *)
Theorem rangeHeader_reaches_next_chunk (may_allocate : Z -> bool)
    (dldr : MultiDownloader) :
  0 <= fileLength dldr < two63 ->
  1 <= nConns dldr ->
  sizeof_Chunk * nConns dldr <= maxAlloc ->
  may_allocate (sizeof_Chunk * nConns dldr) = true ->
  (forall (k : nat) c d,
     chunks (buildChunks may_allocate dldr).1 !! k = Some c ->
     chunks (buildChunks may_allocate dldr).1 !! S k = Some d ->
     rangeHeader c
     = "bytes=" +:+ formatInt (Begin c) +:+ "-" +:+ formatInt (Begin d)) /\
  (forall c,
     last (chunks (buildChunks may_allocate dldr).1) = Some c ->
     rangeHeader c
     = "bytes=" +:+ formatInt (Begin c) +:+ "-" +:+ formatInt (fileLength dldr)).
Proof.
  intros Hfl Hn Hfit Hmem. rewrite buildChunks_closed_form by done.
  cbn [fst chunks set_chunks].
  pose proof (Z.mod_pos_bound (fileLength dldr) (nConns dldr) ltac:(lia)) as Hr.
  pose proof (Z.div_mod (fileLength dldr) (nConns dldr) ltac:(lia)) as Hdm.
  unfold rangeHeader. split.
  - intros k c d Hc Hd.
    apply chunkTable_lookup in Hc as [_ ->], Hd as [_ ->].
    do 4 f_equal. unfold chunkAt. cbn [Begin End]. f_equal; lia.
  - intros c Hc. rewrite last_lookup, chunkTable_length in Hc.
    apply chunkTable_lookup in Hc as [_ ->].
    do 4 f_equal. unfold chunkAt. cbn [Begin End].
    replace (Z.of_nat (Nat.pred (Z.to_nat (nConns dldr))) + 1)
      with (nConns dldr) by lia.
    lia.
Qed.

Lemma rangeHeader_reaches_next_chunk_witness :
  rangeHeader (mkChunk 3 5) = "bytes=3-5"%string.
Proof.
  destruct (rangeHeader_reaches_next_chunk (memory_of one_GiB)
              five_byte_downloader) as [_ Hlast].
  - cbn. unfold two63. lia.
  - cbn. lia.
  - vm_compute. discriminate.
  - reflexivity.
  - apply (Hlast (mkChunk 3 5)). reflexivity.
Defined.
